(** * raw-tracks-tools: normalisation of gapped audio/video tracks

    A shallow embedding of [src/render-track.js] (the planner, the renderer,
    the audio aligner and the encoder resolver) and of the command-line
    script [normalize-track.js], with the properties of the specification
    stated and settled over it.

    Numbers.  A JavaScript number is a binary64 value.  Where the code only
    compares and copies numbers (the checks, the planner) a number is
    carried by its exact value, a rational [Q], compared with [Qeq] ([==]);
    the analysis record holds finite numbers and does not tell the two
    zeros apart.  Where the code computes (the delay, the seek position,
    the duration of a segment) the result is the binary64 one, a [number],
    obtained with the IEEE 754 operations of the Standard Library's
    [SpecFloat].  The rounding rule of the durations is also given over the
    rationals, for the bound on the rounding error that is stated in exact
    arithmetic.

    Strings.  Template literals are built with string concatenation; an
    interpolated number is printed as [Number::toString] prints it. *)

From Stdlib Require Import Ascii QArith Qround Qabs Lqa SpecFloat.
From stdpp Require Import gmap strings list pretty.

Open Scope Q_scope.

(** ** Numbers *)

(** [x > y] on numbers, as a boolean. *)
Definition Qgtb (x y : Q) : bool := negb (Qle_bool x y).

(** [x < y] on numbers, as a boolean. *)
Definition Qltb (x y : Q) : bool := Qgtb y x.

(** ** Data model *)

(** An entry of [analysis.gaps]. *)
Record Gap := mkGap { start : Q; end_ : Q }.

(** The [type] field of a segment: ['src'] or ['gap']. *)
Inductive SegType := src | gap.

Global Instance SegType_eq_dec : EqDecision SegType.
Proof. solve_decision. Defined.

(** An element of the [segments] array. *)
Record Segment := mkSegment { seg_start : Q; seg_end : Q; type : SegType }.

(** [{ ...gap, type: 'gap' }] *)
Definition gap_segment (g : Gap) : Segment :=
  mkSegment (start g) (end_ g) gap.

(** ** The planning loop of [normalizeVideoTrackToM4V] *)

(** One iteration of [for (const gap of gaps)] on the loop state
    [(segments, t)]. *)
Definition plan_step (st : list Segment * Q) (g : Gap) : list Segment * Q :=
  let '(segments, t) := st in
  let segments :=
    if Qgtb (start g) t
    then segments ++ [mkSegment t (start g) src]
    else segments in
  let segments := segments ++ [gap_segment g] in
  (segments, end_ g).

Fixpoint plan_loop (gaps : list Gap) (st : list Segment * Q)
  : list Segment * Q :=
  match gaps with
  | [] => st
  | g :: rest => plan_loop rest (plan_step st g)
  end.

(** Lines 144-157: the segment list for a gap list and an end time. *)
Definition planSegments (gaps : list Gap) (endTime : Q) : list Segment :=
  let '(segments, t) := plan_loop gaps ([], 0) in
  if Qltb t endTime
  then segments ++ [mkSegment t endTime src]
  else segments.

(** The same list by recursion on the gaps, with the cursor [t] as an
    argument; equal to [planSegments] by [planSegments_emit]. *)
Fixpoint emit (gaps : list Gap) (t endTime : Q) : list Segment :=
  match gaps with
  | [] => if Qltb t endTime then [mkSegment t endTime src] else []
  | g :: rest =>
      (if Qgtb (start g) t then [mkSegment t (start g) src] else [])
        ++ gap_segment g :: emit rest (end_ g) endTime
  end.

(** ** Properties of gap lists and segment lists *)

(** [R] holds of every two neighbours of a list. *)
Fixpoint adjacent {A} (R : A -> A -> Prop) (l : list A) : Prop :=
  match l with
  | a :: (b :: _) as tl => R a b /\ adjacent R tl
  | _ => True
  end.

(** [R] holds of every two elements of a list, the earlier one first. *)
Fixpoint pairwise {A} (R : A -> A -> Prop) (l : list A) : Prop :=
  match l with
  | [] => True
  | a :: tl => Forall (R a) tl /\ pairwise R tl
  end.

(** The documented invariant of [analysis.gaps]: each gap has
    [0 <= start < end], the gaps are sorted ascending, mutually
    non-overlapping, and all within [0, endTime]. *)
Record gaps_invariant (endTime : Q) (gaps : list Gap) : Prop := {
  gaps_bounds :
    Forall (fun g => 0 <= start g /\ start g < end_ g /\ end_ g <= endTime)
           gaps;
  gaps_sorted : pairwise (fun g g' => start g <= start g') gaps;
  gaps_disjoint :
    pairwise (fun g g' => end_ g <= start g' \/ end_ g' <= start g) gaps
}.

(** No two gaps touch: a gap ends strictly before the next one starts. *)
Definition gaps_separated (gaps : list Gap) : Prop :=
  adjacent (fun g g' => end_ g < start g') gaps.

Definition duration_of (s : Segment) : Q := seg_end s - seg_start s.

Definition total_duration (segs : list Segment) : Q :=
  foldr (fun s acc => duration_of s + acc) 0 segs.

(** Every segment has a positive length. *)
Definition nonempty_segments (segs : list Segment) : Prop :=
  Forall (fun s => seg_start s < seg_end s) segs.

(** Every segment starts where the one before it ends. *)
Definition contiguous (segs : list Segment) : Prop :=
  adjacent (fun s s' => seg_end s == seg_start s') segs.

(** Segments are in ascending order of their start. *)
Definition ascending (segs : list Segment) : Prop :=
  pairwise (fun s s' => seg_start s < seg_start s') segs.

(** No segment reaches into a later one. *)
Definition non_overlapping (segs : list Segment) : Prop :=
  pairwise (fun s s' => seg_end s <= seg_start s') segs.

(** The list starts at [lo] and ends at [hi]. *)
Definition spans (lo hi : Q) (segs : list Segment) : Prop :=
  match segs with
  | [] => lo == hi
  | s :: _ => seg_start s == lo /\
              forall s', last segs = Some s' -> seg_end s' == hi
  end.

(** The segment list partitions [[0, endTime]]. *)
Record partitions (endTime : Q) (segs : list Segment) : Prop := {
  part_nonempty : nonempty_segments segs;
  part_spans : spans 0 endTime segs;
  part_contiguous : contiguous segs;
  part_ascending : ascending segs;
  part_non_overlapping : non_overlapping segs;
  part_total : total_duration segs == endTime
}.

(** The tags alternate: neighbours never carry the same tag. *)
Definition alternates (segs : list Segment) : Prop :=
  adjacent (fun s s' => type s <> type s') segs.

(** A ['src'] segment is never followed by another ['src'] segment. *)
Definition no_src_src (segs : list Segment) : Prop :=
  adjacent (fun s s' => ~ (type s = src /\ type s' = src)) segs.

(** The gaps that the ['gap'] segments of a list stand for, in order. *)
Definition gaps_of (segs : list Segment) : list Gap :=
  omap (fun s => match type s with
                 | gap => Some (mkGap (seg_start s) (seg_end s))
                 | src => None
                 end) segs.
(** ** Binary64 numbers *)

(** A JavaScript number: an IEEE 754 binary64 value.  The Standard
    Library's [spec_float] gives the values and, at precision 53 and
    maximal exponent 1024, the operations with their rounding to nearest,
    ties to even. *)
Definition number : Type := spec_float.

Global Instance number_eq_dec : EqDecision number.
Proof. solve_decision. Defined.

Module Number.

Definition prec : Z := 53.
Definition emax : Z := 1024.

(** The number nearest to an integer. *)
Definition of_Z (z : Z) : number := binary_normalize prec emax z 0 false.

(** The number nearest to a rational.  An analysis carries a number by its
    exact value, and this gives the number back; applied to a decimal
    fraction it is the reading of a numeric literal.  The quotient
    algorithm of [SFdiv] takes mantissas of any size. *)
Definition of_Q (q : Q) : number :=
  match Qnum q with
  | Z0 => S754_zero false
  | Zpos n =>
      SFdiv prec emax (S754_finite false n 0) (S754_finite false (Qden q) 0)
  | Zneg n =>
      SFdiv prec emax (S754_finite true n 0) (S754_finite false (Qden q) 0)
  end.

(** The exact value of the finite number with sign [s], mantissa [m] and
    exponent [e]. *)
Definition finite_value (s : bool) (m : positive) (e : Z) : Q :=
  match e with
  | Zneg p => cond_Zopp s (Zpos m) # (2 ^ p)
  | _ => inject_Z (cond_Zopp s (Zpos m) * 2 ^ e)
  end.

(** The exact value of a number that has one. *)
Definition value (x : number) : option Q :=
  match x with
  | S754_zero _ => Some 0
  | S754_finite s m e => Some (finite_value s m e)
  | S754_infinity _ | S754_nan => None
  end.

(** [x - y], [x * y] and [x / y] *)
Definition sub : number -> number -> number := SFsub prec emax.
Definition mul : number -> number -> number := SFmul prec emax.
Definition div : number -> number -> number := SFdiv prec emax.

(** An integer as a number; when it is 0, the zero of sign [s]. *)
Definition integral (s : bool) (z : Z) : number :=
  if (z =? 0)%Z then S754_zero s else of_Z z.

(** *** [Number::toString], radix 10 *)

(** The [n] with [10^(n-1) <= X < 10^n], for [X > 0]. *)
Definition decimal_exponent (X : Q) : Z :=
  if Qle_bool 1 X
  then Z.of_nat (String.length (pretty (Qfloor X)))
  else
    let Y := Qred (/ X) in
    let L := Z.of_nat (String.length (pretty (Qfloor Y))) in
    if Qeq_bool Y (inject_Z (10 ^ (L - 1))) then (2 - L)%Z else (1 - L)%Z.

(** A decimal with [k] digits that reads back as [x], whose exact value is
    [X] with decimal exponent [D]: one of the two multiples of [10^(D-k)]
    around [X]; of two that read back as [x] the one closer to [X], and
    the one with the even last digit when they are as close. *)
Definition shortest_with (x : number) (X : Q) (D k : Z) : option Q :=
  let u := Qpower 10 (D - k) in
  let s := Qfloor (X / u) in
  let lo := Qred (inject_Z s * u) in
  let hi := Qred (inject_Z (s + 1) * u) in
  match bool_decide (of_Q lo = x), bool_decide (of_Q hi = x) with
  | true, true =>
      match (X - lo) ?= (hi - X) with
      | Lt => Some lo
      | Gt => Some hi
      | Eq => if Z.even s then Some lo else Some hi
      end
  | true, false => Some lo
  | false, true => Some hi
  | false, false => None
  end.

(** The decimal with the fewest digits that reads back as [x], and the
    number [k] of its digits; 17 digits always do. *)
Fixpoint shortest_from (fuel : nat) (x : number) (X : Q) (D k : Z)
  : Q * Z :=
  match fuel with
  | O => (X, k)
  | S fuel' =>
      match shortest_with x X D k with
      | Some v => (v, k)
      | None => shortest_from fuel' x X D (k + 1)
      end
  end.

Definition zeros (n : Z) : string :=
  fold_right String.append "" (replicate (Z.to_nat n) "0").

(** The decimal digits of [z] on [width] places. *)
Definition padded (width : Z) (z : Z) : string :=
  let d := pretty z in
  zeros (width - Z.of_nat (String.length d)) +:+ d.

(** The text of a decimal with the [k] digits [s] and the decimal exponent
    [n]. *)
Definition format (s k n : Z) : string :=
  if (k <=? n)%Z && (n <=? 21)%Z
  then pretty s +:+ zeros (n - k)
  else if (0 <? n)%Z && (n <=? 21)%Z
  then pretty (s / 10 ^ (k - n))%Z +:+ "." +:+
       padded (k - n) (s mod 10 ^ (k - n))%Z
  else if (-6 <? n)%Z && (n <=? 0)%Z
  then "0." +:+ zeros (- n) +:+ pretty s
  else
    let e := (n - 1)%Z in
    let exponent :=
      "e" +:+ (if (e <? 0)%Z then "-" else "+") +:+ pretty (Z.abs e) in
    if (k =? 1)%Z then pretty s +:+ exponent
    else pretty (s / 10 ^ (k - 1))%Z +:+ "." +:+
         padded (k - 1) (s mod 10 ^ (k - 1))%Z +:+ exponent.

(** The text of a finite number above 0. *)
Definition positive_toString (m : positive) (e : Z) : string :=
  let X := Qred (finite_value false m e) in
  let '(v, k) :=
    shortest_from 17 (S754_finite false m e) X (decimal_exponent X) 1 in
  let n := decimal_exponent v in
  format (Qfloor (v * Qpower 10 (k - n))) k n.

(** What a template literal prints for a number. *)
Definition toString (x : number) : string :=
  match x with
  | S754_nan => "NaN"
  | S754_zero _ => "0"
  | S754_infinity s => (if s then "-" else "") +:+ "Infinity"
  | S754_finite s m e => (if s then "-" else "") +:+ positive_toString m e
  end.

End Number.

(** ** JavaScript values *)

(** An element of an ffmpeg argument array: the code puts strings and
    numbers in it. *)
Inductive arg := AStr (s : string) | ANum (x : number).

(** One call of [runFfmpegCommandAsync(label, args)]. *)
Record Command := mkCommand { label : string; args : list arg }.

(** [analysis.videoSize]; a missing key is [None]. *)
Record VideoSize := mkVideoSize { w : option Z; h : option Z }.

(** The analysis record of a track.  A key that is missing is [None]; so
    is a [null] under the keys that the code only tests ([isVideo],
    [startTime], [endTime]); [gaps] is [None] when the value is not an
    array.  A number is held by its exact value. *)
Record Analysis := mkAnalysis {
  isVideo : option bool;
  startTime : option Q;
  endTime : option Q;
  videoSize : option VideoSize;
  frameRate : option Q;
  gaps : option (list Gap)
}.

(** What is thrown. *)
Inductive Error :=
| JsError (msg : string)        (* [throw new Error(msg)] *)
| TypeError (msg : string)      (* a property read on [undefined] *)
| FfmpegError (lbl : string)    (* a failed [runFfmpegCommandAsync] *)
| ENOENT (path : string)        (* [fs.rmSync] of a path that is not there *)
| ProcessExit (code : Z).       (* [process.exit(code)] *)

Inductive Result (A : Type) :=
| Ok (a : A)
| Throw (e : Error).
Arguments Ok {A} a.
Arguments Throw {A} e.

(** A line written to the console. *)
Inductive LogLine :=
| Warn (fmt : string) (params : list string)
| LogError (fmt : string) (params : list string)
| Log (fmt : string) (params : list string)
| LogSegments (fmt : string) (segments : list Segment).

(** The state the code acts on: the files on disk with their content, the
    directories made, the ffmpeg invocations so far (oldest first), the
    console, and the module variable [g_audioEncoderArgs]. *)
Record World := mkWorld {
  files : gmap string string;
  dirs : gset string;
  trace : list Command;
  console : list LogLine;
  g_audioEncoderArgs : option (list string)
}.

(** The outcome of [childProcess.spawnSync('ffmpeg', ['-hide_banner',
    '-encoders'])]: it throws, or returns an object with [status] and
    [stdout], either of which can be [null]. *)
Inductive SpawnResult :=
| SpawnThrows (message : string)
| SpawnReturns (status : option Z) (stdout : option string).

(** The collaborators the code calls and that are not part of it. *)
Record Host := mkHost {
  (** Modelled from the spec: [runFfmpegCommandAsync] of [ffexec.js] is an
      operation [execute(label, argv)] that ends in success or in failure;
      here it yields the outcome and the files it leaves on disk. *)
  ffmpeg : string -> list arg -> World -> bool * gmap string string;
  (** The encoder probe. *)
  spawnSync_encoders : World -> SpawnResult;
  (** Modelled from the spec: [analyzeTrack] of [analyze-track.js] produces
      the analysis record of an input, or fails. *)
  analyzeTrack : string -> string -> World -> Result Analysis;
  (** Node's [path] module and [String.prototype.toLowerCase]. *)
  Path_resolve : string -> string -> string;
  Path_basename : string -> string -> string;
  Path_extname : string -> string;
  Path_dirname : string -> string;
  toLowerCase : string -> string
}.

(** ** Computations: state and exceptions *)

Definition M (A : Type) : Type := World -> Result A * World.

Definition ret {A} (a : A) : M A := fun wd => (Ok a, wd).

Definition throw {A} (e : Error) : M A := fun wd => (Throw e, wd).

Definition bind {A B} (m : M A) (k : A -> M B) : M B :=
  fun wd =>
    match m wd with
    | (Ok a, wd') => k a wd'
    | (Throw e, wd') => (Throw e, wd')
    end.

Notation "'let*' x ':=' m 'in' k" := (bind m (fun x => k))
  (at level 10, x pattern, m at level 100, k at level 200).
Notation "m ';;' k" := (bind m (fun _ => k))
  (at level 100, k at level 200, right associativity).

(** [try { m } catch (err) { handler(err) }]; [process.exit] is not an
    exception and is not caught. *)
Definition try_catch {A} (m : M A) (handler : Error -> M A) : M A :=
  fun wd =>
    match m wd with
    | (Throw (ProcessExit c), wd') => (Throw (ProcessExit c), wd')
    | (Throw e, wd') => handler e wd'
    | r => r
    end.

(** [for (const x of xs) body(x)] *)
Fixpoint for_of {A} (xs : list A) (body : A -> M unit) : M unit :=
  match xs with
  | [] => ret tt
  | x :: rest => body x ;; for_of rest body
  end.

(** [err?.message || err] for the errors of the model. *)
Definition error_message (e : Error) : string :=
  match e with
  | JsError m | TypeError m => m
  | FfmpegError l => l
  | ENOENT p => p
  | ProcessExit _ => ""
  end.

(** *** Primitive effects *)

Definition console_write (l : LogLine) : M unit :=
  fun wd => (Ok tt, mkWorld (files wd) (dirs wd) (trace wd)
                            (console wd ++ [l]) (g_audioEncoderArgs wd)).

Definition set_g_audioEncoderArgs (v : list string) : M unit :=
  fun wd => (Ok tt, mkWorld (files wd) (dirs wd) (trace wd) (console wd)
                            (Some v)).

Definition get_g_audioEncoderArgs : M (option (list string)) :=
  fun wd => (Ok (g_audioEncoderArgs wd), wd).

(** Modelled from the spec: [runFfmpegCommandAsync] is defined in
    [ffexec.js], which is not among the sources.  The specification gives
    it as [execute(label, argv)] ending in success or failure, a failure
    aborting the run and being tagged with the label of its stage.  Here
    the invocation is recorded in the trace, the host decides its outcome
    and the files it leaves, and a failure is thrown with the label. *)
Definition runFfmpegCommandAsync (host : Host) (lbl : string)
    (argv : list arg) : M unit :=
  fun wd =>
    let wd1 := mkWorld (files wd) (dirs wd) (trace wd ++ [mkCommand lbl argv])
                       (console wd) (g_audioEncoderArgs wd) in
    let '(ok, fs') := ffmpeg host lbl argv wd1 in
    let wd2 := mkWorld fs' (dirs wd1) (trace wd1) (console wd1)
                       (g_audioEncoderArgs wd1) in
    if ok then (Ok tt, wd2) else (Throw (FfmpegError lbl), wd2).

(** [fs.writeFileSync(path, data)] *)
Definition writeFileSync (path data : string) : M unit :=
  fun wd => (Ok tt, mkWorld (<[path := data]> (files wd)) (dirs wd)
                            (trace wd) (console wd) (g_audioEncoderArgs wd)).

(** [fs.rmSync(path)], without [force]: a missing path is an error. *)
Definition rmSync (path : string) : M unit :=
  fun wd =>
    match files wd !! path with
    | Some _ => (Ok tt, mkWorld (delete path (files wd)) (dirs wd) (trace wd)
                                (console wd) (g_audioEncoderArgs wd))
    | None => (Throw (ENOENT path), wd)
    end.

(** [fs.existsSync(path)] *)
Definition existsSync (path : string) : M bool :=
  fun wd => (Ok (bool_decide (is_Some (files wd !! path))
                 || bool_decide (path ∈ dirs wd)), wd).

(** [fs.mkdirSync(path, { recursive: true })] *)
Definition mkdirSync (path : string) : M unit :=
  fun wd => (Ok tt, mkWorld (files wd) ({[path]} ∪ dirs wd) (trace wd)
                            (console wd) (g_audioEncoderArgs wd)).

(** [childProcess.spawnSync('ffmpeg', ['-hide_banner', '-encoders'], ...)] *)
Definition spawnSync (host : Host) : M SpawnResult :=
  fun wd => (Ok (spawnSync_encoders host wd), wd).

(** Modelled from the spec: [analyzeTrack] is defined in
    [analyze-track.js], which is not among the sources; it yields the
    analysis record of an input, or throws. *)
Definition await_analyzeTrack (host : Host) (lbl path : string) : M Analysis :=
  fun wd => (analyzeTrack host lbl path wd, wd).

(** *** Truthiness and strings *)

(** A boolean-valued key: truthy exactly when present and [true]. *)
Definition truthy_bool (v : option bool) : bool :=
  match v with Some true => true | _ => false end.

(** A number-valued key: falsy when missing or zero. *)
Definition truthy_num (v : option Q) : bool :=
  match v with Some x => negb (Qeq_bool x 0) | None => false end.

Definition truthy_int (v : option Z) : bool :=
  match v with Some x => negb (x =? 0)%Z | None => false end.

(** A string-valued variable: falsy when unset or empty. *)
Definition truthy_str (v : option string) : bool :=
  match v with Some s => negb (String.eqb s "") | None => false end.

(** [v == null] *)
Definition is_null {A} (v : option A) : bool :=
  match v with Some _ => false | None => true end.

(** [hay.includes(needle)] *)
Fixpoint includes (needle hay : string) : bool :=
  String.prefix needle hay ||
  match hay with
  | EmptyString => false
  | String _ rest => includes needle rest
  end.

(** The double quote and the line feed. *)
Definition dquote : string := String "034"%char EmptyString.
Definition newline : string := String "010"%char EmptyString.

(** [Math.round(x)] on the exact value: the nearest integer, halves
    upwards. *)
Definition Math_round (x : Q) : Z := Qfloor (x + (1 # 2)).

(** [Math.floor(x)] on the exact value. *)
Definition Math_floor (x : Q) : Z := Qfloor x.

(** [Math.round] on numbers: a number that is not finite, or a zero, is
    returned as it is; the result is an integral number, and a zero result
    has the sign of the argument. *)
Definition Math_round64 (x : number) : number :=
  match x with
  | S754_finite s m e =>
      Number.integral s (Math_round (Number.finite_value s m e))
  | _ => x
  end.

(** [Math.floor] on numbers. *)
Definition Math_floor64 (x : number) : number :=
  match x with
  | S754_finite s m e =>
      Number.integral s (Math_floor (Number.finite_value s m e))
  | _ => x
  end.

(** ** [getAudioEncoderArgs] *)

Definition preferred_encoder_args : list string :=
  ["-c:a"; "libfdk_aac"; "-b:a"; "256k"; "-profile:a"; "aac_low";
   "-vbr"; "0"; "-ar"; "48000"].

Definition fallback_encoder_args : list string :=
  ["-c:a"; "aac"; "-b:a"; "256k"; "-ar"; "48000"].

(** The body of the [try] block: [probe.status === 0 &&
    probe.stdout.includes('libfdk_aac')]. *)
Definition probe_libfdk (host : Host) : M bool :=
  let* probe := spawnSync host in
  match probe with
  | SpawnThrows message => throw (JsError message)
  | SpawnReturns status stdout =>
      if bool_decide (status = Some 0%Z)
      then match stdout with
           | Some out => ret (includes "libfdk_aac" out)
           | None =>
               throw (TypeError
                 "Cannot read properties of null (reading 'includes')")
           end
      else ret false
  end.

Definition getAudioEncoderArgs (host : Host) : M (list string) :=
  let* cached := get_g_audioEncoderArgs in
  match cached with
  | Some cfg => ret cfg
  | None =>
      let* hasLibfdk :=
        try_catch (probe_libfdk host)
          (fun err =>
             console_write (Warn "Unable to query ffmpeg encoders: %s"
                                 [error_message err]) ;;
             ret false) in
      if hasLibfdk
      then set_g_audioEncoderArgs preferred_encoder_args ;;
           ret preferred_encoder_args
      else console_write
             (Warn ("libfdk_aac not available in ffmpeg build; " +:+
                    "falling back to builtin aac encoder.") []) ;;
           set_g_audioEncoderArgs fallback_encoder_args ;;
           ret fallback_encoder_args
  end.

(** ** [normalizeAudioTrack] *)

(** [analysis.startTime * 1000].  The callers have checked that
    [startTime] is there; an [undefined] would make the product NaN. *)
Definition delay_ms (startTime : option Q) : number :=
  match startTime with
  | Some st => Number.mul (Number.of_Q st) (Number.of_Z 1000)
  | None => S754_nan
  end.

(** [`${Math.floor(analysis.startTime * 1000)}`] *)
Definition delay_ms_text (startTime : option Q) : string :=
  Number.toString (Math_floor64 (delay_ms startTime)).

(** For the start times [k / 1000] with [k = from, ..., from + n - 1]:
    whether every delay is [k] or [k - 1] milliseconds, and how many are
    [k - 1]. *)
Fixpoint delays_on_grid (n : nat) (from : Z) : bool * N :=
  match n with
  | O => (true, 0%N)
  | S n' =>
      let x := Math_floor64 (delay_ms (Some (from # 1000))) in
      let '(all, short) := delays_on_grid n' (from + 1) in
      if bool_decide (x = Number.integral false from) then (all, short)
      else (all && bool_decide (x = Number.integral false (from - 1)),
            (short + 1)%N)
  end.

(** [`aresample=async=1,adelay=${...}:all=true`] *)
Definition audio_filter (analysis : Analysis) : string :=
  "aresample=async=1,adelay=" +:+ delay_ms_text (startTime analysis) +:+
  ":all=true".

Definition normalizeAudioTrackToAAC (host : Host) (ctxName : string)
    (analysis : Analysis) (inputPath outputPath : string) : M unit :=
  let* enc := getAudioEncoderArgs host in
  let argv :=
    [AStr "-i"; AStr inputPath; AStr "-af"; AStr (audio_filter analysis)]
      ++ map AStr enc ++ [AStr outputPath] in
  runFfmpegCommandAsync host ("audio_" +:+ ctxName) argv.

Definition normalizeAudioTrackToWav (host : Host) (ctxName : string)
    (analysis : Analysis) (inputPath outputPath : string) : M unit :=
  let argv :=
    [AStr "-i"; AStr inputPath; AStr "-af"; AStr (audio_filter analysis);
     AStr "-ar"; AStr "48000"; AStr "-ac"; AStr "1";
     AStr "-c:a"; AStr "pcm_s16le"; AStr outputPath] in
  runFfmpegCommandAsync host ("audio_" +:+ ctxName +:+ "_wav") argv.

Definition msg_audio_expects_audio : string :=
  "normalizeAudioTrack expects audio input".
Definition msg_audio_expects_startTime : string :=
  "normalizeAudioTrack expects startTime key".
Definition msg_unsupported_codec (codec : string) : string :=
  "Unsupported audio codec " +:+ dquote +:+ codec +:+ dquote.

(** [codec] is [None] when the argument is left out; it then defaults to
    ['aac']. *)
Definition normalizeAudioTrack (host : Host) (ctxName : string)
    (analysis : option Analysis) (inputPath outputPath : string)
    (codec : option string) : M unit :=
  let codec := default "aac" codec in
  if truthy_bool (analysis ≫= isVideo)
  then throw (JsError msg_audio_expects_audio)
  else
    match analysis with
    | None =>
        throw (TypeError
          "Cannot read properties of undefined (reading 'startTime')")
    | Some analysis =>
        if is_null (startTime analysis)
        then throw (JsError msg_audio_expects_startTime)
        else if String.eqb codec "wav"
        then normalizeAudioTrackToWav host ctxName analysis inputPath
                                      outputPath
        else if negb (String.eqb codec "aac")
        then throw (JsError (msg_unsupported_codec codec))
        else normalizeAudioTrackToAAC host ctxName analysis inputPath
                                      outputPath
    end.

(** ** [normalizeVideoTrackToM4V] *)

Definition g_tempFilePrefix : string := "rawtracks_".
Definition tmpDir : string := "/tmp".
Definition bitRate : string := "5000k".

Definition msg_video_expects_video : string :=
  "normalizeVideoTrack expects video input".
Definition msg_video_expects_times : string :=
  "normalizeVideoTrack expects non-zero endTime and startTime key".
Definition msg_video_expects_gaps : string :=
  "normalizeVideoTrack expects analysis.gaps to be set".
Definition msg_video_expects_videoSize : string :=
  "normalizeVideoTrack expects analysis.videoSize to be set".

(** [const duration = Math.round((end - start) * 1000) / 1000] *)
Definition duration (s : Segment) : number :=
  Number.div
    (Math_round64
       (Number.mul
          (Number.sub (Number.of_Q (seg_end s)) (Number.of_Q (seg_start s)))
          (Number.of_Z 1000)))
    (Number.of_Z 1000).

(** The rounding rule of [duration] over the rationals:
    [round((end - start) * 1000) / 1000] in exact arithmetic. *)
Definition rendered_duration (s : Segment) : Q :=
  inject_Z (Math_round ((seg_end s - seg_start s) * 1000)) / 1000.

Definition baseArgs (frameRate : Q) : list arg :=
  [AStr "-r"; ANum (Number.of_Q frameRate); AStr "-b:v"; AStr bitRate;
   AStr "-c:v"; AStr "libx264"].

Definition tmpSource_path (host : Host) (ctxName : string) : string :=
  Path_resolve host tmpDir (g_tempFilePrefix +:+ ctxName +:+ "_full.m4v").

Definition seg_file_name (ctxName : string) (i : nat) : string :=
  g_tempFilePrefix +:+ ctxName +:+ "_seg" +:+ pretty i +:+ ".m4v".

Definition concat_path (host : Host) (ctxName : string) : string :=
  Path_resolve host tmpDir (g_tempFilePrefix +:+ ctxName +:+ "_concat.txt").

Definition convert_command (host : Host) (ctxName inputPath : string)
    (vw vh : Z) (frameRate : Q) : Command :=
  mkCommand ("convert_" +:+ ctxName)
    ([AStr "-i"; AStr inputPath; AStr "-vf";
      AStr ("scale=" +:+ pretty vw +:+ "x" +:+ pretty vh +:+
            ":out_color_matrix=bt709:out_range=tv")]
       ++ baseArgs frameRate ++ [AStr (tmpSource_path host ctxName)]).

(** The command that renders segment [i]: a black filler for a gap, a
    stream copy out of the intermediate for a source segment. *)
Definition segment_command (host : Host) (ctxName : string) (vw vh : Z)
    (frameRate sourceOffset : Q) (i : nat) (s : Segment) : Command :=
  let duration := duration s in
  let dst := Path_resolve host tmpDir (seg_file_name ctxName i) in
  match type s with
  | gap =>
      mkCommand ("rendergap_" +:+ pretty i +:+ "_" +:+ ctxName)
        ([AStr "-f"; AStr "lavfi"; AStr "-i";
          AStr ("color=c=black:s=" +:+ pretty vw +:+ "x" +:+ pretty vh +:+
                ",format=yuv420p,scale=out_color_matrix=bt709:out_range=tv");
          AStr "-t"; ANum duration]
           ++ baseArgs frameRate ++ [AStr dst])
  | src =>
      mkCommand ("extractseg_" +:+ pretty i +:+ "_" +:+ ctxName)
        [AStr "-ss";
         ANum (Number.sub (Number.of_Q (seg_start s))
                          (Number.of_Q sourceOffset));
         AStr "-t"; ANum duration;
         AStr "-i"; AStr (tmpSource_path host ctxName);
         AStr "-c"; AStr "copy"; AStr dst]
  end.

Definition concat_command (host : Host) (ctxName outputPath : string)
  : Command :=
  mkCommand ("concat_" +:+ ctxName)
    [AStr "-f"; AStr "concat"; AStr "-i"; AStr (concat_path host ctxName);
     AStr "-c"; AStr "copy"; AStr outputPath].

Definition run_command (host : Host) (c : Command) : M unit :=
  runFfmpegCommandAsync host (label c) (args c).

(** The loop [for (let i = 0; i < segments.length; i++)], from index [i]
    on, on the loop state [(ffmpegConcatFile, tmpFiles)]. *)
Fixpoint render_loop (host : Host) (ctxName : string) (vw vh : Z)
    (frameRate sourceOffset : Q) (segments : list Segment) (i : nat)
    (st : string * list string) : M (string * list string) :=
  match segments with
  | [] => ret st
  | s :: rest =>
      let '(ffmpegConcatFile, tmpFiles) := st in
      let tmpFileName := seg_file_name ctxName i in
      let ffmpegConcatFile :=
        ffmpegConcatFile +:+ "file '" +:+ tmpFileName +:+ "'" +:+ newline in
      let dst := Path_resolve host tmpDir tmpFileName in
      let tmpFiles := tmpFiles ++ [dst] in
      run_command host
        (segment_command host ctxName vw vh frameRate sourceOffset i s) ;;
      render_loop host ctxName vw vh frameRate sourceOffset rest (S i)
                  (ffmpegConcatFile, tmpFiles)
  end.

(** Lines 142-250: the work after the checks. *)
Definition render_video (host : Host) (ctxName : string) (vw vh : Z)
    (frameRate sourceOffset endTime : Q) (gaps : list Gap)
    (inputPath outputPath : string) : M unit :=
  let segments := planSegments gaps endTime in
  console_write (LogSegments "video segments to be written: " segments) ;;
  let tmpSource := tmpSource_path host ctxName in
  let tmpFiles := [tmpSource] in
  run_command host (convert_command host ctxName inputPath vw vh frameRate) ;;
  let* (ffmpegConcatFile, tmpFiles) :=
    render_loop host ctxName vw vh frameRate sourceOffset segments 0%nat
                ("", tmpFiles) in
  let concatTempPath := concat_path host ctxName in
  writeFileSync concatTempPath ffmpegConcatFile ;;
  let tmpFiles := tmpFiles ++ [concatTempPath] in
  run_command host (concat_command host ctxName outputPath) ;;
  for_of tmpFiles rmSync.

Definition normalizeVideoTrackToM4V (host : Host) (ctxName : string)
    (analysis : option Analysis) (inputPath outputPath : string) : M unit :=
  if negb (truthy_bool (analysis ≫= isVideo))
  then throw (JsError msg_video_expects_video)
  else
    match analysis with
    | None =>
        (* not reached: [isVideo] was read and is true *)
        throw (TypeError
          "Cannot read properties of undefined (reading 'endTime')")
    | Some analysis =>
        if negb (truthy_num (endTime analysis))
           || is_null (startTime analysis)
        then throw (JsError msg_video_expects_times)
        else if is_null (gaps analysis)
        then throw (JsError msg_video_expects_gaps)
        else
          match videoSize analysis with
          | None =>
              throw (TypeError
                "Cannot read properties of undefined (reading 'w')")
          | Some size =>
              if negb (truthy_int (w size)) || negb (truthy_int (h size))
              then throw (JsError msg_video_expects_videoSize)
              else
                match w size, h size, startTime analysis,
                      endTime analysis, gaps analysis with
                | Some vw, Some vh, Some sourceOffset, Some endTime,
                  Some gaps =>
                    render_video host ctxName vw vh
                      (default 30 (frameRate analysis))
                      sourceOffset endTime gaps inputPath outputPath
                | _, _, _, _, _ =>
                    (* not reached: the checks above have passed *)
                    throw (TypeError "undefined")
                end
          end
    end.

(** ** The script [normalize-track.js] *)

(** [args.values] as [parseArgs] returns it. *)
Record CliValues := mkCliValues {
  input : option (list string);
  output_dir : option string;
  audio_codec : option string
}.

(** The variables [videoPath], [audioPath] and [combinedOutputPath]. *)
Record Paths := mkPaths {
  videoPath : option string;
  audioPath : option string;
  combinedOutputPath : option string
}.

(** [v || d] on strings. *)
Definition or_else (v : option string) (d : string) : string :=
  if truthy_str v then default "" v else d.

Definition process_exit {A} (code : Z) : M A := throw (ProcessExit code).

(** The body of [for (const inputPath of args.values.input)]. *)
Definition process_input (host : Host) (outputDir audioCodec : string)
    (st : Paths) (inputPath : string) : M Paths :=
  let* there := existsSync inputPath in
  if negb there
  then console_write (LogError "input path doesn't exist: " [inputPath]) ;;
       process_exit 1
  else
    let basename :=
      Path_basename host inputPath (Path_extname host inputPath) in
    let* analysis :=
      await_analyzeTrack host ("analyze_" +:+ basename) inputPath in
    if truthy_bool (isVideo analysis)
    then
      let videoOutputPath :=
        Path_resolve host outputDir (basename +:+ "_normalized.m4v") in
      normalizeVideoTrackToM4V host basename (Some analysis) inputPath
                               videoOutputPath ;;
      ret (mkPaths (Some videoOutputPath) (audioPath st)
             (Some (Path_resolve host outputDir
                      (basename +:+ "_combined.mp4"))))
    else
      let audioExt := if String.eqb audioCodec "wav" then ".wav" else ".aac" in
      let audioOutputPath :=
        Path_resolve host outputDir (basename +:+ "_normalized" +:+ audioExt) in
      normalizeAudioTrack host basename (Some analysis) inputPath
                          audioOutputPath (Some audioCodec) ;;
      ret (if String.eqb audioCodec "aac"
           then mkPaths (videoPath st) (Some audioOutputPath)
                        (combinedOutputPath st)
           else st).

Fixpoint process_inputs (host : Host) (outputDir audioCodec : string)
    (inputs : list string) (st : Paths) : M Paths :=
  match inputs with
  | [] => ret st
  | inputPath :: rest =>
      let* st' := process_input host outputDir audioCodec st inputPath in
      process_inputs host outputDir audioCodec rest st'
  end.

Definition combine_command (host : Host) (v a c : string) : Command :=
  let basename := Path_basename host c (Path_extname host c) in
  mkCommand ("combine_" +:+ basename)
    [AStr "-i"; AStr v; AStr "-i"; AStr a; AStr "-c"; AStr "copy";
     AStr "-map"; AStr "0:0"; AStr "-map"; AStr "1:0"; AStr c].

(** Lines 94-119: the combined mux block. *)
Definition combine (host : Host) (audioCodec : string) (st : Paths)
  : M unit :=
  if String.eqb audioCodec "aac" && truthy_str (videoPath st)
     && truthy_str (audioPath st) && truthy_str (combinedOutputPath st)
  then
    match videoPath st, audioPath st, combinedOutputPath st with
    | Some v, Some a, Some c =>
        run_command host (combine_command host v a c) ;;
        rmSync v ;;
        rmSync a ;;
        console_write (Log "combined video and audio written to: %s" [c])
    | _, _, _ => ret tt (* not reached: the three are truthy *)
    end
  else ret tt.

Definition normalize_track (host : Host) (values : CliValues) : M unit :=
  match input values with
  | None =>
      throw (TypeError
        "Cannot read properties of undefined (reading 'length')")
  | Some [] =>
      console_write
        (LogError ("input is required using -i (can provide multiple " +:+
                   "files in order to combine audio and video)") []) ;;
      process_exit 1
  | Some ((first :: _) as inputs) =>
      let outputDir := or_else (output_dir values) (Path_dirname host first) in
      (if truthy_str (output_dir values) then mkdirSync outputDir
       else ret tt) ;;
      let audioCodec := toLowerCase host (or_else (audio_codec values) "aac") in
      if negb (String.eqb audioCodec "aac" || String.eqb audioCodec "wav")
      then console_write
             (LogError ("audio-codec must be either " +:+ dquote +:+ "aac"
                        +:+ dquote +:+ " or " +:+ dquote +:+ "wav" +:+ dquote)
                       []) ;;
           process_exit 1
      else
        let* st :=
          process_inputs host outputDir audioCodec inputs
                         (mkPaths None None None) in
        combine host audioCodec st
  end.

(** ** Auxiliary notions for the proofs *)

(** The gap invariant by recursion, relative to a cursor [t]: the next gap
    starts at or after [t], is not empty, ends at or before [endTime], and
    the rest is well placed after its end. *)
Fixpoint gaps_from (t endTime : Q) (gaps : list Gap) : Prop :=
  match gaps with
  | [] => t <= endTime
  | g :: rest =>
      t <= start g /\ start g < end_ g /\ end_ g <= endTime /\
      gaps_from (end_ g) endTime rest
  end.

(** A list of non-empty segments, each starting where the one before ends,
    from [t] to [endTime]. *)
Fixpoint chain (t : Q) (segs : list Segment) (endTime : Q) : Prop :=
  match segs with
  | [] => t == endTime
  | s :: rest =>
      seg_start s == t /\ seg_start s < seg_end s /\
      chain (seg_end s) rest endTime
  end.

(** The sum of the durations that the rounding rule gives, over the
    rationals. *)
Definition rendered_total (segs : list Segment) : Q :=
  foldr (fun s acc => rendered_duration s + acc) 0 segs.

(** Half a millisecond, in seconds. *)
Definition half_ms : Q := 1 # 2000.

(** The commands of the segment loop, from index [i] on. *)
Fixpoint segment_commands (host : Host) (ctxName : string) (vw vh : Z)
    (frameRate sourceOffset : Q) (i : nat) (segments : list Segment)
  : list Command :=
  match segments with
  | [] => []
  | s :: rest =>
      segment_command host ctxName vw vh frameRate sourceOffset i s
        :: segment_commands host ctxName vw vh frameRate sourceOffset (S i)
                            rest
  end.

(** Every command of one run, in the order the code issues them. *)
Definition planned_commands (host : Host) (ctxName : string) (vw vh : Z)
    (frameRate sourceOffset : Q) (segments : list Segment)
    (inputPath outputPath : string) : list Command :=
  convert_command host ctxName inputPath vw vh frameRate
    :: segment_commands host ctxName vw vh frameRate sourceOffset 0 segments
    ++ [concat_command host ctxName outputPath].

(** The paths of the segment files, from index [i] on, for [n] segments. *)
Fixpoint seg_paths (host : Host) (ctxName : string) (i n : nat)
  : list string :=
  match n with
  | O => []
  | S n' => Path_resolve host tmpDir (seg_file_name ctxName i)
              :: seg_paths host ctxName (S i) n'
  end.

(** What [tmpFiles] holds at the end of a run with [n] segments: the
    intermediate clip, the segment files, the concat manifest. *)
Definition temp_artifacts (host : Host) (ctxName : string) (n : nat)
  : list string :=
  tmpSource_path host ctxName :: seg_paths host ctxName 0 n
    ++ [concat_path host ctxName].

(** The value that follows the option [flag] in an argument array. *)
Fixpoint arg_after (flag : string) (argv : list arg) : option arg :=
  match argv with
  | [] => None
  | a :: rest =>
      match a, rest with
      | AStr f, v :: _ => if String.eqb f flag then Some v
                          else arg_after flag rest
      | _, _ => arg_after flag rest
      end
  end.

(** The stages of a filter chain: the pieces between the commas. *)
Fixpoint split_on (sep : ascii) (s : string) : list string :=
  match s with
  | EmptyString => [EmptyString]
  | String c rest =>
      if Ascii.eqb c sep then EmptyString :: split_on sep rest
      else match split_on sep rest with
           | [] => [String c EmptyString]
           | piece :: pieces => String c piece :: pieces
           end
  end.

Definition filter_stages (chain : string) : list string :=
  split_on ","%char chain.

(** An analysis that passes every check of [normalizeVideoTrackToM4V]. *)
Record video_ready (a : Analysis) (vw vh : Z) (sourceOffset E : Q)
    (gs : list Gap) : Prop := {
  ready_isVideo : isVideo a = Some true;
  ready_startTime : startTime a = Some sourceOffset;
  ready_endTime : endTime a = Some E;
  ready_endTime_nonzero : ~ E == 0;
  ready_gaps : gaps a = Some gs;
  ready_videoSize : videoSize a = Some (mkVideoSize (Some vw) (Some vh));
  ready_w : vw <> 0%Z;
  ready_h : vh <> 0%Z
}.

(** The probe did not find [libfdk_aac]: it could not be run, ended with
    a status other than 0, or ran and does not list the encoder. *)
Inductive no_libfdk : SpawnResult -> Prop :=
| probe_throws message : no_libfdk (SpawnThrows message)
| probe_failed status stdout :
    status <> Some 0%Z -> no_libfdk (SpawnReturns status stdout)
| probe_no_output : no_libfdk (SpawnReturns (Some 0%Z) None)
| probe_absent out :
    includes "libfdk_aac" out = false ->
    no_libfdk (SpawnReturns (Some 0%Z) (Some out)).

(** ** A host and inputs for the examples *)

Definition join_path (dir name : string) : string := dir +:+ "/" +:+ name.

(** The output file of an ffmpeg command line: its last argument. *)
Definition output_path (argv : list arg) : option string :=
  match last argv with
  | Some (AStr p) => Some p
  | _ => None
  end.

(** An ffmpeg that succeeds on the labels that [ok] accepts and then
    writes its output file, and that fails on the others and writes
    nothing. *)
Definition ffmpeg_writes (ok : string -> bool) (lbl : string)
    (argv : list arg) (wd : World) : bool * gmap string string :=
  if ok lbl
  then (true, match output_path argv with
              | Some p => <[p := "media"]> (files wd)
              | None => files wd
              end)
  else (false, files wd).

Definition example_host (ok : string -> bool) (probe : SpawnResult) : Host :=
  mkHost (ffmpeg_writes ok) (fun _ => probe)
         (fun _ _ _ => Throw (JsError "no analysis"))
         join_path (fun p _ => p) (fun _ => "") (fun _ => ".") (fun s => s).

(** Every command succeeds; the probe finds no [libfdk_aac]. *)
Definition good_host : Host :=
  example_host (fun _ => true) (SpawnReturns (Some 0%Z) (Some "aac")).

(** The extraction of segment 0 of the track [cam] fails. *)
Definition failing_host : Host :=
  example_host (fun lbl => negb (String.eqb lbl "extractseg_0_cam"))
               (SpawnReturns (Some 0%Z) (Some "aac")).

(** The video scenario of the specification. *)
Definition example_video : Analysis :=
  mkAnalysis (Some true) (Some (1 # 5)) (Some 5)
             (Some (mkVideoSize (Some 1280%Z) (Some 720%Z)))
             (Some 30) (Some [mkGap 2 (5 # 2)]).

(** A video analysis that starts at 0 and has one gap, [2, 2.5). *)
Definition zero_video : Analysis :=
  mkAnalysis (Some true) (Some 0) (Some 5)
             (Some (mkVideoSize (Some 1280%Z) (Some 720%Z))) None
             (Some [mkGap 2 (5 # 2)]).

(** The audio scenario of the specification: [startTime = 1.234]. *)
Definition example_audio : Analysis :=
  mkAnalysis None (Some (1234 # 1000)) None None None None.

(** A disk that holds the raw inputs and nothing else. *)
Definition example_world : World :=
  mkWorld {[ "cam.webm" := "raw"; "mic.webm" := "raw" ]} ∅ [] [] None.

(** None of the temporary artifacts of a run with [n] segments is on
    disk. *)
Definition artifacts_released (host : Host) (ctxName : string) (n : nat)
    (wd : World) : Prop :=
  forall p, p ∈ temp_artifacts host ctxName n -> files wd !! p = None.

(** The errors of the checks: an [Error] with a message, thrown by the
    code itself. *)
Definition is_validation_error (e : Error) : Prop :=
  exists msg, e = JsError msg.

(** The character [sep] does not occur in a string. *)
Fixpoint free_of (sep : ascii) (s : string) : Prop :=
  match s with
  | EmptyString => True
  | String c rest => c <> sep /\ free_of sep rest
  end.

(** The same as a boolean. *)
Fixpoint free_ofb (sep : ascii) (s : string) : bool :=
  match s with
  | EmptyString => true
  | String c rest => negb (Ascii.eqb c sep) && free_ofb sep rest
  end.

(** The first four arguments of both audio commands. *)
Definition audio_command_head (inputPath : string) (filter : string)
  : list arg :=
  [AStr "-i"; AStr inputPath; AStr "-af"; AStr filter].

(** The worlds a process can be in after [wd]: it has called the exported
    functions and the encoder resolver any number of times. *)
Inductive reachable (host : Host) (wd : World) : World -> Prop :=
| reach_here : reachable host wd wd
| reach_encoder wd1 :
    reachable host wd wd1 ->
    reachable host wd (snd (getAudioEncoderArgs host wd1))
| reach_audio wd1 ctxName analysis inputPath outputPath codec :
    reachable host wd wd1 ->
    reachable host wd
      (snd (normalizeAudioTrack host ctxName analysis inputPath outputPath
                                codec wd1))
| reach_video wd1 ctxName analysis inputPath outputPath :
    reachable host wd wd1 ->
    reachable host wd
      (snd (normalizeVideoTrackToM4V host ctxName analysis inputPath
                                     outputPath wd1)).

(** The world in which a command has just been recorded, as the host sees
    it when it is asked for the outcome. *)
Definition recorded (c : Command) (wd : World) : World :=
  mkWorld (files wd) (dirs wd) (trace wd ++ [c]) (console wd)
          (g_audioEncoderArgs wd).

(** A host for the script: [cam.webm] is analysed as the video of the
    scenario, every other input as its audio. *)
Definition script_host : Host :=
  mkHost (ffmpeg_writes (fun _ => true))
         (fun _ => SpawnReturns (Some 0%Z) (Some "aac"))
         (fun _ path _ => if String.eqb path "cam.webm"
                          then Ok example_video else Ok example_audio)
         join_path (fun p _ => p) (fun _ => "") (fun _ => ".") (fun s => s).

(** ** Further notions: segment durations, names and the manifest *)

(** The length of a segment is a whole number of milliseconds. *)
Definition whole_ms (s : Segment) : Prop :=
  exists n : Z, (seg_end s - seg_start s) * 1000 == inject_Z n.

(** The text of the concat manifest for the segments [i], ..., [i + n - 1]:
    one line [file '<name>'] per segment file. *)
Fixpoint manifest_lines (ctxName : string) (i n : nat) : string :=
  match n with
  | O => ""
  | S n' => "file '" +:+ seg_file_name ctxName i +:+ "'" +:+ newline
              +:+ manifest_lines ctxName (S i) n'
  end.

(** The names of the segment files [i], ..., [i + n - 1]. *)
Fixpoint seg_names (ctxName : string) (i n : nat) : list string :=
  match n with
  | O => []
  | S n' => seg_file_name ctxName i :: seg_names ctxName (S i) n'
  end.

(** The names, inside [tmpDir], of the temporary files of a run with [n]
    segments. *)
Definition temp_names (ctxName : string) (n : nat) : list string :=
  (g_tempFilePrefix +:+ ctxName +:+ "_full.m4v")
    :: seg_names ctxName 0 n
    ++ [g_tempFilePrefix +:+ ctxName +:+ "_concat.txt"].

(** An ffmpeg that, given a command line whose last argument names a
    file, succeeds, writes that file and touches nothing else. *)
Definition ffmpeg_well_behaved (host : Host) : Prop :=
  forall lbl argv wd p,
    output_path argv = Some p ->
    exists data,
      ffmpeg host lbl argv wd = (true, <[p := data]> (files wd)).

(** [Path.resolve(tmpDir, name)] tells the names of a list apart.  It does
    not tell all names apart: it normalises the path it returns. *)
Definition resolve_distinct (host : Host) (names : list string) : Prop :=
  forall x y,
    x ∈ names -> y ∈ names ->
    Path_resolve host tmpDir x = Path_resolve host tmpDir y -> x = y.

(** What [Path.resolve] of Node does on POSIX with [tmpDir] and a name
    that is a single path segment (no separator in it, and not empty, [.]
    or [..]): it joins them. *)
Definition resolve_joins_plain (host : Host) : Prop :=
  forall name,
    free_of "/" name -> name <> "" -> name <> "." -> name <> ".." ->
    Path_resolve host tmpDir name = tmpDir +:+ "/" +:+ name.

(** The segments that normalisation keeps, the last one first: empty
    segments and [.] are dropped, [..] drops the segment before it. *)
Fixpoint normalize_segments (segs stack : list string) : list string :=
  match segs with
  | [] => stack
  | seg :: rest =>
      if String.eqb seg "" || String.eqb seg "."
      then normalize_segments rest stack
      else if String.eqb seg ".."
      then normalize_segments rest (tail stack)
      else normalize_segments rest (seg :: stack)
  end.

Definition join_segments (stack : list string) : string :=
  match stack with
  | [] => "/"
  | _ => fold_left (fun acc seg => acc +:+ "/" +:+ seg) (rev stack) ""
  end.

(** A [Path.resolve] of two arguments that normalises as Node's does on
    POSIX, in a process whose working directory is [cwd]. *)
Definition posix_resolve (cwd dir name : string) : string :=
  let path :=
    if String.prefix "/" name then name
    else if String.prefix "/" dir then dir +:+ "/" +:+ name
    else cwd +:+ "/" +:+ dir +:+ "/" +:+ name in
  join_segments (normalize_segments (split_on "/" path) []).

(** A host whose commands succeed and whose [Path.resolve] normalises. *)
Definition posix_host : Host :=
  mkHost (ffmpeg_writes (fun _ => true))
         (fun _ => SpawnReturns (Some 0%Z) (Some "aac"))
         (fun _ _ _ => Throw (JsError "no analysis"))
         (posix_resolve "/work") (fun p _ => p) (fun _ => "")
         (fun _ => ".") (fun s => s).


(** A host whose ffmpeg build lists [libfdk_aac]. *)
Definition libfdk_host : Host :=
  example_host (fun _ => true)
    (SpawnReturns (Some 0%Z)
                  (Some (" A....D " +:+ "libfdk_aac" +:+ " Fraunhofer AAC"))).

(** ** Further notions: the script *)

(** [basename] as the script computes it for an input. *)
Definition input_basename (host : Host) (inputPath : string) : string :=
  Path_basename host inputPath (Path_extname host inputPath).

(** The three path variables of the script are consistent with the inputs:
    [videoPath] and [combinedOutputPath] are set together and named after
    one and the same input, and [audioPath] is only ever an [.aac] file
    named after an input, under the codec ['aac']. *)
Definition paths_named_after (host : Host) (outputDir audioCodec : string)
    (inputs : list string) (st : Paths) : Prop :=
  match videoPath st, combinedOutputPath st with
  | None, None => True
  | Some v, Some c =>
      exists inputPath,
        inputPath ∈ inputs /\
        v = Path_resolve host outputDir
              (input_basename host inputPath +:+ "_normalized.m4v") /\
        c = Path_resolve host outputDir
              (input_basename host inputPath +:+ "_combined.mp4")
  | _, _ => False
  end /\
  forall a,
    audioPath st = Some a ->
    audioCodec = "aac" /\
    exists inputPath,
      inputPath ∈ inputs /\
      a = Path_resolve host outputDir
            (input_basename host inputPath +:+ "_normalized.aac").

(** The line the script writes for an input that is not there. *)
Definition missing_input_line (inputPath : string) : LogLine :=
  LogError "input path doesn't exist: " [inputPath].

(** ** The batch script [merge-recordings]: grouping and batching *)

(** [\d]: an ASCII digit. *)
Definition is_digit (c : ascii) : bool :=
  (48 <=? nat_of_ascii c)%nat && (nat_of_ascii c <=? 57)%nat.

(** The longest run of digits a string starts with, and what follows. *)
Fixpoint span_digits (s : string) : string * string :=
  match s with
  | EmptyString => (EmptyString, EmptyString)
  | String c rest =>
      if is_digit c
      then let '(d, r) := span_digits rest in (String c d, r)
      else (EmptyString, s)
  end.

(** [filename.match(/^(\d+)-/)]: the capture group when the name starts
    with one or more digits followed by a hyphen, nothing otherwise. *)
Definition match_timestamp (filename : string) : option string :=
  match span_digits filename with
  | (String c d, String "-"%char _) => Some (String c d)
  | _ => None
  end.

(** [if (!groups[timestamp]) groups[timestamp] = [];
    groups[timestamp].push(file)] *)
Definition push_to_group (timestamp file : string)
    (groups : gmap string (list string)) : gmap string (list string) :=
  <[timestamp := default [] (groups !! timestamp) ++ [file]]> groups.

(** The loop of [groupFilesByTimestamp] on the object [groups];
    [basename] is [path.basename]. *)
Fixpoint group_loop (basename : string -> string) (audioFiles : list string)
    (groups : gmap string (list string)) : M (gmap string (list string)) :=
  match audioFiles with
  | [] => ret groups
  | file :: rest =>
      let filename := basename file in
      match match_timestamp filename with
      | Some timestamp =>
          group_loop basename rest (push_to_group timestamp file groups)
      | None =>
          console_write
            (Log ("Couldn't extract timestamp from: " +:+ filename) []) ;;
          group_loop basename rest groups
      end
  end.

Definition groupFilesByTimestamp (basename : string -> string)
    (audioFiles : list string) : M (gmap string (list string)) :=
  group_loop basename audioFiles ∅.

(** [PERFORMANCE_CONFIG.batchSize] *)
Definition BATCH_SIZE : nat := 10.

(** The loop [for (let i = 0; i < targetRooms.length; i += BATCH_SIZE)
    batches.push(targetRooms.slice(i, i + BATCH_SIZE))], from [i] on; it
    runs for as long as it has fuel. *)
Fixpoint batches_loop {A} (fuel size : nat) (targetRooms : list A) (i : nat)
    (batches : list (list A)) : option (list (list A)) :=
  match fuel with
  | O => None
  | S fuel' =>
      if (i <? length targetRooms)%nat
      then batches_loop fuel' size targetRooms (i + size)
             (batches ++ [take size (drop i targetRooms)])
      else Some batches
  end.

(** The batches of [main], with one step of fuel per room and one more. *)
Definition split_batches {A} (size : nat) (targetRooms : list A)
  : option (list (list A)) :=
  batches_loop (S (length targetRooms)) size targetRooms 0 [].

(** Every character is a digit. *)
Fixpoint all_digits (s : string) : Prop :=
  match s with
  | EmptyString => True
  | String c rest => is_digit c = true /\ all_digits rest
  end.

(** Every batch but the last is full. *)
Definition full_but_last {A} (size : nat) (batches : list (list A)) : Prop :=
  forall k b, batches !! k = Some b -> (S k < length batches)%nat ->
              length b = size.

(** A host whose mux command fails and leaves the disk as it is. *)
Definition mux_failing_host : Host :=
  example_host (fun lbl => negb (String.prefix "combine_" lbl))
               (SpawnReturns (Some 0%Z) (Some "aac")).

(** ** The downloader: local paths *)

(** [s.substring(n)] *)
Fixpoint string_drop (n : nat) (s : string) : string :=
  match n, s with
  | S n', String _ rest => string_drop n' rest
  | _, _ => s
  end.

(** [s.replace(pattern, "")] for a string pattern: the first occurrence of
    the pattern is taken out. *)
Fixpoint remove_first (pattern s : string) : string :=
  if String.prefix pattern s
  then string_drop (String.length pattern) s
  else match s with
       | EmptyString => EmptyString
       | String c rest => String c (remove_first pattern rest)
       end.

Definition DEFAULT_AUDIO_EXTENSION : string := ".webm".

(** The path of an object below the local folder, as [downloadS3Folder]
    computes it: the key without the folder prefix, with [.webm] added when
    it has no dot. *)
Definition relative_path (s3FolderPath objectKey : string) : string :=
  let relativePath := remove_first s3FolderPath objectKey in
  if negb (includes "." relativePath)
  then relativePath +:+ DEFAULT_AUDIO_EXTENSION
  else relativePath.

(** * Proofs *)

(** ** Numbers *)

Lemma Qgtb_true (x y : Q) : Qgtb x y = true <-> y < x.
Proof.
  unfold Qgtb. rewrite negb_true_iff.
  split.
  - intros H. apply Qnot_le_lt. intros Hle.
    apply Qle_bool_iff in Hle. congruence.
  - intros H. destruct (Qle_bool x y) eqn:E; [|reflexivity].
    apply Qle_bool_iff in E. lra.
Qed.

Lemma Qgtb_false (x y : Q) : Qgtb x y = false <-> x <= y.
Proof.
  unfold Qgtb. rewrite negb_false_iff. apply Qle_bool_iff.
Qed.

(** ** Binary64 numbers and their text *)

(** Subtraction rounds: the difference of the numbers 0.3 and 0.1 is not
    the number 0.2, while that of 2.5 and 0.2 is the number 2.3. *)
Example binary64_subtraction :
  Number.sub (Number.of_Q (3 # 10)) (Number.of_Q (1 # 10))
  <> Number.of_Q (2 # 10) /\
  Number.sub (Number.of_Q (5 # 2)) (Number.of_Q (2 # 10))
  = Number.of_Q (23 # 10).
Proof. split; [vm_compute; discriminate | vm_compute; reflexivity]. Qed.

(** [Math.round] and [Math.floor] on numbers: halves go upwards, and a
    result of zero keeps the sign of the argument. *)
Example binary64_rounding :
  map Math_round64
      [Number.of_Q (5 # 2); Number.of_Q (-5 # 2); Number.of_Q (-1 # 4);
       Number.of_Q (1 # 4); S754_infinity false; S754_nan]
  = [Number.of_Z 3; Number.of_Z (-2); S754_zero true; S754_zero false;
     S754_infinity false; S754_nan] /\
  map Math_floor64
      [Number.of_Q (5 # 2); Number.of_Q (-5 # 2); Number.of_Q (1 # 4);
       Number.of_Q (-1 # 4)]
  = [Number.of_Z 2; Number.of_Z (-3); S754_zero false; Number.of_Z (-1)].
Proof. split; vm_compute; reflexivity. Qed.

(** The text of a number, as [Number::toString] gives it. *)
Example binary64_texts :
  map Number.toString
      [Number.of_Q (1 # 10); Number.of_Q (1 # 3); Number.of_Q (-5 # 2);
       Number.of_Z (2 ^ 53); Number.of_Z (10 ^ 21); Number.of_Z (10 ^ 23);
       Number.of_Q (1 # 10 ^ 6); Number.of_Q (1 # 10 ^ 7);
       Number.of_Q (123456 # 1000); S754_zero true; S754_infinity true]
  = ["0.1"; "0.3333333333333333"; "-2.5"; "9007199254740992"; "1e+21";
     "1e+23"; "0.000001"; "1e-7"; "123.456"; "0"; "-Infinity"].
Proof. vm_compute. reflexivity. Qed.

(** ** The planner *)

Lemma plan_loop_emit (gaps : list Gap) (acc : list Segment) (t endTime : Q) :
  (let '(segments, t') := plan_loop gaps (acc, t) in
   if Qltb t' endTime
   then segments ++ [mkSegment t' endTime src]
   else segments)
  = acc ++ emit gaps t endTime.
Proof.
  revert acc t. induction gaps as [|g rest IH]; intros acc t; simpl.
  - destruct (Qltb t endTime); [reflexivity | now rewrite app_nil_r].
  - rewrite IH. destruct (Qgtb (start g) t); simpl;
      now rewrite <- ?app_assoc.
Qed.

Lemma planSegments_emit (gaps : list Gap) (endTime : Q) :
  planSegments gaps endTime = emit gaps 0 endTime.
Proof.
  unfold planSegments. now rewrite (plan_loop_emit gaps [] 0 endTime).
Qed.

Lemma adjacent_cons {A} (R : A -> A -> Prop) (a : A) (l : list A) :
  adjacent R (a :: l) <->
  (forall b, head l = Some b -> R a b) /\ adjacent R l.
Proof.
  destruct l as [|b l]; simpl.
  - split; [intros _; split; [intros b Hb; discriminate | exact I] | tauto].
  - split.
    + intros [HR Hl]. split; [|exact Hl]. intros b' Hb.
      now injection Hb as <-.
    + intros [HR Hl]. split; [apply HR; reflexivity | exact Hl].
Qed.

(** *** From the documented invariant to its recursive form *)

Lemma gaps_invariant_tail (endTime : Q) (g : Gap) (rest : list Gap) :
  gaps_invariant endTime (g :: rest) -> gaps_invariant endTime rest.
Proof.
  intros [Hb Hs Hd]. split.
  - now inversion Hb.
  - apply Hs.
  - apply Hd.
Qed.

Lemma gaps_invariant_from (endTime : Q) (gaps : list Gap) (t : Q) :
  gaps_invariant endTime gaps ->
  t <= endTime ->
  Forall (fun g => t <= start g) gaps ->
  gaps_from t endTime gaps.
Proof.
  revert t. induction gaps as [|g rest IH]; intros t Hinv Ht Hall; simpl.
  - exact Ht.
  - pose proof (gaps_invariant_tail _ _ _ Hinv) as Htl.
    destruct Hinv as [Hb Hs Hd].
    inversion Hb as [|? ? (H0 & Hlt & Hle) Hb']; subst.
    inversion Hall as [|? ? Htg _]; subst.
    repeat split; try assumption.
    apply IH; [exact Htl | exact Hle |].
    destruct Hs as [Hs _]. destruct Hd as [Hd _].
    rewrite Forall_forall in Hs, Hd, Hb'. apply Forall_forall.
    intros g' Hin.
    destruct (Hd g' Hin) as [Hok | Hbad]; [exact Hok |].
    specialize (Hs g' Hin). destruct (Hb' g' Hin) as (_ & Hlt' & _). lra.
Qed.

Lemma gaps_invariant_from_0 (endTime : Q) (gaps : list Gap) :
  gaps_invariant endTime gaps -> 0 < endTime -> gaps_from 0 endTime gaps.
Proof.
  intros Hinv HE. apply gaps_invariant_from; [exact Hinv | lra |].
  destruct Hinv as [Hb _ _]. eapply Forall_impl; [exact Hb |].
  simpl. intros g (H0 & _). exact H0.
Qed.

(** *** The emitted list is a chain *)

Lemma emit_chain (gaps : list Gap) (t endTime : Q) :
  gaps_from t endTime gaps -> chain t (emit gaps t endTime) endTime.
Proof.
  revert t. induction gaps as [|g rest IH]; intros t; simpl.
  - intros Ht. unfold Qltb. destruct (Qgtb endTime t) eqn:E; simpl.
    + apply Qgtb_true in E. repeat split; try reflexivity; exact E.
    + apply Qgtb_false in E. lra.
  - intros (Ht & Hlt & Hle & Hrest).
    destruct (Qgtb (start g) t) eqn:E; simpl.
    + apply Qgtb_true in E.
      repeat split; try reflexivity; try assumption. now apply IH.
    + apply Qgtb_false in E.
      repeat split; try assumption; [lra | now apply IH].
Qed.

(** *** What a chain gives *)

Lemma chain_bounds (t endTime : Q) (segs : list Segment) :
  chain t segs endTime ->
  t <= endTime /\
  Forall (fun s => t <= seg_start s /\ seg_end s <= endTime) segs.
Proof.
  revert t. induction segs as [|s rest IH]; intros t; simpl.
  - intros Ht. split; [lra | constructor].
  - intros (Hs & Hlt & Hrest). destruct (IH _ Hrest) as [Hle Hall].
    split; [lra |]. constructor; [lra |].
    eapply Forall_impl; [exact Hall |]. simpl. intros s' [? ?]. lra.
Qed.

Lemma chain_nonempty (t endTime : Q) (segs : list Segment) :
  chain t segs endTime -> nonempty_segments segs.
Proof.
  revert t. induction segs as [|s rest IH]; intros t; simpl.
  - constructor.
  - intros (_ & Hlt & Hrest). constructor; [exact Hlt | exact (IH _ Hrest)].
Qed.

Lemma chain_last (t endTime : Q) (segs : list Segment) (s' : Segment) :
  chain t segs endTime -> last segs = Some s' -> seg_end s' == endTime.
Proof.
  revert t. induction segs as [|s rest IH]; intros t; [discriminate |].
  intros (_ & _ & Hrest). destruct rest as [|s2 rest].
  - simpl in *. intros [= <-]. exact Hrest.
  - intros Hl. apply (IH _ Hrest). exact Hl.
Qed.

Lemma chain_spans (t endTime : Q) (segs : list Segment) :
  chain t segs endTime -> spans t endTime segs.
Proof.
  destruct segs as [|s rest].
  - simpl. tauto.
  - intros Hc. split; [apply Hc |]. intros s'. now apply chain_last with t.
Qed.

Lemma chain_contiguous (t endTime : Q) (segs : list Segment) :
  chain t segs endTime -> contiguous segs.
Proof.
  unfold contiguous. revert t.
  induction segs as [|s rest IH]; intros t; [simpl; tauto |].
  intros (_ & _ & Hrest). apply adjacent_cons. split; [| exact (IH _ Hrest)].
  intros s' Hs'. destruct rest as [|s2 rest]; [discriminate |].
  injection Hs' as <-. destruct Hrest as (H & _). now symmetry.
Qed.

Lemma chain_ascending (t endTime : Q) (segs : list Segment) :
  chain t segs endTime -> ascending segs.
Proof.
  unfold ascending. revert t.
  induction segs as [|s rest IH]; intros t; simpl; [tauto |].
  intros (_ & Hlt & Hrest). split; [| exact (IH _ Hrest)].
  destruct (chain_bounds _ _ _ Hrest) as [_ Hall].
  eapply Forall_impl; [exact Hall |]. simpl. intros s' [? _]. lra.
Qed.

Lemma chain_non_overlapping (t endTime : Q) (segs : list Segment) :
  chain t segs endTime -> non_overlapping segs.
Proof.
  unfold non_overlapping. revert t.
  induction segs as [|s rest IH]; intros t; simpl; [tauto |].
  intros (_ & Hlt & Hrest). split; [| exact (IH _ Hrest)].
  destruct (chain_bounds _ _ _ Hrest) as [_ Hall].
  eapply Forall_impl; [exact Hall |]. simpl. intros s' [? _]. lra.
Qed.

Lemma chain_total (t endTime : Q) (segs : list Segment) :
  chain t segs endTime -> total_duration segs == endTime - t.
Proof.
  revert t. induction segs as [|s rest IH]; intros t; simpl.
  - intros Ht. lra.
  - intros (Hs & _ & Hrest). specialize (IH _ Hrest).
    change (duration_of s + total_duration rest == endTime - t).
    unfold duration_of. lra.
Qed.

Lemma chain_partitions (endTime : Q) (segs : list Segment) :
  chain 0 segs endTime -> partitions endTime segs.
Proof.
  intros Hc. split.
  - eapply chain_nonempty, Hc.
  - eapply chain_spans, Hc.
  - eapply chain_contiguous, Hc.
  - eapply chain_ascending, Hc.
  - eapply chain_non_overlapping, Hc.
  - rewrite (chain_total _ _ _ Hc). lra.
Qed.

Lemma planSegments_partitions (gaps : list Gap) (endTime : Q) :
  gaps_invariant endTime gaps -> 0 < endTime ->
  partitions endTime (planSegments gaps endTime).
Proof.
  intros Hinv HE. rewrite planSegments_emit.
  apply chain_partitions, emit_chain. now apply gaps_invariant_from_0.
Qed.

(** *** The tags *)

Lemma gaps_of_emit (gaps : list Gap) (t endTime : Q) :
  gaps_of (emit gaps t endTime) = gaps.
Proof.
  revert t. induction gaps as [|g rest IH]; intros t; simpl.
  - now destruct (Qltb t endTime).
  - unfold gaps_of in *. destruct (Qgtb (start g) t); simpl;
      rewrite IH; now destruct g.
Qed.

Lemma no_src_src_emit (gaps : list Gap) (t endTime : Q) :
  no_src_src (emit gaps t endTime).
Proof.
  unfold no_src_src. revert t.
  induction gaps as [|g rest IH]; intros t; simpl.
  - now destruct (Qltb t endTime).
  - assert (Hg : adjacent
              (fun s s' => ~ (type s = src /\ type s' = src))
              (gap_segment g :: emit rest (end_ g) endTime)).
    { apply adjacent_cons. split; [| apply IH].
      intros b _ [Hsrc _]. discriminate. }
    destruct (Qgtb (start g) t); [| exact Hg].
    apply adjacent_cons. split; [| exact Hg].
    simpl. intros b [= <-] [_ Hb]. discriminate.
Qed.

(** After a gap, when the next gap (if any) starts later than the cursor,
    the next segment is a source segment. *)
Lemma emit_head_src (gaps : list Gap) (t endTime : Q) (s : Segment) :
  (forall g, head gaps = Some g -> t < start g) ->
  head (emit gaps t endTime) = Some s -> type s = src.
Proof.
  destruct gaps as [|g rest]; simpl.
  - intros _. destruct (Qltb t endTime); [| discriminate].
    now intros [= <-].
  - intros Hg. specialize (Hg g eq_refl). apply Qgtb_true in Hg.
    rewrite Hg. now intros [= <-].
Qed.

Lemma alternates_emit (gaps : list Gap) (t endTime : Q) :
  gaps_separated gaps -> alternates (emit gaps t endTime).
Proof.
  unfold gaps_separated, alternates. revert t.
  induction gaps as [|g rest IH]; intros t Hsep; simpl.
  - now destruct (Qltb t endTime).
  - apply adjacent_cons in Hsep. destruct Hsep as [Hnext Hsep].
    assert (Hg : adjacent (fun s s' => type s <> type s')
                   (gap_segment g :: emit rest (end_ g) endTime)).
    { apply adjacent_cons. split; [| now apply IH].
      intros b Hb. rewrite (emit_head_src _ _ _ _ Hnext Hb). discriminate. }
    destruct (Qgtb (start g) t); [| exact Hg].
    apply adjacent_cons. split; [| exact Hg].
    simpl. intros b [= <-]. discriminate.
Qed.

Ltac solve_gaps_invariant :=
  split; simpl;
  repeat first [apply Forall_nil | apply Forall_cons | split];
  try exact I; cbn [start end_]; lra.

(** The planner's tags in general: the ['gap'] segments are the gaps of the
    input, and no two source segments are neighbours. *)
Lemma planSegments_tags (gaps : list Gap) (endTime : Q) :
  gaps_of (planSegments gaps endTime) = gaps /\
  no_src_src (planSegments gaps endTime).
Proof.
  rewrite planSegments_emit. split;
    [apply gaps_of_emit | apply no_src_src_emit].
Qed.

(** C1, as amended.  For every gap list that satisfies the documented
    invariant and every end time [E > 0], the segment list of the planning
    loop partitions [[0, E]]: its segments are non-empty, contiguous,
    ordered ascending, non-overlapping, start at 0, end at [E], and their
    durations sum to [E].  Its ['gap'] segments are exactly the gaps of the
    input, a source segment is never followed by another source segment,
    and when no two gaps touch the tags alternate strictly. *)
Theorem planSegments_partition (gaps : list Gap) (endTime : Q) :
  gaps_invariant endTime gaps ->
  0 < endTime ->
  partitions endTime (planSegments gaps endTime) /\
  gaps_of (planSegments gaps endTime) = gaps /\
  no_src_src (planSegments gaps endTime) /\
  (gaps_separated gaps -> alternates (planSegments gaps endTime)).
Proof.
  intros Hinv HE. split; [now apply planSegments_partitions |].
  destruct (planSegments_tags gaps endTime) as [Hg Hn].
  repeat split; try assumption.
  intros Hsep. rewrite planSegments_emit. now apply alternates_emit.
Qed.

(** The scenario of the specification: one gap [2.0, 2.5) in a timeline of
    5 seconds. *)
Lemma planSegments_partition_witness :
  gaps_invariant 5 [mkGap 2 (5 # 2)] /\ 0 < 5 /\
  (partitions 5 (planSegments [mkGap 2 (5 # 2)] 5) /\
   gaps_of (planSegments [mkGap 2 (5 # 2)] 5) = [mkGap 2 (5 # 2)] /\
   no_src_src (planSegments [mkGap 2 (5 # 2)] 5) /\
   (gaps_separated [mkGap 2 (5 # 2)] ->
    alternates (planSegments [mkGap 2 (5 # 2)] 5))).
Proof.
  split; [solve_gaps_invariant |]. split; [lra |].
  apply (planSegments_partition [mkGap 2 (5 # 2)] 5);
    [solve_gaps_invariant | lra].
Defined.

Example planSegments_scenario :
  planSegments [mkGap 2 (5 # 2)] 5 =
  [mkSegment 0 2 src; mkSegment 2 (5 # 2) gap; mkSegment (5 # 2) 5 src].
Proof. reflexivity. Qed.

(** Without gaps the plan is the one source segment [[0, E)]. *)
Lemma planSegments_no_gaps (endTime : Q) :
  0 < endTime -> planSegments [] endTime = [mkSegment 0 endTime src].
Proof.
  intros HE. unfold planSegments. cbn [plan_loop]. unfold Qltb.
  apply Qgtb_true in HE. now rewrite HE.
Qed.

(** A gap that starts at 0 has no source segment before it. *)
Lemma planSegments_leading_gap (g : Gap) (rest : list Gap) (endTime : Q) :
  start g == 0 ->
  head (planSegments (g :: rest) endTime) = Some (gap_segment g).
Proof.
  intros Hg. rewrite planSegments_emit. cbn [emit].
  assert (Hle : start g <= 0) by lra.
  apply Qgtb_false in Hle. now rewrite Hle.
Qed.

(** A gap that ends at [E] has no source segment after it. *)
Lemma planSegments_trailing_gap (gaps : list Gap) (g : Gap) (endTime : Q) :
  end_ g == endTime ->
  last (planSegments (gaps ++ [g]) endTime) = Some (gap_segment g).
Proof.
  intros Hg. rewrite planSegments_emit. generalize 0 as t.
  induction gaps as [|g' rest IH]; intros t.
  - cbn [app emit]. assert (Hle : endTime <= end_ g) by lra.
    unfold Qltb. apply Qgtb_false in Hle. rewrite Hle.
    now destruct (Qgtb (start g) t).
  - cbn [app emit]. specialize (IH (end_ g')).
    rewrite last_app, last_cons, IH. reflexivity.
Qed.

(** C1 as stated fails: two gaps that touch, [0,1) and [1,2), satisfy the
    invariant, and the planner answers with two ['gap'] segments in a row. *)
Lemma planSegments_touching_gaps_do_not_alternate :
  gaps_invariant 3 [mkGap 0 1; mkGap 1 2] /\ 0 < 3 /\
  planSegments [mkGap 0 1; mkGap 1 2] 3 =
    [mkSegment 0 1 gap; mkSegment 1 2 gap; mkSegment 2 3 src] /\
  ~ (partitions 3 (planSegments [mkGap 0 1; mkGap 1 2] 3) /\
     alternates (planSegments [mkGap 0 1; mkGap 1 2] 3)).
Proof.
  split; [solve_gaps_invariant |]. split; [lra |].
  split; [reflexivity |].
  intros [_ Halt]. cbv in Halt. destruct Halt as [Hne _]. now apply Hne.
Qed.

(** ** Rounding *)

Lemma Math_round_close (x : Q) :
  - (1 # 2) <= inject_Z (Math_round x) - x <= 1 # 2.
Proof.
  unfold Math_round.
  pose proof (Qfloor_le (x + (1 # 2))) as Hle.
  pose proof (Qlt_floor (x + (1 # 2))) as Hlt.
  rewrite inject_Z_plus in Hlt. change (inject_Z 1) with 1 in Hlt.
  split; lra.
Qed.

Lemma rendered_duration_close (s : Segment) :
  - half_ms <= rendered_duration s - duration_of s <= half_ms.
Proof.
  unfold rendered_duration, duration_of, half_ms.
  pose proof (Math_round_close ((seg_end s - seg_start s) * 1000)) as H.
  set (r := inject_Z (Math_round ((seg_end s - seg_start s) * 1000))) in *.
  assert (Hdiv : r / 1000 == r * (1 # 1000)) by (field).
  rewrite Hdiv. split; lra.
Qed.

Lemma rendered_total_close (segs : list Segment) :
  Qabs (rendered_total segs - total_duration segs)
  <= inject_Z (Z.of_nat (length segs)) * half_ms.
Proof.
  apply Qabs_Qle_condition.
  induction segs as [|s rest IH].
  - change (- (0 * half_ms) <= 0 - 0 <= 0 * half_ms).
    unfold half_ms. split; lra.
  - change (rendered_total (s :: rest))
      with (rendered_duration s + rendered_total rest).
    change (total_duration (s :: rest))
      with (duration_of s + total_duration rest).
    change (length (s :: rest)) with (S (length rest)).
    rewrite Nat2Z.inj_succ, <- Z.add_1_r, inject_Z_plus.
    change (inject_Z 1) with 1.
    pose proof (rendered_duration_close s) as Hs.
    unfold half_ms in *. split; lra.
Qed.

(** C4.  When the planner's N segments partition [[0, E]], the sum of the
    rendered durations, each [round((end - start) * 1000) / 1000], differs
    from [E] by at most N times half a millisecond. *)
Theorem rendered_total_rounding_bound (gaps : list Gap) (endTime : Q) :
  partitions endTime (planSegments gaps endTime) ->
  Qabs (rendered_total (planSegments gaps endTime) - endTime)
  <= inject_Z (Z.of_nat (length (planSegments gaps endTime))) * half_ms.
Proof.
  intros Hp. pose proof (part_total _ _ Hp) as Htotal.
  pose proof (rendered_total_close (planSegments gaps endTime)) as Hclose.
  apply Qabs_Qle_condition in Hclose. apply Qabs_Qle_condition.
  split; lra.
Qed.

Lemma rendered_total_rounding_bound_witness :
  partitions 5 (planSegments [mkGap 2 (5 # 2)] 5) /\
  Qabs (rendered_total (planSegments [mkGap 2 (5 # 2)] 5) - 5)
  <= inject_Z (Z.of_nat (length (planSegments [mkGap 2 (5 # 2)] 5)))
     * half_ms.
Proof.
  assert (Hp : partitions 5 (planSegments [mkGap 2 (5 # 2)] 5)).
  { apply planSegments_partitions; [solve_gaps_invariant | lra]. }
  split; [exact Hp |].
  exact (rendered_total_rounding_bound [mkGap 2 (5 # 2)] 5 Hp).
Defined.

(** The bound is reached: a single segment of 0.5 ms is rendered as 1 ms. *)
Example rendered_total_bound_tight :
  rendered_total (planSegments [] (1 # 2000)) - (1 # 2000) == 1 * half_ms.
Proof. reflexivity. Qed.

(** ** Running commands *)

Lemma bind_Ok {A B} (m : M A) (k : A -> M B) (wd wd' : World) (a : A) :
  m wd = (Ok a, wd') -> bind m k wd = k a wd'.
Proof. intros H. unfold bind. now rewrite H. Qed.

Lemma bind_Throw {A B} (m : M A) (k : A -> M B) (wd wd' : World) (e : Error) :
  m wd = (Throw e, wd') -> bind m k wd = (Throw e, wd').
Proof. intros H. unfold bind. now rewrite H. Qed.

Lemma command_eta (c : Command) : mkCommand (label c) (args c) = c.
Proof. now destruct c. Qed.

(** One invocation: it is appended to the trace, and it either succeeds or
    throws the failure tagged with its label; nothing but the files
    changes otherwise. *)
Lemma run_command_spec (host : Host) (c : Command) (wd : World) :
  exists (ok : bool) (fs' : gmap string string),
    run_command host c wd =
      (if ok then Ok tt else Throw (FfmpegError (label c)),
       mkWorld fs' (dirs wd) (trace wd ++ [c]) (console wd)
               (g_audioEncoderArgs wd)) /\
    ffmpeg host (label c) (args c)
           (mkWorld (files wd) (dirs wd) (trace wd ++ [c]) (console wd)
                    (g_audioEncoderArgs wd)) = (ok, fs').
Proof.
  unfold run_command, runFfmpegCommandAsync. rewrite command_eta.
  destruct (ffmpeg host (label c) (args c) _) as [ok fs'] eqn:E.
  exists ok, fs'. split; [| reflexivity]. now destruct ok.
Qed.

(** The segment loop appends a prefix of its commands to the trace, all of
    them when it returns; it then hands back the manifest text and the
    list of temporary files extended by the segment paths.  It throws
    nothing but ffmpeg failures. *)
Lemma render_loop_spec (host : Host) (ctxName : string) (vw vh : Z)
    (frameRate sourceOffset : Q) (segments : list Segment) :
  forall (i : nat) (st : string * list string) (wd : World),
  exists k : nat,
    let r := render_loop host ctxName vw vh frameRate sourceOffset
                         segments i st wd in
    (k <= length segments)%nat /\
    trace (snd r) =
      trace wd ++
      take k (segment_commands host ctxName vw vh frameRate sourceOffset
                               i segments) /\
    dirs (snd r) = dirs wd /\
    console (snd r) = console wd /\
    g_audioEncoderArgs (snd r) = g_audioEncoderArgs wd /\
    match fst r with
    | Ok st' =>
        k = length segments /\
        snd st' = snd st ++ seg_paths host ctxName i (length segments)
    | Throw e => exists lbl, e = FfmpegError lbl
    end.
Proof.
  induction segments as [|s rest IH]; intros i [cf tf] wd.
  - exists 0%nat. simpl. rewrite !app_nil_r. repeat split; reflexivity.
  - cbn [render_loop segment_commands].
    destruct (run_command_spec host
                (segment_command host ctxName vw vh frameRate sourceOffset i s)
                wd) as (ok & fs' & Hrun & _).
    destruct ok.
    + rewrite (bind_Ok _ _ _ _ _ Hrun).
      match goal with
      | |- context [render_loop _ _ _ _ _ _ rest (S i) ?st' ?wd'] =>
          destruct (IH (S i) st' wd')
            as (k & Hk & Htr & Hd & Hc & Hg & Hres)
      end.
      exists (S k). cbn zeta in *. rewrite Htr, Hd, Hc, Hg. cbn [trace dirs
        console g_audioEncoderArgs take length].
      rewrite <- app_assoc. repeat split; try reflexivity; [lia |].
      match goal with
      | |- match fst ?r with _ => _ end => destruct (fst r) as [st'|e]
      end.
      * destruct Hres as [-> Hst]. split; [reflexivity |].
        rewrite Hst. cbn [snd seg_paths length]. now rewrite <- app_assoc.
      * exact Hres.
    + rewrite (bind_Throw _ _ _ _ _ Hrun).
      exists 1%nat.
      cbn [fst snd trace dirs console g_audioEncoderArgs take length].
      repeat split; try reflexivity; [lia | now eexists].
Qed.

Lemma rmSync_present (p content : string) (wd : World) :
  files wd !! p = Some content ->
  rmSync p wd =
    (Ok tt, mkWorld (delete p (files wd)) (dirs wd) (trace wd) (console wd)
                    (g_audioEncoderArgs wd)).
Proof. intros H. unfold rmSync. now rewrite H. Qed.

Lemma rmSync_missing (p : string) (wd : World) :
  files wd !! p = None -> rmSync p wd = (Throw (ENOENT p), wd).
Proof. intros H. unfold rmSync. now rewrite H. Qed.

(** The cleanup loop: it only deletes, and when it returns every path of
    the list is gone; it throws only for a path that is not there. *)
Lemma for_of_rmSync_spec (paths : list string) :
  forall wd : World,
    let r := for_of paths rmSync wd in
    trace (snd r) = trace wd /\
    dirs (snd r) = dirs wd /\
    console (snd r) = console wd /\
    g_audioEncoderArgs (snd r) = g_audioEncoderArgs wd /\
    (forall p, files wd !! p = None -> files (snd r) !! p = None) /\
    match fst r with
    | Ok _ => forall p, p ∈ paths -> files (snd r) !! p = None
    | Throw e => exists p, e = ENOENT p
    end.
Proof.
  induction paths as [|p rest IH]; intros wd.
  - cbn. repeat split; try tauto. intros p Hp. now apply elem_of_nil in Hp.
  - cbn [for_of].
    destruct (files wd !! p) as [content|] eqn:Hp.
    + rewrite (bind_Ok _ _ _ _ _ (rmSync_present _ _ _ Hp)).
      match goal with
      | |- context [for_of rest rmSync ?wd'] =>
          specialize (IH wd'); set (r := for_of rest rmSync wd') in *
      end.
      cbn zeta in IH. cbn [trace dirs console g_audioEncoderArgs files] in IH.
      destruct IH as (Htr & Hd & Hc & Hg & Hkeep & Hres).
      cbn zeta. split; [exact Htr |]. split; [exact Hd |].
      split; [exact Hc |]. split; [exact Hg |]. split.
      * intros q Hq. apply Hkeep. rewrite lookup_delete_None. now right.
      * destruct (fst r) as [u|e]; [| exact Hres].
        intros q Hq. apply elem_of_cons in Hq as [-> | Hq];
          [| now apply Hres].
        apply Hkeep. apply lookup_delete_eq.
    + rewrite (bind_Throw _ _ _ _ _ (rmSync_missing _ _ Hp)).
      cbn. repeat split; try tauto. now eexists.
Qed.

Lemma segment_commands_length (host : Host) (ctxName : string) (vw vh : Z)
    (frameRate sourceOffset : Q) (segments : list Segment) (i : nat) :
  length (segment_commands host ctxName vw vh frameRate sourceOffset i
                           segments) = length segments.
Proof.
  revert i. induction segments as [|s rest IH]; intros i; simpl;
    [reflexivity | now rewrite IH].
Qed.

Lemma segment_commands_lookup (host : Host) (ctxName : string) (vw vh : Z)
    (frameRate sourceOffset : Q) (segments : list Segment) (i j : nat) :
  segment_commands host ctxName vw vh frameRate sourceOffset i segments !! j
  = segment_command host ctxName vw vh frameRate sourceOffset (i + j)
      <$> segments !! j.
Proof.
  revert i j. induction segments as [|s rest IH]; intros i j;
    [reflexivity |].
  destruct j as [|j]; simpl.
  - now rewrite Nat.add_0_r.
  - rewrite IH. now rewrite Nat.add_succ_r.
Qed.

(** The work after the checks: the trace grows by a prefix of the planned
    commands, by all of them when the run returns; a run that returns has
    deleted every temporary artifact; a run that throws throws an ffmpeg
    failure or a failed deletion. *)
Lemma render_video_spec (host : Host) (ctxName : string) (vw vh : Z)
    (frameRate sourceOffset E : Q) (gs : list Gap)
    (inputPath outputPath : string) (wd : World) :
  let r := render_video host ctxName vw vh frameRate sourceOffset E gs
                        inputPath outputPath wd in
  let planned := planned_commands host ctxName vw vh frameRate sourceOffset
                   (planSegments gs E) inputPath outputPath in
  exists k : nat,
    trace (snd r) = trace wd ++ take k planned /\
    g_audioEncoderArgs (snd r) = g_audioEncoderArgs wd /\
    match fst r with
    | Ok _ =>
        trace (snd r) = trace wd ++ planned /\
        forall p,
          p ∈ temp_artifacts host ctxName (length (planSegments gs E)) ->
          files (snd r) !! p = None
    | Throw e => (exists lbl, e = FfmpegError lbl) \/ (exists p, e = ENOENT p)
    end.
Proof.
  cbn zeta. unfold planned_commands.
  set (segs := planSegments gs E).
  set (conv := convert_command host ctxName inputPath vw vh frameRate).
  set (cmds := segment_commands host ctxName vw vh frameRate sourceOffset 0
                                segs).
  set (conc := concat_command host ctxName outputPath).
  assert (Hlen : length cmds = length segs)
    by apply segment_commands_length.
  remember (render_video host ctxName vw vh frameRate sourceOffset E gs
                         inputPath outputPath wd) as r eqn:Hr.
  unfold render_video in Hr. fold segs conv conc in Hr.
  unfold bind at 1, console_write at 1 in Hr. cbn iota in Hr.
  match type of Hr with
  | _ = bind (run_command host conv) _ ?wd0 =>
      destruct (run_command_spec host conv wd0) as (ok & fs1 & Hconv & _)
  end.
  cbn [files dirs trace console g_audioEncoderArgs] in Hconv.
  destruct ok.
  2:{ rewrite (bind_Throw _ _ _ _ _ Hconv) in Hr. subst r.
      exists 1%nat. cbn.
      repeat split; try reflexivity. left. now eexists. }
  rewrite (bind_Ok _ _ _ _ _ Hconv) in Hr.
  match type of Hr with
  | _ = bind (render_loop host ctxName vw vh frameRate sourceOffset segs 0
                          ?st) _ ?wd1 =>
      destruct (render_loop_spec host ctxName vw vh frameRate sourceOffset
                  segs 0 st wd1) as (k & Hk & Htr & _ & _ & Hg & Hres);
      destruct (render_loop host ctxName vw vh frameRate sourceOffset segs 0
                            st wd1) as [[[cf tf]|e] w2] eqn:Hrl
  end;
  cbn zeta in Htr, Hg, Hres;
  cbn [fst snd trace g_audioEncoderArgs] in Htr, Hg, Hres;
  fold cmds in Htr.
  2:{ rewrite (bind_Throw _ _ _ _ _ Hrl) in Hr. subst r.
      exists (S k). cbn [take fst snd]. rewrite take_app_le by lia.
      rewrite Htr, <- app_assoc. repeat split; try assumption.
      left. exact Hres. }
  destruct Hres as [-> Htf].
  rewrite (bind_Ok _ _ _ _ _ Hrl) in Hr.
  unfold bind at 1, writeFileSync at 1 in Hr. cbn iota in Hr.
  match type of Hr with
  | _ = bind (run_command host conc) _ ?wd3 =>
      destruct (run_command_spec host conc wd3) as (ok & fs4 & Hconc & _)
  end.
  cbn [files dirs trace console g_audioEncoderArgs] in Hconc.
  assert (Hall : trace w2 ++ [conc] = trace wd ++ conv :: cmds ++ [conc]).
  { rewrite Htr. rewrite firstn_all2 by lia. now rewrite <- !app_assoc. }
  assert (Htake : take (S (S (length segs))) (conv :: cmds ++ [conc])
                  = conv :: cmds ++ [conc]).
  { apply firstn_all2. cbn [length]. rewrite length_app. cbn. lia. }
  exists (S (S (length segs))). rewrite Htake.
  destruct ok.
  2:{ rewrite (bind_Throw _ _ _ _ _ Hconc) in Hr. subst r.
      cbn [fst snd trace g_audioEncoderArgs].
      repeat split; try assumption. left. now eexists. }
  rewrite (bind_Ok _ _ _ _ _ Hconc) in Hr.
  match type of Hr with
  | _ = for_of ?l rmSync ?wd5 =>
      destruct (for_of_rmSync_spec l wd5) as (Htr5 & _ & _ & Hg5 & _ & Hrm)
  end.
  cbn zeta in Htr5, Hg5, Hrm. rewrite <- Hr in Htr5, Hg5, Hrm.
  cbn [trace g_audioEncoderArgs] in Htr5, Hg5.
  rewrite Htr5, Hg5.
  repeat split; try assumption.
  destruct (fst r) as [u|e]; [| right; exact Hrm].
  split; [exact Hall |].
  intros p Hp. apply Hrm. rewrite Htf. unfold temp_artifacts in Hp.
  cbn [app]. exact Hp.
Qed.

(** ** [normalizeVideoTrackToM4V]: the checks *)

Lemma Qeq_bool_false (x y : Q) : ~ x == y -> Qeq_bool x y = false.
Proof.
  intros H. destruct (Qeq_bool x y) eqn:E; [| reflexivity].
  now apply Qeq_bool_eq in E.
Qed.

(** An analysis that passes the checks is rendered. *)
Lemma normalizeVideoTrackToM4V_ready (host : Host) (ctxName : string)
    (a : Analysis) (inputPath outputPath : string)
    (vw vh : Z) (sourceOffset E : Q) (gs : list Gap) :
  video_ready a vw vh sourceOffset E gs ->
  normalizeVideoTrackToM4V host ctxName (Some a) inputPath outputPath
  = render_video host ctxName vw vh (default 30 (frameRate a))
                 sourceOffset E gs inputPath outputPath.
Proof.
  intros [Hv Hs He Hnz Hg Hsz Hw Hh].
  unfold normalizeVideoTrackToM4V. cbn [mbind option_bind].
  rewrite Hv, He, Hs, Hg, Hsz. cbn.
  rewrite (Qeq_bool_false _ _ Hnz).
  apply Z.eqb_neq in Hw, Hh. rewrite Hw, Hh. reflexivity.
Qed.

Lemma planned_segment_command (host : Host) (ctxName : string) (vw vh : Z)
    (frameRate sourceOffset : Q) (segments : list Segment)
    (inputPath outputPath : string) (k i : nat) (s : Segment) (c : Command) :
  segments !! i = Some s ->
  take k (planned_commands host ctxName vw vh frameRate sourceOffset segments
                           inputPath outputPath) !! S i = Some c ->
  c = segment_command host ctxName vw vh frameRate sourceOffset i s.
Proof.
  intros Hs Hc. apply lookup_take_Some in Hc as [Hc _].
  unfold planned_commands in Hc. rewrite lookup_cons in Hc.
  rewrite lookup_app_l in Hc
    by (rewrite segment_commands_length; eapply lookup_lt_Some, Hs).
  rewrite segment_commands_lookup, Hs in Hc. cbn in Hc. congruence.
Qed.

(** The command found in the trace of a run at the place of segment [i]
    is the command of that segment. *)
Lemma issued_segment_command (host : Host) (ctxName : string)
    (a : Analysis) (inputPath outputPath : string) (wd : World)
    (vw vh : Z) (sourceOffset E : Q) (gs : list Gap)
    (i : nat) (s : Segment) (c : Command) :
  video_ready a vw vh sourceOffset E gs ->
  planSegments gs E !! i = Some s ->
  trace (snd (normalizeVideoTrackToM4V host ctxName (Some a) inputPath
                                       outputPath wd))
    !! (length (trace wd) + S i)%nat = Some c ->
  c = segment_command host ctxName vw vh (default 30 (frameRate a))
                      sourceOffset i s.
Proof.
  intros Hready Hs Hc.
  rewrite (normalizeVideoTrackToM4V_ready _ _ _ _ _ _ _ _ _ _ Hready) in Hc.
  destruct (render_video_spec host ctxName vw vh (default 30 (frameRate a))
              sourceOffset E gs inputPath outputPath wd) as (k & Htr & _).
  rewrite Htr in Hc. rewrite lookup_app_r in Hc by lia.
  replace (length (trace wd) + S i - length (trace wd))%nat with (S i) in Hc
    by lia.
  exact (planned_segment_command _ _ _ _ _ _ _ _ _ _ _ _ _ Hs Hc).
Qed.

(** The options of a segment command. *)
Lemma segment_command_options (host : Host) (ctxName : string) (vw vh : Z)
    (frameRate sourceOffset : Q) (i : nat) (s : Segment) :
  let c := segment_command host ctxName vw vh frameRate sourceOffset i s in
  arg_after "-t" (args c) = Some (ANum (duration s)) /\
  (type s = src ->
   arg_after "-ss" (args c)
   = Some (ANum (Number.sub (Number.of_Q (seg_start s))
                            (Number.of_Q sourceOffset))) /\
   arg_after "-i" (args c) = Some (AStr (tmpSource_path host ctxName))).
Proof.
  unfold segment_command. destruct (type s); cbn.
  - split; [reflexivity | intros _; split; reflexivity].
  - split; [reflexivity | discriminate].
Qed.

(** C2.  Whenever the command of segment [i] of the plan has been issued,
    it renders [Math.round((end - start) * 1000) / 1000] seconds, and for a
    source segment it seeks into the intermediate clip at
    [start - analysis.startTime]; both are the numbers that the binary64
    operations give, in the order in which the code applies them. *)
Theorem segment_command_seek_and_duration (host : Host) (ctxName : string)
    (a : Analysis) (inputPath outputPath : string) (wd : World)
    (vw vh : Z) (sourceOffset E : Q) (gs : list Gap)
    (i : nat) (s : Segment) (c : Command) :
  video_ready a vw vh sourceOffset E gs ->
  planSegments gs E !! i = Some s ->
  trace (snd (normalizeVideoTrackToM4V host ctxName (Some a) inputPath
                                       outputPath wd))
    !! (length (trace wd) + S i)%nat = Some c ->
  arg_after "-t" (args c)
  = Some (ANum (Number.div
                  (Math_round64
                     (Number.mul
                        (Number.sub (Number.of_Q (seg_end s))
                                    (Number.of_Q (seg_start s)))
                        (Number.of_Z 1000)))
                  (Number.of_Z 1000))) /\
  (type s = src ->
   arg_after "-ss" (args c)
   = Some (ANum (Number.sub (Number.of_Q (seg_start s))
                            (Number.of_Q sourceOffset))) /\
   arg_after "-i" (args c) = Some (AStr (tmpSource_path host ctxName))).
Proof.
  intros Hready Hs Hc.
  rewrite (issued_segment_command _ _ _ _ _ _ _ _ _ _ _ _ _ _ Hready Hs Hc).
  apply segment_command_options.
Qed.

(** X7.  A run that returns has issued the command of every segment of the
    plan, in order, between the conversion and the concatenation. *)
Lemma all_segments_rendered_on_return (host : Host) (ctxName : string)
    (a : Analysis) (inputPath outputPath : string) (wd : World)
    (vw vh : Z) (sourceOffset E : Q) (gs : list Gap) :
  video_ready a vw vh sourceOffset E gs ->
  fst (normalizeVideoTrackToM4V host ctxName (Some a) inputPath outputPath
                                wd) = Ok tt ->
  trace (snd (normalizeVideoTrackToM4V host ctxName (Some a) inputPath
                                       outputPath wd))
  = trace wd ++
    planned_commands host ctxName vw vh (default 30 (frameRate a))
      sourceOffset (planSegments gs E) inputPath outputPath.
Proof.
  intros Hready.
  rewrite (normalizeVideoTrackToM4V_ready _ _ _ _ _ _ _ _ _ _ Hready).
  intros Hok.
  destruct (render_video_spec host ctxName vw vh (default 30 (frameRate a))
              sourceOffset E gs inputPath outputPath wd) as (k & _ & _ & H).
  rewrite Hok in H. apply H.
Qed.

Lemma example_video_ready :
  video_ready example_video 1280 720 (1 # 5) 5 [mkGap 2 (5 # 2)].
Proof.
  split; try reflexivity; try lia. intros H. discriminate H.
Qed.

(** The first segment of the scenario, [0, 2), is extracted at
    [0 - 0.2] for 2 seconds. *)
Lemma segment_command_seek_and_duration_witness :
  video_ready example_video 1280 720 (1 # 5) 5 [mkGap 2 (5 # 2)] /\
  planSegments [mkGap 2 (5 # 2)] 5 !! 0%nat = Some (mkSegment 0 2 src) /\
  trace (snd (normalizeVideoTrackToM4V good_host "cam" (Some example_video)
                "cam.webm" "cam_normalized.m4v" example_world))
    !! (length (trace example_world) + 1)%nat
  = Some (segment_command good_host "cam" 1280 720 30 (1 # 5) 0
                          (mkSegment 0 2 src)) /\
  arg_after "-t"
    (args (segment_command good_host "cam" 1280 720 30 (1 # 5) 0
                           (mkSegment 0 2 src)))
  = Some (ANum (Number.div
                  (Math_round64
                     (Number.mul
                        (Number.sub (Number.of_Q 2) (Number.of_Q 0))
                        (Number.of_Z 1000)))
                  (Number.of_Z 1000))) /\
  (src = src ->
   arg_after "-ss"
     (args (segment_command good_host "cam" 1280 720 30 (1 # 5) 0
                            (mkSegment 0 2 src)))
   = Some (ANum (Number.sub (Number.of_Q 0) (Number.of_Q (1 # 5)))) /\
   arg_after "-i"
     (args (segment_command good_host "cam" 1280 720 30 (1 # 5) 0
                            (mkSegment 0 2 src)))
   = Some (AStr (tmpSource_path good_host "cam"))).
Proof.
  assert (Hs : planSegments [mkGap 2 (5 # 2)] 5 !! 0%nat
               = Some (mkSegment 0 2 src)) by reflexivity.
  assert (Hc : trace (snd (normalizeVideoTrackToM4V good_host "cam"
                             (Some example_video) "cam.webm"
                             "cam_normalized.m4v" example_world))
                 !! (length (trace example_world) + 1)%nat
               = Some (segment_command good_host "cam" 1280 720 30 (1 # 5) 0
                                       (mkSegment 0 2 src)))
    by (vm_compute; reflexivity).
  split; [exact example_video_ready |]. split; [exact Hs |].
  split; [exact Hc |].
  exact (segment_command_seek_and_duration good_host "cam" example_video
           "cam.webm" "cam_normalized.m4v" example_world 1280 720 (1 # 5) 5
           [mkGap 2 (5 # 2)] 0 (mkSegment 0 2 src) _
           example_video_ready Hs Hc).
Defined.

(** The numbers of the scenario: its three segments are rendered for 2,
    0.5 and 2.5 seconds, and the two source segments are sought at -0.2
    and 2.3. *)
Example example_video_numbers :
  map (fun c => (arg_after "-ss" (args c), arg_after "-t" (args c)))
      (segment_commands good_host "cam" 1280 720 30 (1 # 5) 0
                        (planSegments [mkGap 2 (5 # 2)] 5))
  = [(Some (ANum (Number.of_Q (-1 # 5))), Some (ANum (Number.of_Z 2)));
     (None, Some (ANum (Number.of_Q (1 # 2))));
     (Some (ANum (Number.of_Q (23 # 10))),
      Some (ANum (Number.of_Q (5 # 2))))].
Proof. vm_compute. reflexivity. Qed.

(** Binary64 at work.  The segment [1.4995, 5) is 3.5005 seconds long; the
    product of its length by 1000 is just below 3500.5, so it is rendered
    for 3.5 seconds, where the rule over the rationals gives 3.501. *)
Example duration_below_a_tie :
  duration (mkSegment (14995 # 10000) 5 src) = Number.of_Q (35 # 10) /\
  rendered_duration (mkSegment (14995 # 10000) 5 src) == 3501 # 1000.
Proof. split; vm_compute; reflexivity. Qed.

(** The other way round: the number 1.0005 is below the decimal it is
    written as, and its product by 1000 is rounded up to 1000.5, so the
    segment [0, 1.0005) is rendered for 1.001 seconds. *)
Example duration_at_a_tie :
  Number.mul (Number.of_Q (10005 # 10000)) (Number.of_Z 1000)
  = Number.of_Q (10005 # 10) /\
  duration (mkSegment 0 (10005 # 10000) src) = Number.of_Q (1001 # 1000).
Proof. split; vm_compute; reflexivity. Qed.

(** The seek position of a segment that starts at 0.3 in a track that
    starts at 0.1 is the number that prints as 0.19999999999999998. *)
Example seek_position_is_rounded :
  Number.toString (Number.sub (Number.of_Q (3 # 10)) (Number.of_Q (1 # 10)))
  = "0.19999999999999998".
Proof. vm_compute. reflexivity. Qed.

(** The whole run of the scenario on a host whose commands succeed: it
    returns, has issued the conversion, the three segment commands and the
    concatenation, and leaves the output next to the inputs. *)
Example example_video_run :
  let r := normalizeVideoTrackToM4V good_host "cam" (Some example_video)
             "cam.webm" "cam_normalized.m4v" example_world in
  fst r = Ok tt /\
  map label (trace (snd r))
  = ["convert_cam"; "extractseg_0_cam"; "rendergap_1_cam";
     "extractseg_2_cam"; "concat_cam"] /\
  dom (files (snd r))
  = ({[ "cam.webm"; "mic.webm"; "cam_normalized.m4v" ]} : gset string).
Proof.
  cbn zeta. repeat split.
Qed.

(** *** The checks, one by one *)

Section VideoChecks.
Context (host : Host) (ctxName inputPath outputPath : string) (wd : World).

(** [isVideo] false or absent, or no analysis at all. *)
Lemma video_rejects_non_video (analysis : option Analysis) :
  truthy_bool (analysis ≫= isVideo) = false ->
  normalizeVideoTrackToM4V host ctxName analysis inputPath outputPath wd
  = (Throw (JsError msg_video_expects_video), wd).
Proof.
  intros H. unfold normalizeVideoTrackToM4V. now rewrite H.
Qed.

(** [endTime] missing or zero, or [startTime] missing. *)
Lemma video_rejects_missing_times (a : Analysis) :
  isVideo a = Some true ->
  truthy_num (endTime a) = false \/ startTime a = None ->
  normalizeVideoTrackToM4V host ctxName (Some a) inputPath outputPath wd
  = (Throw (JsError msg_video_expects_times), wd).
Proof.
  intros Hv H. unfold normalizeVideoTrackToM4V. cbn [mbind option_bind].
  rewrite Hv. cbn [truthy_bool negb].
  destruct H as [-> | ->]; [reflexivity |].
  cbn [is_null]. now rewrite orb_true_r.
Qed.

(** [gaps] is not an array. *)
Lemma video_rejects_missing_gaps (a : Analysis) :
  isVideo a = Some true ->
  truthy_num (endTime a) = true -> is_Some (startTime a) ->
  gaps a = None ->
  normalizeVideoTrackToM4V host ctxName (Some a) inputPath outputPath wd
  = (Throw (JsError msg_video_expects_gaps), wd).
Proof.
  intros Hv He [st Hs] Hg. unfold normalizeVideoTrackToM4V.
  cbn [mbind option_bind]. now rewrite Hv, He, Hs, Hg.
Qed.

(** [videoSize] is there and lacks a dimension, or has one that is 0. *)
Lemma video_rejects_missing_dimension (a : Analysis) (size : VideoSize) :
  isVideo a = Some true ->
  truthy_num (endTime a) = true -> is_Some (startTime a) ->
  is_Some (gaps a) ->
  videoSize a = Some size ->
  truthy_int (w size) = false \/ truthy_int (h size) = false ->
  normalizeVideoTrackToM4V host ctxName (Some a) inputPath outputPath wd
  = (Throw (JsError msg_video_expects_videoSize), wd).
Proof.
  intros Hv He [st Hs] [gs Hg] Hsz H. unfold normalizeVideoTrackToM4V.
  cbn [mbind option_bind]. rewrite Hv, He, Hs, Hg, Hsz. cbn.
  destruct H as [-> | ->]; [reflexivity |]. now rewrite orb_true_r.
Qed.

(** [videoSize] itself is missing: the check of line 139 reads [w] of
    [undefined], and what is thrown is that [TypeError], not the error
    of line 140. *)
Lemma video_missing_videoSize (a : Analysis) :
  isVideo a = Some true ->
  truthy_num (endTime a) = true -> is_Some (startTime a) ->
  is_Some (gaps a) ->
  videoSize a = None ->
  normalizeVideoTrackToM4V host ctxName (Some a) inputPath outputPath wd
  = (Throw (TypeError "Cannot read properties of undefined (reading 'w')"),
     wd).
Proof.
  intros Hv He [st Hs] [gs Hg] Hsz. unfold normalizeVideoTrackToM4V.
  cbn [mbind option_bind]. now rewrite Hv, He, Hs, Hg, Hsz.
Qed.

(** Every analysis is either turned down by the checks, with the world
    untouched, or ready to be rendered. *)
Lemma video_checks_exhaustive (analysis : option Analysis) :
  (exists msg,
      normalizeVideoTrackToM4V host ctxName analysis inputPath outputPath wd
      = (Throw (JsError msg), wd) \/
      normalizeVideoTrackToM4V host ctxName analysis inputPath outputPath wd
      = (Throw (TypeError msg), wd)) \/
  (exists a vw vh sourceOffset E gs,
      analysis = Some a /\ video_ready a vw vh sourceOffset E gs).
Proof.
  destruct (truthy_bool (analysis ≫= isVideo)) eqn:Hv.
  2:{ left. eexists. left. now apply video_rejects_non_video. }
  destruct analysis as [a|]; [| discriminate]. cbn in Hv.
  assert (Hv' : isVideo a = Some true)
    by (destruct (isVideo a) as [[]|]; cbn in Hv; congruence).
  destruct (truthy_num (endTime a)) eqn:He.
  2:{ left. eexists. left. apply video_rejects_missing_times; auto. }
  destruct (startTime a) as [st|] eqn:Hs.
  2:{ left. eexists. left. apply video_rejects_missing_times; auto. }
  assert (Hs' : is_Some (startTime a)) by (rewrite Hs; eauto).
  destruct (gaps a) as [gs|] eqn:Hg.
  2:{ left. eexists. left. now apply video_rejects_missing_gaps. }
  assert (Hg' : is_Some (gaps a)) by (rewrite Hg; eauto).
  destruct (videoSize a) as [size|] eqn:Hsz.
  2:{ left. eexists. right. now apply video_missing_videoSize. }
  destruct (truthy_int (w size)) eqn:Hw.
  2:{ left. eexists. left.
      apply video_rejects_missing_dimension with size; auto. }
  destruct (truthy_int (h size)) eqn:Hh.
  2:{ left. eexists. left.
      apply video_rejects_missing_dimension with size; auto. }
  right.
  destruct (endTime a) as [E|] eqn:HE; [| discriminate].
  destruct size as [[vw|] [vh|]]; try discriminate.
  exists a, vw, vh, st, E, gs. split; [reflexivity |].
  cbn in He, Hw, Hh. apply negb_true_iff in He, Hw, Hh.
  split; auto.
  - now apply Qeq_bool_neq.
  - now apply Z.eqb_neq.
  - now apply Z.eqb_neq.
Qed.

End VideoChecks.

(** ** Temporary artifacts *)


(** ** A zero [endTime] *)

(** C10.  A video analysis whose [endTime] is 0 is turned down with the
    error of the [endTime] check, before anything is done. *)
Theorem video_rejects_zero_endTime (host : Host) (ctxName : string)
    (a : Analysis) (inputPath outputPath : string) (wd : World) (e : Q) :
  isVideo a = Some true ->
  endTime a = Some e ->
  e == 0 ->
  normalizeVideoTrackToM4V host ctxName (Some a) inputPath outputPath wd
  = (Throw (JsError msg_video_expects_times), wd).
Proof.
  intros Hv He Hz. apply video_rejects_missing_times; [exact Hv |].
  left. rewrite He. cbn. now rewrite (Qeq_eq_bool _ _ Hz).
Qed.

Lemma video_rejects_zero_endTime_witness :
  isVideo (mkAnalysis (Some true) (Some (1 # 5)) (Some 0)
             (Some (mkVideoSize (Some 1280%Z) (Some 720%Z))) (Some 30)
             (Some [])) = Some true /\
  endTime (mkAnalysis (Some true) (Some (1 # 5)) (Some 0)
             (Some (mkVideoSize (Some 1280%Z) (Some 720%Z))) (Some 30)
             (Some [])) = Some 0 /\
  0 == 0 /\
  normalizeVideoTrackToM4V good_host "cam"
    (Some (mkAnalysis (Some true) (Some (1 # 5)) (Some 0)
             (Some (mkVideoSize (Some 1280%Z) (Some 720%Z))) (Some 30)
             (Some [])))
    "cam.webm" "cam_normalized.m4v" example_world
  = (Throw (JsError msg_video_expects_times), example_world).
Proof.
  split; [reflexivity |]. split; [reflexivity |]. split; [reflexivity |].
  apply (video_rejects_zero_endTime good_host "cam" _ "cam.webm"
           "cam_normalized.m4v" example_world 0);
    reflexivity.
Defined.

(** ** A missing [videoSize] *)

(** C5 at its failing input.  A video analysis that has every key but
    [videoSize] is not answered with the error of line 140,
    ["normalizeVideoTrack expects analysis.videoSize to be set"]: the
    check of line 139 reads [w] of [undefined] and that [TypeError] is what
    the caller gets.  Nothing has been done by then. *)
Theorem video_missing_videoSize_throws_TypeError (host : Host)
    (ctxName inputPath outputPath : string) (wd : World) :
  normalizeVideoTrackToM4V host ctxName
    (Some (mkAnalysis (Some true) (Some (1 # 5)) (Some 5) None (Some 30)
                      (Some [mkGap 2 (5 # 2)])))
    inputPath outputPath wd
  = (Throw (TypeError "Cannot read properties of undefined (reading 'w')"),
     wd) /\
  ~ is_validation_error
      (TypeError "Cannot read properties of undefined (reading 'w')").
Proof.
  split; [reflexivity |]. intros [msg H]. discriminate H.
Qed.

(** ** [getAudioEncoderArgs] *)

Lemma getAudioEncoderArgs_cached (host : Host) (wd : World)
    (cfg : list string) :
  g_audioEncoderArgs wd = Some cfg ->
  getAudioEncoderArgs host wd = (Ok cfg, wd).
Proof.
  intros H. unfold getAudioEncoderArgs, bind, get_g_audioEncoderArgs.
  now rewrite H.
Qed.

(** What the [try] block yields when the probe does not find the encoder:
    [false], or an exception that the [catch] turns into [false]. *)
Lemma probe_libfdk_absent (host : Host) (wd : World) :
  no_libfdk (spawnSync_encoders host wd) ->
  probe_libfdk host wd = (Ok false, wd) \/
  exists e, probe_libfdk host wd = (Throw e, wd) /\
            forall c, e <> ProcessExit c.
Proof.
  intros H. unfold probe_libfdk, bind, spawnSync.
  inversion H as [msg Hp | status out Hst Hp | Hp | out Hinc Hp].
  - right. eexists. split; [reflexivity | discriminate].
  - left. now rewrite bool_decide_eq_false_2.
  - right. cbn. eexists. split; [reflexivity | discriminate].
  - left. cbn. unfold ret. now rewrite Hinc.
Qed.

(** A first call whose probe does not find the encoder: the fallback is
    returned and stored, and only the console and the module variable
    change. *)
Lemma getAudioEncoderArgs_fallback (host : Host) (wd : World) :
  g_audioEncoderArgs wd = None ->
  no_libfdk (spawnSync_encoders host wd) ->
  exists lines,
    getAudioEncoderArgs host wd
    = (Ok fallback_encoder_args,
       mkWorld (files wd) (dirs wd) (trace wd) (console wd ++ lines)
               (Some fallback_encoder_args)).
Proof.
  intros Hg Hprobe. unfold getAudioEncoderArgs.
  unfold bind at 1, get_g_audioEncoderArgs. rewrite Hg.
  unfold bind at 1, try_catch.
  destruct (probe_libfdk_absent host wd Hprobe) as [-> | (e & -> & Hne)].
  - eexists [_]. reflexivity.
  - destruct e; try (now eexists [_; _]; cbn; rewrite <- app_assoc).
    now destruct (Hne code).
Qed.

(** The probe changes nothing, and does not end the process. *)
Lemma probe_libfdk_pure (host : Host) (wd : World) :
  snd (probe_libfdk host wd) = wd /\
  forall c, fst (probe_libfdk host wd) <> Throw (ProcessExit c).
Proof.
  unfold probe_libfdk, bind, spawnSync.
  destruct (spawnSync_encoders host wd) as [msg | st [out|]]; cbn;
    try destruct (bool_decide (st = Some 0%Z)); cbn;
    split; try reflexivity; discriminate.
Qed.

(** A call never throws, issues no ffmpeg command and touches no file, and
    leaves the configuration it returns in the module variable. *)
Lemma getAudioEncoderArgs_total (host : Host) (wd : World) :
  exists cfg wd',
    getAudioEncoderArgs host wd = (Ok cfg, wd') /\
    trace wd' = trace wd /\ files wd' = files wd /\
    g_audioEncoderArgs wd' = Some cfg /\
    (forall c, g_audioEncoderArgs wd = Some c -> cfg = c).
Proof.
  destruct (g_audioEncoderArgs wd) as [c|] eqn:Hg.
  - exists c, wd. rewrite (getAudioEncoderArgs_cached _ _ _ Hg).
    repeat split; try assumption. now intros c' [= <-].
  - unfold getAudioEncoderArgs.
    unfold bind at 1, get_g_audioEncoderArgs. rewrite Hg.
    unfold bind at 1, try_catch.
    destruct (probe_libfdk_pure host wd) as [Hw Hne].
    destruct (probe_libfdk host wd) as [[[]|e] w1]; cbn in Hw, Hne; subst w1.
    + do 2 eexists. split; [reflexivity |]. repeat split; discriminate.
    + do 2 eexists. split; [reflexivity |]. repeat split; discriminate.
    + destruct e; try (do 2 eexists; split; [reflexivity |];
                       repeat split; discriminate).
      now destruct (Hne code).
Qed.

(** ** [normalizeAudioTrack] *)

Lemma runFfmpegCommandAsync_spec (host : Host) (lbl : string)
    (argv : list arg) (wd : World) :
  exists (ok : bool) (fs' : gmap string string),
    runFfmpegCommandAsync host lbl argv wd =
      (if ok then Ok tt else Throw (FfmpegError lbl),
       mkWorld fs' (dirs wd) (trace wd ++ [mkCommand lbl argv]) (console wd)
               (g_audioEncoderArgs wd)).
Proof.
  destruct (run_command_spec host (mkCommand lbl argv) wd)
    as (ok & fs' & H & _).
  now exists ok, fs'.
Qed.

(** An audio analysis with a [startTime] and a supported codec: exactly one
    command is issued, it starts with the input and the filter, and the
    call returns or fails with that command. *)
Lemma normalizeAudioTrack_accepts (host : Host) (ctxName : string)
    (a : Analysis) (inputPath outputPath : string) (codec : option string)
    (wd : World) :
  truthy_bool (isVideo a) = false ->
  is_Some (startTime a) ->
  default "aac" codec = "aac" \/ default "aac" codec = "wav" ->
  let r := normalizeAudioTrack host ctxName (Some a) inputPath outputPath
                               codec wd in
  exists c,
    trace (snd r) = trace wd ++ [c] /\
    take 4 (args c) = audio_command_head inputPath (audio_filter a) /\
    (fst r = Ok tt \/ fst r = Throw (FfmpegError (label c))).
Proof.
  intros Hv [st Hs] Hcodec. cbn zeta. unfold normalizeAudioTrack.
  cbn [mbind option_bind]. rewrite Hv, Hs. cbn [is_null].
  destruct Hcodec as [-> | ->]; cbn [String.eqb Ascii.eqb Bool.eqb negb].
  - unfold normalizeAudioTrackToAAC.
    destruct (getAudioEncoderArgs_total host wd)
      as (cfg & wd' & Henc & Htr & _).
    rewrite (bind_Ok _ _ _ _ _ Henc).
    match goal with
    | |- context [runFfmpegCommandAsync host ?l ?argv wd'] =>
        destruct (runFfmpegCommandAsync_spec host l argv wd')
          as (ok & fs' & ->);
        exists (mkCommand l argv)
    end.
    cbn [fst snd trace args label]. rewrite Htr.
    repeat split. destruct ok; [now left | now right].
  - unfold normalizeAudioTrackToWav.
    match goal with
    | |- context [runFfmpegCommandAsync host ?l ?argv wd] =>
        destruct (runFfmpegCommandAsync_spec host l argv wd)
          as (ok & fs' & ->);
        exists (mkCommand l argv)
    end.
    cbn [fst snd trace args label].
    repeat split. destruct ok; [now left | now right].
Qed.

(** The module variable, once set, survives every call. *)
Lemma normalizeAudioTrack_keeps_encoder (host : Host) (ctxName : string)
    (analysis : option Analysis) (inputPath outputPath : string)
    (codec : option string) (wd : World) (cfg : list string) :
  g_audioEncoderArgs wd = Some cfg ->
  g_audioEncoderArgs
    (snd (normalizeAudioTrack host ctxName analysis inputPath outputPath
                              codec wd)) = Some cfg.
Proof.
  intros Hg. unfold normalizeAudioTrack.
  destruct (truthy_bool (analysis ≫= isVideo)); [exact Hg |].
  destruct analysis as [a|]; [| exact Hg].
  destruct (is_null (startTime a)); [exact Hg |].
  destruct (String.eqb (default "aac" codec) "wav").
  - unfold normalizeAudioTrackToWav.
    match goal with
    | |- context [runFfmpegCommandAsync host ?l ?argv wd] =>
        destruct (runFfmpegCommandAsync_spec host l argv wd)
          as (ok & fs' & ->)
    end.
    exact Hg.
  - destruct (negb (String.eqb (default "aac" codec) "aac")); [exact Hg |].
    unfold normalizeAudioTrackToAAC.
    rewrite (bind_Ok _ _ _ _ _ (getAudioEncoderArgs_cached host wd cfg Hg)).
    match goal with
    | |- context [runFfmpegCommandAsync host ?l ?argv wd] =>
        destruct (runFfmpegCommandAsync_spec host l argv wd)
          as (ok & fs' & ->)
    end.
    exact Hg.
Qed.

Lemma normalizeVideoTrackToM4V_keeps_encoder (host : Host)
    (ctxName : string) (analysis : option Analysis)
    (inputPath outputPath : string) (wd : World) :
  g_audioEncoderArgs
    (snd (normalizeVideoTrackToM4V host ctxName analysis inputPath
                                   outputPath wd))
  = g_audioEncoderArgs wd.
Proof.
  destruct (video_checks_exhaustive host ctxName inputPath outputPath wd
              analysis)
    as [(msg & [-> | ->]) | (a & vw & vh & off & E & gs & -> & Hready)];
    [reflexivity | reflexivity |].
  rewrite (normalizeVideoTrackToM4V_ready _ _ _ _ _ _ _ _ _ _ Hready).
  destruct (render_video_spec host ctxName vw vh (default 30 (frameRate a))
              off E gs inputPath outputPath wd) as (k & _ & Hg & _).
  exact Hg.
Qed.

Lemma reachable_keeps_encoder (host : Host) (wd wd' : World)
    (cfg : list string) :
  g_audioEncoderArgs wd = Some cfg ->
  reachable host wd wd' ->
  g_audioEncoderArgs wd' = Some cfg.
Proof.
  intros Hg Hreach. induction Hreach as [| wd1 _ IH | wd1 ? ? ? ? ? _ IH
                                        | wd1 ? ? ? ? _ IH].
  - exact Hg.
  - now rewrite (getAudioEncoderArgs_cached _ _ _ IH).
  - now apply normalizeAudioTrack_keeps_encoder.
  - now rewrite normalizeVideoTrackToM4V_keeps_encoder.
Qed.

(** ** The encoder fallback *)

(** C7.  When the probe does not find [libfdk_aac] (it could not be run,
    it failed, or it ran and does not list the encoder), the first call of
    [getAudioEncoderArgs] returns the fallback configuration without
    throwing and stores it; every later call of the process, whatever the
    probe would answer by then, returns the fallback again and changes
    nothing. *)
Theorem encoder_fallback_is_cached (host : Host) (wd : World) :
  g_audioEncoderArgs wd = None ->
  no_libfdk (spawnSync_encoders host wd) ->
  fst (getAudioEncoderArgs host wd) = Ok fallback_encoder_args /\
  g_audioEncoderArgs (snd (getAudioEncoderArgs host wd))
  = Some fallback_encoder_args /\
  forall wd', reachable host (snd (getAudioEncoderArgs host wd)) wd' ->
              getAudioEncoderArgs host wd' = (Ok fallback_encoder_args, wd').
Proof.
  intros Hg Hprobe.
  destruct (getAudioEncoderArgs_fallback host wd Hg Hprobe) as [lines ->].
  cbn [fst snd]. repeat split.
  intros wd' Hreach. apply getAudioEncoderArgs_cached.
  eapply reachable_keeps_encoder; [| exact Hreach]. reflexivity.
Qed.

Lemma good_host_has_no_libfdk :
  no_libfdk (spawnSync_encoders good_host example_world).
Proof. apply probe_absent. reflexivity. Qed.

Lemma encoder_fallback_is_cached_witness :
  g_audioEncoderArgs example_world = None /\
  no_libfdk (spawnSync_encoders good_host example_world) /\
  fst (getAudioEncoderArgs good_host example_world)
  = Ok fallback_encoder_args /\
  g_audioEncoderArgs (snd (getAudioEncoderArgs good_host example_world))
  = Some fallback_encoder_args /\
  forall wd',
    reachable good_host (snd (getAudioEncoderArgs good_host example_world))
              wd' ->
    getAudioEncoderArgs good_host wd' = (Ok fallback_encoder_args, wd').
Proof.
  split; [reflexivity |]. split; [exact good_host_has_no_libfdk |].
  exact (encoder_fallback_is_cached good_host example_world eq_refl
           good_host_has_no_libfdk).
Defined.

(** With the encoder listed by a probe that ends with status 0, the
    preferred configuration is chosen instead. *)
Example encoder_preferred :
  fst (getAudioEncoderArgs
         (example_host (fun _ => true)
            (SpawnReturns (Some 0%Z) (Some " A....D libfdk_aac  Fraunhofer")))
         example_world)
  = Ok preferred_encoder_args.
Proof. reflexivity. Qed.

(** ** The audio filter chain *)

Lemma append_nil (s : string) : "" +:+ s = s.
Proof. reflexivity. Qed.

Lemma append_cons (c : ascii) (s1 s2 : string) :
  String c s1 +:+ s2 = String c (s1 +:+ s2).
Proof. reflexivity. Qed.

Lemma free_of_app (sep : ascii) (s1 s2 : string) :
  free_of sep s1 -> free_of sep s2 -> free_of sep (s1 +:+ s2).
Proof.
  induction s1 as [|c s1 IH];
    rewrite ?append_nil, ?append_cons; cbn [free_of]; [tauto |].
  intros [Hc H1] H2. split; [exact Hc | now apply IH].
Qed.

Lemma split_on_free (sep : ascii) (s : string) :
  free_of sep s -> split_on sep s = [s].
Proof.
  induction s as [|c s IH]; cbn [free_of split_on]; [reflexivity |].
  intros [Hc Hs]. apply Ascii.eqb_neq in Hc. rewrite Hc, (IH Hs).
  reflexivity.
Qed.

Lemma split_on_app_sep (sep : ascii) (s1 s2 : string) :
  free_of sep s1 ->
  split_on sep (s1 +:+ String sep s2) = s1 :: split_on sep s2.
Proof.
  induction s1 as [|c s1 IH];
    rewrite ?append_nil, ?append_cons; cbn [free_of split_on].
  - intros _. now rewrite Ascii.eqb_refl.
  - intros [Hc H1]. apply Ascii.eqb_neq in Hc. rewrite Hc, (IH H1).
    reflexivity.
Qed.

Lemma pretty_N_char_not_comma (d : N) : pretty_N_char d <> ","%char.
Proof. unfold pretty_N_char. repeat case_match; discriminate. Qed.

Lemma pretty_N_go_free (x : N) :
  forall s, free_of "," s -> free_of "," (pretty_N_go x s).
Proof.
  induction (N.lt_wf_0 x) as [x _ IH]. intros s Hs.
  destruct (N.eq_dec x 0%N) as [-> | Hx].
  - now rewrite pretty_N_go_0.
  - assert (0 < x)%N as Hpos by lia.
    rewrite (pretty_N_go_step x s Hpos).
    apply IH; [now apply N.div_lt |].
    split; [apply pretty_N_char_not_comma | exact Hs].
Qed.

Lemma pretty_Z_free (z : Z) : free_of "," (pretty z).
Proof.
  destruct z as [|p|p]; unfold pretty, pretty_Z, pretty, pretty_positive,
    pretty, pretty_N.
  - cbn. split; [discriminate | exact I].
  - case_decide; [discriminate |]. now apply pretty_N_go_free.
  - case_decide; [discriminate |]. cbn. split; [discriminate |].
    now apply pretty_N_go_free.
Qed.

Lemma constant_free (sep : ascii) (s : string) :
  free_ofb sep s = true -> free_of sep s.
Proof.
  induction s as [|c s IH]; cbn [free_of free_ofb]; [tauto |].
  intros H. apply andb_true_iff in H as [Hc Hs]. split; [| now apply IH].
  apply negb_true_iff in Hc. now apply Ascii.eqb_neq.
Qed.

Lemma zeros_free (n : Z) : free_of "," (Number.zeros n).
Proof.
  unfold Number.zeros. induction (Z.to_nat n) as [|k IH];
    cbn [replicate fold_right]; [exact I |].
  apply free_of_app; [now apply constant_free | exact IH].
Qed.

Lemma padded_free (width z : Z) : free_of "," (Number.padded width z).
Proof.
  unfold Number.padded. apply free_of_app;
    [apply zeros_free | apply pretty_Z_free].
Qed.

Ltac free_of_comma :=
  repeat first
    [ apply pretty_Z_free | apply zeros_free | apply padded_free
    | apply free_of_app
    | apply constant_free; reflexivity ].

Lemma format_free (s k n : Z) : free_of "," (Number.format s k n).
Proof.
  unfold Number.format. repeat case_match; free_of_comma.
Qed.

(** The text of a number has no comma in it. *)
Lemma toString_free (x : number) : free_of "," (Number.toString x).
Proof.
  destruct x as [s | s | | s m e]; cbn [Number.toString].
  - now apply constant_free.
  - destruct s; now apply constant_free.
  - now apply constant_free.
  - apply free_of_app; [destruct s; now apply constant_free |].
    unfold Number.positive_toString.
    destruct (Number.shortest_from _ _ _ _ _) as [v k].
    apply format_free.
Qed.

(** The filter chain has two stages: the resampler, then the delay on all
    channels. *)
Lemma audio_filter_stages (a : Analysis) :
  filter_stages (audio_filter a)
  = ["aresample=async=1";
     "adelay=" +:+ delay_ms_text (startTime a) +:+ ":all=true"].
Proof.
  unfold filter_stages, audio_filter.
  change ("aresample=async=1,adelay=" +:+
          delay_ms_text (startTime a) +:+ ":all=true")
    with ("aresample=async=1" +:+
          String "," ("adelay=" +:+ delay_ms_text (startTime a)
                      +:+ ":all=true")).
  rewrite split_on_app_sep by now apply constant_free.
  rewrite split_on_free; [reflexivity |].
  apply (free_of_app _ "adelay="); [now apply constant_free |].
  apply free_of_app; [apply toString_free | now apply constant_free].
Qed.

(** C3.  For an audio analysis with a [startTime], on the AAC path and on
    the WAV path alike, [normalizeAudioTrack] issues one command whose
    [-af] filter chain has the resample stage first and the delay stage
    second, the delay being [Math.floor(startTime * 1000)] milliseconds on
    all channels: the floor of the binary64 product, printed as a template
    literal prints it. *)
Theorem audio_filter_resample_then_delay (host : Host) (ctxName : string)
    (a : Analysis) (inputPath outputPath : string) (codec : option string)
    (wd : World) (st : Q) :
  truthy_bool (isVideo a) = false ->
  startTime a = Some st ->
  default "aac" codec = "aac" \/ default "aac" codec = "wav" ->
  exists (c : Command) (chain : string),
    trace (snd (normalizeAudioTrack host ctxName (Some a) inputPath
                                    outputPath codec wd))
    = trace wd ++ [c] /\
    take 4 (args c) = [AStr "-i"; AStr inputPath; AStr "-af"; AStr chain] /\
    filter_stages chain
    = ["aresample=async=1";
       "adelay=" +:+
       Number.toString
         (Math_floor64 (Number.mul (Number.of_Q st) (Number.of_Z 1000)))
       +:+ ":all=true"].
Proof.
  intros Hv Hs Hcodec.
  destruct (normalizeAudioTrack_accepts host ctxName a inputPath outputPath
              codec wd Hv) as (c & Htr & Hhead & _);
    [rewrite Hs; eauto | exact Hcodec |].
  exists c, (audio_filter a). split; [exact Htr |]. split; [exact Hhead |].
  rewrite audio_filter_stages, Hs. reflexivity.
Qed.

Lemma audio_filter_resample_then_delay_witness :
  truthy_bool (isVideo example_audio) = false /\
  startTime example_audio = Some (1234 # 1000) /\
  (default "aac" (Some "wav") = "aac" \/ default "aac" (Some "wav") = "wav")
  /\
  exists (c : Command) (chain : string),
    trace (snd (normalizeAudioTrack good_host "mic" (Some example_audio)
                  "mic.webm" "mic_normalized.wav" (Some "wav")
                  example_world))
    = trace example_world ++ [c] /\
    take 4 (args c) = [AStr "-i"; AStr "mic.webm"; AStr "-af"; AStr chain] /\
    filter_stages chain
    = ["aresample=async=1";
       "adelay=" +:+
       Number.toString
         (Math_floor64
            (Number.mul (Number.of_Q (1234 # 1000)) (Number.of_Z 1000)))
       +:+ ":all=true"].
Proof.
  split; [reflexivity |]. split; [reflexivity |].
  split; [right; reflexivity |].
  apply (audio_filter_resample_then_delay good_host "mic" example_audio
           "mic.webm" "mic_normalized.wav" (Some "wav") example_world
           (1234 # 1000));
    [reflexivity | reflexivity | right; reflexivity].
Defined.

(** The audio scenario of the specification: a [startTime] of 1.234 and the
    codec ['wav'] give a delay of 1234 ms, mono, 16-bit, 48 kHz. *)
Example example_audio_wav :
  map args (trace (snd (normalizeAudioTrack good_host "mic"
                          (Some example_audio) "mic.webm"
                          "mic_normalized.wav" (Some "wav") example_world)))
  = [[AStr "-i"; AStr "mic.webm"; AStr "-af";
      AStr "aresample=async=1,adelay=1234:all=true";
      AStr "-ar"; AStr "48000"; AStr "-ac"; AStr "1";
      AStr "-c:a"; AStr "pcm_s16le"; AStr "mic_normalized.wav"]].
Proof. vm_compute. reflexivity. Qed.

(** Binary64 at work.  The product of 1.001 by 1000 is just below 1001,
    so a track that starts at 1.001 is delayed by 1000 ms; 1.234 gives
    1234 ms. *)
Example delay_below_a_millisecond :
  delay_ms_text (Some (1001 # 1000)) = "1000" /\
  delay_ms_text (Some (1234 # 1000)) = "1234".
Proof. split; vm_compute; reflexivity. Qed.

(** Over the start times 0.000, 0.001, ..., 9.999 the delay is the number
    of milliseconds of the start time or one less, and it is one less for
    95 of them. *)
Example delay_on_the_millisecond_grid :
  delays_on_grid (Z.to_nat 10000) 0 = (true, 95%N).
Proof. vm_compute. reflexivity. Qed.

(** What a template literal prints: every digit of an integer below
    [2^53], the shortest digits that read back as the number above it, and
    the exponent form from [10^21] on. *)
Example delay_texts :
  delay_ms_text (Some 9007199254740) = "9007199254740000" /\
  delay_ms_text (Some 123456789012345678) = "123456789012345680000" /\
  delay_ms_text (Some 1000000000000000000) = "1e+21" /\
  delay_ms_text (Some (-1 # 2000)) = "-1".
Proof. repeat split; vm_compute; reflexivity. Qed.

(** ** A zero [startTime] *)

Lemma of_Q_zero (q : Q) : q == 0 -> Number.of_Q q = S754_zero false.
Proof.
  intros Hq. unfold Number.of_Q.
  assert (Qnum q = 0%Z) as ->; [| reflexivity].
  unfold Qeq in Hq. cbn in Hq. lia.
Qed.

Lemma audio_filter_zero (a : Analysis) (q : Q) :
  startTime a = Some q -> q == 0 ->
  audio_filter a = "aresample=async=1,adelay=0:all=true".
Proof.
  intros Hs Hq. unfold audio_filter, delay_ms_text, delay_ms.
  rewrite Hs, (of_Q_zero q Hq). reflexivity.
Qed.

(** [render_video] throws nothing that the checks throw. *)
Lemma render_video_no_validation_error (host : Host) (ctxName : string)
    (vw vh : Z) (frameRate sourceOffset E : Q) (gs : list Gap)
    (inputPath outputPath : string) (wd : World) (e : Error) :
  fst (render_video host ctxName vw vh frameRate sourceOffset E gs
                    inputPath outputPath wd) = Throw e ->
  ~ is_validation_error e.
Proof.
  intros He [msg ->].
  destruct (render_video_spec host ctxName vw vh frameRate sourceOffset E gs
              inputPath outputPath wd) as (k & _ & _ & Hres).
  rewrite He in Hres. destruct Hres as [[lbl H] | [p H]]; discriminate H.
Qed.

(** ** [normalizeAudioTrack]: the checks *)

Section AudioChecks.
Context (host : Host) (ctxName inputPath outputPath : string) (wd : World).

(** A video analysis. *)
Lemma audio_rejects_video (analysis : option Analysis)
    (codec : option string) :
  truthy_bool (analysis ≫= isVideo) = true ->
  normalizeAudioTrack host ctxName analysis inputPath outputPath codec wd
  = (Throw (JsError msg_audio_expects_audio), wd).
Proof. intros H. unfold normalizeAudioTrack. now rewrite H. Qed.

(** No [startTime]. *)
Lemma audio_rejects_missing_startTime (a : Analysis)
    (codec : option string) :
  truthy_bool (isVideo a) = false ->
  startTime a = None ->
  normalizeAudioTrack host ctxName (Some a) inputPath outputPath codec wd
  = (Throw (JsError msg_audio_expects_startTime), wd).
Proof.
  intros Hv Hs. unfold normalizeAudioTrack. cbn [mbind option_bind].
  now rewrite Hv, Hs.
Qed.

(** A codec that is neither ['aac'] nor ['wav']. *)
Lemma audio_rejects_codec (a : Analysis) (codec : string) :
  truthy_bool (isVideo a) = false ->
  is_Some (startTime a) ->
  codec <> "aac" -> codec <> "wav" ->
  normalizeAudioTrack host ctxName (Some a) inputPath outputPath
                      (Some codec) wd
  = (Throw (JsError (msg_unsupported_codec codec)), wd).
Proof.
  intros Hv [st Hs] Haac Hwav. unfold normalizeAudioTrack.
  cbn [mbind option_bind from_option id]. rewrite Hv, Hs. cbn [is_null].
  apply String.eqb_neq in Haac, Hwav. now rewrite Haac, Hwav.
Qed.

End AudioChecks.

(** ** The combined mux block *)

Lemma truthy_str_Some (s : string) : s <> "" -> truthy_str (Some s) = true.
Proof.
  intros H. cbn. apply String.eqb_neq in H. now rewrite H.
Qed.

Ltac step_rmSync Hf :=
  match goal with
  | |- context [bind (rmSync ?p) _ ?w] =>
      first [ rewrite (bind_Ok _ _ w _ _ (rmSync_present p _ w Hf))
            | rewrite (bind_Throw _ _ w _ _ (rmSync_missing p w Hf)) ]
  end.

(** C8.  With the codec ['aac'], a video file [v] and an audio file [a]
    produced by the invocation, the block issues one command: stream copy
    ([-c copy]) of input 0, stream 0 and input 1, stream 0 into the
    combined file.  When the block returns, the command has succeeded and
    both [v] and [a] are deleted; it returns whenever the command succeeds
    and leaves the two files in place.  With another codec, or without a
    video or an audio file, the block does nothing. *)
Theorem combine_muxes_by_stream_copy (host : Host) (audioCodec : string)
    (st : Paths) (wd : World) :
  (forall v a c,
      audioCodec = "aac" ->
      videoPath st = Some v -> audioPath st = Some a ->
      combinedOutputPath st = Some c ->
      v <> "" -> a <> "" -> c <> "" ->
      let r := combine host audioCodec st wd in
      let cmd := combine_command host v a c in
      exists (ok : bool) (fs' : gmap string string),
        ffmpeg host (label cmd) (args cmd) (recorded cmd wd) = (ok, fs') /\
        trace (snd r) = trace wd ++ [cmd] /\
        args cmd = [AStr "-i"; AStr v; AStr "-i"; AStr a; AStr "-c";
                    AStr "copy"; AStr "-map"; AStr "0:0"; AStr "-map";
                    AStr "1:0"; AStr c] /\
        (fst r = Ok tt ->
         ok = true /\
         files (snd r) !! v = None /\ files (snd r) !! a = None) /\
        (ok = true -> is_Some (fs' !! v) -> is_Some (fs' !! a) -> v <> a ->
         fst r = Ok tt)) /\
  (audioCodec <> "aac" \/ videoPath st = None \/ audioPath st = None ->
   combine host audioCodec st wd = (Ok tt, wd)).
Proof.
  split.
  - intros v a c -> Hv Ha Hc Hv0 Ha0 Hc0. cbn zeta.
    unfold combine. rewrite Hv, Ha, Hc.
    rewrite !truthy_str_Some by assumption. cbn [String.eqb Ascii.eqb
      Bool.eqb andb].
    set (cmd := combine_command host v a c).
    destruct (run_command_spec host cmd wd) as (ok & fs' & Hrun & Hff).
    exists ok, fs'. split; [exact Hff |].
    destruct ok.
    2:{ rewrite (bind_Throw _ _ _ _ _ Hrun). cbn [fst snd trace].
        repeat split; try discriminate. }
    rewrite (bind_Ok _ _ _ _ _ Hrun).
    destruct (fs' !! v) as [cv|] eqn:Hfv.
    2:{ step_rmSync Hfv.
        cbn [fst snd trace]. repeat split; try discriminate.
        intros _ [? H]. discriminate H. }
    step_rmSync Hfv.
    destruct (delete v fs' !! a) as [ca|] eqn:Hfa.
    2:{ step_rmSync Hfa.
        cbn [fst snd trace]. repeat split; try discriminate.
        intros _ _ [ca Hca] Hne. rewrite lookup_delete_ne in Hfa by exact Hne.
        congruence. }
    step_rmSync Hfa.
    cbn [fst snd files trace console_write].
    repeat split.
    + apply lookup_delete_None. right. apply lookup_delete_eq.
    + apply lookup_delete_eq.
  - intros H. unfold combine.
    destruct H as [H | [-> | ->]].
    + apply String.eqb_neq in H. now rewrite H.
    + cbn [truthy_str]. now rewrite andb_false_r.
    + cbn [truthy_str]. now rewrite andb_false_r.
Qed.

(** A video and an AAC file on disk, and the mux command succeeds: the
    block returns and both files are gone. *)
Lemma combine_muxes_by_stream_copy_witness :
  let st := mkPaths (Some "cam_normalized.m4v") (Some "mic_normalized.aac")
                    (Some "cam_combined.mp4") in
  let wd := mkWorld {[ "cam_normalized.m4v" := "media";
                       "mic_normalized.aac" := "media" ]} ∅ [] [] None in
  let r := combine good_host "aac" st wd in
  fst r = Ok tt /\
  trace (snd r)
  = [combine_command good_host "cam_normalized.m4v" "mic_normalized.aac"
                     "cam_combined.mp4"] /\
  files (snd r) !! "cam_normalized.m4v" = None /\
  files (snd r) !! "mic_normalized.aac" = None /\
  files (snd r) !! "cam_combined.mp4" = Some "media" /\
  combine good_host "wav" st wd = (Ok tt, wd).
Proof.
  cbn zeta.
  destruct (combine_muxes_by_stream_copy good_host "aac"
              (mkPaths (Some "cam_normalized.m4v")
                       (Some "mic_normalized.aac")
                       (Some "cam_combined.mp4"))
              (mkWorld {[ "cam_normalized.m4v" := "media";
                          "mic_normalized.aac" := "media" ]} ∅ [] [] None))
    as [Hmux _].
  destruct (Hmux "cam_normalized.m4v" "mic_normalized.aac"
              "cam_combined.mp4" eq_refl eq_refl eq_refl eq_refl)
    as (ok & fs' & _ & Htr & _ & Hdel & _); try discriminate.
  assert (Hok : fst (combine good_host "aac"
                       (mkPaths (Some "cam_normalized.m4v")
                                (Some "mic_normalized.aac")
                                (Some "cam_combined.mp4"))
                       (mkWorld {[ "cam_normalized.m4v" := "media";
                                   "mic_normalized.aac" := "media" ]}
                                ∅ [] [] None)) = Ok tt)
    by (vm_compute; reflexivity).
  destruct (Hdel Hok) as (_ & Hv & Ha).
  split; [exact Hok |]. split; [exact Htr |]. split; [exact Hv |].
  split; [exact Ha |]. split; [vm_compute; reflexivity |].
  apply (combine_muxes_by_stream_copy good_host "wav"). left. discriminate.
Defined.

(** ** The script *)

(** With a codec other than ['aac'] the loop never sets [audioPath]. *)
Lemma process_inputs_keeps_audioPath (host : Host)
    (outputDir audioCodec : string) (inputs : list string) :
  audioCodec <> "aac" ->
  forall (st st' : Paths) (wd wd' : World),
    process_inputs host outputDir audioCodec inputs st wd = (Ok st', wd') ->
    audioPath st' = audioPath st.
Proof.
  intros Hcodec. apply String.eqb_neq in Hcodec.
  induction inputs as [|inputPath rest IH]; intros st st' wd wd' Hrun.
  - cbn in Hrun. now injection Hrun as <- _.
  - cbn [process_inputs] in Hrun. unfold bind at 1 in Hrun.
    destruct (process_input host outputDir audioCodec st inputPath wd)
      as [[st1|e] wd1] eqn:Hone; [| discriminate].
    rewrite (IH _ _ _ _ Hrun). clear IH Hrun.
    unfold process_input, bind, existsSync in Hone.
    destruct (negb _); [discriminate |].
    destruct (await_analyzeTrack _ _ _ _) as [[analysis|?] w2];
      [| discriminate].
    destruct (truthy_bool (isVideo analysis)).
    + destruct (normalizeVideoTrackToM4V _ _ _ _ _ _) as [[[]|?] w3];
        [| discriminate].
      now injection Hone as <- _.
    + destruct (normalizeAudioTrack _ _ _ _ _ _ _) as [[[]|?] w3];
        [| discriminate].
      rewrite Hcodec in Hone. now injection Hone as <- _.
Qed.

(** With the codec ['wav'] the script is its loop and nothing more. *)
Lemma normalize_track_wav (host : Host) (values : CliValues)
    (first : string) (rest : list string) (wd : World) :
  input values = Some (first :: rest) ->
  toLowerCase host (or_else (audio_codec values) "aac") = "wav" ->
  normalize_track host values wd
  = ((if truthy_str (output_dir values)
      then mkdirSync (or_else (output_dir values) (Path_dirname host first))
      else ret tt) ;;
     let* st := process_inputs host
                  (or_else (output_dir values) (Path_dirname host first))
                  "wav" (first :: rest) (mkPaths None None None) in
     ret tt) wd.
Proof.
  intros Hin Hcodec. unfold normalize_track. rewrite Hin, Hcodec.
  reflexivity.
Qed.

(** A run of the script on a video and an audio input with the default
    codec: both are normalised, muxed into the combined file, and the two
    normalised files are deleted. *)
Example script_combines :
  let r := normalize_track script_host
             (mkCliValues (Some ["cam.webm"; "mic.webm"]) None None)
             example_world in
  fst r = Ok tt /\
  map label (trace (snd r))
  = ["convert_cam.webm"; "extractseg_0_cam.webm"; "rendergap_1_cam.webm";
     "extractseg_2_cam.webm"; "concat_cam.webm"; "audio_mic.webm";
     "combine_./cam.webm_combined.mp4"] /\
  dom (files (snd r))
  = ({[ "cam.webm"; "mic.webm"; "./cam.webm_combined.mp4" ]} : gset string).
Proof. cbn zeta. repeat split. Qed.

(** The same run with the codec ['wav']: no mux, and both normalised files
    stay. *)
Example script_wav_does_not_combine :
  let r := normalize_track script_host
             (mkCliValues (Some ["cam.webm"; "mic.webm"]) None (Some "wav"))
             example_world in
  fst r = Ok tt /\
  map label (trace (snd r))
  = ["convert_cam.webm"; "extractseg_0_cam.webm"; "rendergap_1_cam.webm";
     "extractseg_2_cam.webm"; "concat_cam.webm"; "audio_mic.webm_wav"] /\
  dom (files (snd r))
  = ({[ "cam.webm"; "mic.webm"; "./cam.webm_normalized.m4v";
        "./mic.webm_normalized.wav" ]} : gset string).
Proof. cbn zeta. repeat split. Qed.

(** A run on the video alone: nothing to mux. *)
Example script_video_only :
  let r := normalize_track script_host
             (mkCliValues (Some ["cam.webm"]) None None) example_world in
  fst r = Ok tt /\
  map label (trace (snd r))
  = ["convert_cam.webm"; "extractseg_0_cam.webm"; "rendergap_1_cam.webm";
     "extractseg_2_cam.webm"; "concat_cam.webm"].
Proof. cbn zeta. repeat split. Qed.

(** * Further properties *)

(** ** The planner on arbitrary gap lists *)

(** X1.  Whatever the gap list, valid or not, the planner keeps every gap: the
    ['gap'] segments of the plan are the gaps of the input, one for one and
    in the order given, none dropped, merged or clamped; and it never puts
    two source segments next to each other. *)
Theorem planSegments_keeps_every_gap (gaps : list Gap) (endTime : Q) :
  gaps_of (planSegments gaps endTime) = gaps /\
  no_src_src (planSegments gaps endTime).
Proof.
  rewrite planSegments_emit. split.
  - apply gaps_of_emit.
  - apply no_src_src_emit.
Qed.

Lemma emit_length (gaps : list Gap) (t endTime : Q) :
  (length gaps <= length (emit gaps t endTime) <= 2 * length gaps + 1)%nat.
Proof.
  revert t. induction gaps as [|g rest IH]; intros t; cbn [emit length].
  - destruct (Qltb t endTime); cbn; lia.
  - specialize (IH (end_ g)).
    destruct (Qgtb (start g) t); cbn [app length]; lia.
Qed.

(** X2.  The plan has at least one segment per gap and at most one source
    segment before each gap and one after the last. *)
Theorem planSegments_length (gaps : list Gap) (endTime : Q) :
  (length gaps <= length (planSegments gaps endTime)
   <= 2 * length gaps + 1)%nat.
Proof. rewrite planSegments_emit. apply emit_length. Qed.

(** X3.  The plan is empty exactly when there is no gap and [endTime] is not
    positive: a negative [endTime] passes the check of line 131 and gives an
    empty segment list. *)
Theorem planSegments_empty_iff (gaps : list Gap) (endTime : Q) :
  planSegments gaps endTime = [] <-> gaps = [] /\ endTime <= 0.
Proof.
  rewrite planSegments_emit. split.
  - destruct gaps as [|g rest]; cbn [emit].
    + unfold Qltb. destruct (Qgtb endTime 0) eqn:E; [discriminate |].
      intros _. split; [reflexivity | now apply Qgtb_false].
    + destruct (Qgtb (start g) 0); discriminate.
  - intros [-> HE]. cbn [emit]. unfold Qltb.
    apply Qgtb_false in HE. now rewrite HE.
Qed.

(** X4.  A gap that starts at 0 is the first segment, and a gap that ends at
    [endTime] is the last: no empty source segment is put before or after
    them. *)
Theorem planSegments_edge_gaps (gaps : list Gap) (g : Gap) (endTime : Q) :
  (start g == 0 ->
   head (planSegments (g :: gaps) endTime) = Some (gap_segment g)) /\
  (end_ g == endTime ->
   last (planSegments (gaps ++ [g]) endTime) = Some (gap_segment g)).
Proof.
  split.
  - apply planSegments_leading_gap.
  - apply planSegments_trailing_gap.
Qed.

Lemma planSegments_edge_gaps_witness :
  (start (mkGap 0 1) == 0 ->
   head (planSegments (mkGap 0 1 :: [mkGap 4 5]) 5)
   = Some (gap_segment (mkGap 0 1))) /\
  (end_ (mkGap 4 5) == 5 ->
   last (planSegments ([mkGap 0 1] ++ [mkGap 4 5]) 5)
   = Some (gap_segment (mkGap 4 5))).
Proof.
  split.
  - exact (proj1 (planSegments_edge_gaps [mkGap 4 5] (mkGap 0 1) 5)).
  - exact (proj2 (planSegments_edge_gaps [mkGap 0 1] (mkGap 4 5) 5)).
Defined.

(** ** Rounded durations *)

Lemma Math_round_inject_Z (n : Z) (x : Q) :
  x == inject_Z n -> Math_round x = n.
Proof.
  intros Hx. unfold Math_round.
  assert (Hlo : inject_Z n <= x + (1 # 2)) by lra.
  assert (Hhi : x + (1 # 2) < inject_Z (n + 1)).
  { rewrite inject_Z_plus. change (inject_Z 1) with 1. lra. }
  apply Qfloor_resp_le in Hlo. rewrite Qfloor_Z in Hlo.
  pose proof (Qfloor_le (x + (1 # 2))) as Hf.
  assert (Hlt : inject_Z (Qfloor (x + (1 # 2))) < inject_Z (n + 1)) by lra.
  rewrite <- Zlt_Qlt in Hlt. lia.
Qed.

(** A segment whose length is a whole number of milliseconds is rendered
    with exactly its length. *)
Lemma rendered_duration_exact (s : Segment) :
  whole_ms s -> rendered_duration s == duration_of s.
Proof.
  intros [n Hn]. unfold rendered_duration, duration_of.
  rewrite (Math_round_inject_Z n _ Hn), <- Hn. field.
Qed.

(** X5.  When every boundary falls on a whole millisecond, rounding loses
    nothing: the rendered durations add up to the total duration of the
    segments exactly. *)
Theorem rendered_total_exact (segs : list Segment) :
  Forall whole_ms segs -> rendered_total segs == total_duration segs.
Proof.
  induction 1 as [|s rest Hs _ IH].
  - reflexivity.
  - change (rendered_duration s + rendered_total rest
            == duration_of s + total_duration rest).
    rewrite (rendered_duration_exact s Hs), IH. reflexivity.
Qed.

Lemma rendered_total_exact_witness :
  Forall whole_ms (planSegments [mkGap 2 (5 # 2)] 5) /\
  rendered_total (planSegments [mkGap 2 (5 # 2)] 5)
  == total_duration (planSegments [mkGap 2 (5 # 2)] 5).
Proof.
  assert (H : Forall whole_ms (planSegments [mkGap 2 (5 # 2)] 5)).
  { repeat constructor.
    - exists 2000%Z. reflexivity.
    - exists 500%Z. reflexivity.
    - exists 2500%Z. reflexivity. }
  split; [exact H |].
  exact (rendered_total_exact _ H).
Defined.



(** ** The rendering run, stage by stage *)

Lemma append_assoc (s1 s2 s3 : string) :
  (s1 +:+ s2) +:+ s3 = s1 +:+ s2 +:+ s3.
Proof.
  induction s1 as [|c s1 IH]; rewrite ?append_nil, ?append_cons;
    [reflexivity | now rewrite IH].
Qed.

Lemma append_nil_r (s : string) : s +:+ "" = s.
Proof.
  induction s as [|c s IH]; rewrite ?append_nil, ?append_cons;
    [reflexivity | now rewrite IH].
Qed.

(** The segment loop when it returns: every command has been issued, the
    manifest text has grown by one line per segment and the list of
    temporary files by one path per segment. *)
Lemma render_loop_returns (host : Host) (ctxName : string) (vw vh : Z)
    (frameRate sourceOffset : Q) (segments : list Segment) :
  forall (i : nat) (cf : string) (tf : list string) (wd : World)
         (cf' : string) (tf' : list string) (wd' : World),
    render_loop host ctxName vw vh frameRate sourceOffset segments i
                (cf, tf) wd = (Ok (cf', tf'), wd') ->
    cf' = cf +:+ manifest_lines ctxName i (length segments) /\
    tf' = tf ++ seg_paths host ctxName i (length segments) /\
    trace wd' = trace wd ++
                segment_commands host ctxName vw vh frameRate sourceOffset
                                 i segments.
Proof.
  induction segments as [|s rest IH]; intros i cf tf wd cf' tf' wd' Hrun.
  - cbn in Hrun. injection Hrun as <- <- <-.
    cbn. now rewrite append_nil_r, !app_nil_r.
  - cbn [render_loop] in Hrun.
    destruct (run_command_spec host
                (segment_command host ctxName vw vh frameRate sourceOffset i s)
                wd) as (ok & fs' & Hcmd & _).
    destruct ok.
    2:{ rewrite (bind_Throw _ _ _ _ _ Hcmd) in Hrun. discriminate. }
    rewrite (bind_Ok _ _ _ _ _ Hcmd) in Hrun.
    apply IH in Hrun as (-> & -> & ->).
    cbn [length manifest_lines seg_paths segment_commands trace].
    rewrite <- !app_assoc. repeat split.
    now rewrite !append_assoc.
Qed.

(** The segment loop when it throws: the command of some segment [k] has
    failed, the error carries its label, and it is the last command
    issued. *)
Lemma render_loop_throws (host : Host) (ctxName : string) (vw vh : Z)
    (frameRate sourceOffset : Q) (segments : list Segment) :
  forall (i : nat) (st : string * list string) (wd : World)
         (e : Error) (wd' : World),
    render_loop host ctxName vw vh frameRate sourceOffset segments i st wd
    = (Throw e, wd') ->
    exists k s,
      segments !! k = Some s /\
      e = FfmpegError
            (label (segment_command host ctxName vw vh frameRate
                                    sourceOffset (i + k) s)) /\
      trace wd' = trace wd ++
                  take (S k)
                    (segment_commands host ctxName vw vh frameRate
                                      sourceOffset i segments).
Proof.
  induction segments as [|s rest IH]; intros i [cf tf] wd e wd' Hrun.
  - discriminate.
  - cbn [render_loop] in Hrun.
    destruct (run_command_spec host
                (segment_command host ctxName vw vh frameRate sourceOffset i s)
                wd) as (ok & fs' & Hcmd & _).
    destruct ok.
    + rewrite (bind_Ok _ _ _ _ _ Hcmd) in Hrun.
      apply IH in Hrun as (k & s' & Hk & -> & ->).
      exists (S k), s'. split; [exact Hk |].
      rewrite Nat.add_succ_r. split; [reflexivity |].
      cbn [trace segment_commands take]. now rewrite <- app_assoc.
    + rewrite (bind_Throw _ _ _ _ _ Hcmd) in Hrun.
      injection Hrun as <- <-.
      exists 0%nat, s. rewrite Nat.add_0_r. repeat split.
Qed.

(** The three ways a rendering run can go: the conversion fails; the
    command of a segment fails; or the concatenation is reached, with the
    manifest on disk, and after it, when it succeeds, the cleanup. *)
Lemma render_video_outcomes (host : Host) (ctxName : string) (vw vh : Z)
    (frameRate sourceOffset E : Q) (gs : list Gap)
    (inputPath outputPath : string) (wd : World) :
  let r := render_video host ctxName vw vh frameRate sourceOffset E gs
                        inputPath outputPath wd in
  let segs := planSegments gs E in
  let conv := convert_command host ctxName inputPath vw vh frameRate in
  let cmds := segment_commands host ctxName vw vh frameRate sourceOffset 0
                               segs in
  let conc := concat_command host ctxName outputPath in
  (fst r = Throw (FfmpegError (label conv)) /\
   trace (snd r) = trace wd ++ [conv]) \/
  (exists k s,
      segs !! k = Some s /\
      fst r = Throw (FfmpegError
                       (label (segment_command host ctxName vw vh frameRate
                                               sourceOffset k s))) /\
      trace (snd r) = trace wd ++ conv :: take (S k) cmds) \/
  (exists (w3 : World) (ok : bool) (fs4 : gmap string string),
      trace w3 = trace wd ++ conv :: cmds /\
      files w3 !! concat_path host ctxName
      = Some (manifest_lines ctxName 0 (length segs)) /\
      ffmpeg host (label conc) (args conc) (recorded conc w3) = (ok, fs4) /\
      trace (snd r) = trace wd ++ conv :: cmds ++ [conc] /\
      (ok = false ->
       fst r = Throw (FfmpegError (label conc)) /\ files (snd r) = fs4) /\
      (ok = true ->
       r = for_of (temp_artifacts host ctxName (length segs)) rmSync
                  (mkWorld fs4 (dirs w3) (trace w3 ++ [conc]) (console w3)
                           (g_audioEncoderArgs w3)))).
Proof.
  cbn zeta.
  set (segs := planSegments gs E).
  set (conv := convert_command host ctxName inputPath vw vh frameRate).
  set (cmds := segment_commands host ctxName vw vh frameRate sourceOffset 0
                                segs).
  set (conc := concat_command host ctxName outputPath).
  remember (render_video host ctxName vw vh frameRate sourceOffset E gs
                         inputPath outputPath wd) as r eqn:Hr.
  unfold render_video in Hr. fold segs conv conc in Hr.
  unfold bind at 1, console_write at 1 in Hr. cbn iota in Hr.
  match type of Hr with
  | _ = bind (run_command host conv) _ ?wd0 =>
      destruct (run_command_spec host conv wd0) as (ok & fs1 & Hconv & _)
  end.
  cbn [files dirs trace console g_audioEncoderArgs] in Hconv.
  destruct ok.
  2:{ rewrite (bind_Throw _ _ _ _ _ Hconv) in Hr. subst r. left.
      split; reflexivity. }
  rewrite (bind_Ok _ _ _ _ _ Hconv) in Hr.
  match type of Hr with
  | _ = bind (render_loop host ctxName vw vh frameRate sourceOffset segs 0
                          ?st) _ ?wd1 =>
      destruct (render_loop host ctxName vw vh frameRate sourceOffset segs 0
                            st wd1) as [[[cf tf]|e] w2] eqn:Hrl
  end.
  2:{ rewrite (bind_Throw _ _ _ _ _ Hrl) in Hr. subst r. right. left.
      apply render_loop_throws in Hrl as (k & s & Hk & -> & Htr).
      exists k, s. cbn [fst snd]. cbn [trace] in Htr.
      rewrite Htr, Nat.add_0_l, <- app_assoc.
      repeat split; assumption. }
  rewrite (bind_Ok _ _ _ _ _ Hrl) in Hr.
  apply render_loop_returns in Hrl as (-> & -> & Htr).
  cbn [trace] in Htr. fold cmds in Htr. rewrite <- app_assoc in Htr.
  cbn [app] in Htr.
  unfold bind at 1, writeFileSync at 1 in Hr. cbn iota in Hr.
  right. right.
  match type of Hr with
  | _ = bind (run_command host conc) _ ?wd3 =>
      destruct (run_command_spec host conc wd3) as (ok & fs4 & Hconc & Hff);
      exists wd3, ok, fs4
  end.
  cbn [files dirs trace console g_audioEncoderArgs] in Hconc, Hff |- *.
  split; [exact Htr |].
  split; [rewrite append_nil; apply lookup_insert_eq |].
  split; [exact Hff |].
  destruct ok.
  - rewrite (bind_Ok _ _ _ _ _ Hconc) in Hr.
    assert (Hr' : r = for_of (temp_artifacts host ctxName (length segs))
                             rmSync
                             (mkWorld fs4 (dirs w2) (trace w2 ++ [conc])
                                      (console w2) (g_audioEncoderArgs w2))).
    { rewrite Hr. unfold temp_artifacts. reflexivity. }
    split; [| split; [discriminate | intros _; exact Hr']].
    destruct (for_of_rmSync_spec
                (temp_artifacts host ctxName (length segs))
                (mkWorld fs4 (dirs w2) (trace w2 ++ [conc]) (console w2)
                         (g_audioEncoderArgs w2))) as (Htr5 & _).
    cbn zeta in Htr5. rewrite <- Hr' in Htr5. rewrite Htr5. cbn [trace].
    rewrite Htr. now rewrite <- app_assoc.
  - rewrite (bind_Throw _ _ _ _ _ Hconc) in Hr. subst r.
    cbn [fst snd trace files]. rewrite Htr, <- app_assoc.
    repeat split; discriminate.
Qed.

(** X8.  A run that an ffmpeg failure aborts stops at the first command that
    fails: the error carries the label of that command, the command is the
    last one in the trace, and every command before it in the plan has been
    issued, in order. *)
Theorem run_aborts_at_first_failure (host : Host) (ctxName : string)
    (a : Analysis) (inputPath outputPath : string) (wd : World)
    (vw vh : Z) (sourceOffset E : Q) (gs : list Gap) (lbl : string) :
  video_ready a vw vh sourceOffset E gs ->
  fst (normalizeVideoTrackToM4V host ctxName (Some a) inputPath outputPath
                                wd) = Throw (FfmpegError lbl) ->
  exists (k : nat) (c : Command),
    planned_commands host ctxName vw vh (default 30 (frameRate a))
      sourceOffset (planSegments gs E) inputPath outputPath !! k = Some c /\
    label c = lbl /\
    trace (snd (normalizeVideoTrackToM4V host ctxName (Some a) inputPath
                                         outputPath wd))
    = trace wd ++
      take (S k)
        (planned_commands host ctxName vw vh (default 30 (frameRate a))
           sourceOffset (planSegments gs E) inputPath outputPath).
Proof.
  intros Hready.
  rewrite (normalizeVideoTrackToM4V_ready _ _ _ _ _ _ _ _ _ _ Hready).
  intros Hfail. unfold planned_commands.
  destruct (render_video_outcomes host ctxName vw vh
              (default 30 (frameRate a)) sourceOffset E gs inputPath
              outputPath wd)
    as [[He Htr] | [(k & s & Hk & He & Htr)
                   | (w3 & ok & fs4 & Htr3 & _ & _ & Htr & Hko & Hok)]];
    cbn zeta in *.
  - exists 0%nat, (convert_command host ctxName inputPath vw vh
                                   (default 30 (frameRate a))).
    rewrite He in Hfail. injection Hfail as <-.
    split; [reflexivity |]. split; [reflexivity | exact Htr].
  - exists (S k), (segment_command host ctxName vw vh
                     (default 30 (frameRate a)) sourceOffset k s).
    rewrite He in Hfail. injection Hfail as <-.
    assert (Hlt : (k < length (planSegments gs E))%nat)
      by (eapply lookup_lt_Some, Hk).
    split.
    { rewrite lookup_cons, lookup_app_l
        by (rewrite segment_commands_length; exact Hlt).
      now rewrite segment_commands_lookup, Hk. }
    split; [reflexivity |].
    rewrite Htr. cbn [take]. rewrite take_app_le
      by (rewrite segment_commands_length; lia).
    reflexivity.
  - set (n := length (planSegments gs E)).
    exists (S n), (concat_command host ctxName outputPath).
    assert (Hlen : length (segment_commands host ctxName vw vh
                             (default 30 (frameRate a)) sourceOffset 0
                             (planSegments gs E)) = n)
      by apply segment_commands_length.
    destruct ok.
    + specialize (Hok eq_refl). rewrite Hok in Hfail.
      match type of Hfail with
      | fst (for_of ?l rmSync ?w) = _ =>
          destruct (for_of_rmSync_spec l w) as (_ & _ & _ & _ & _ & Hres)
      end.
      cbn zeta in Hres. rewrite Hfail in Hres. destruct Hres as [p Hp].
      discriminate Hp.
    + destruct (Hko eq_refl) as [He _]. rewrite He in Hfail.
      injection Hfail as <-.
      split.
      { rewrite lookup_cons, lookup_app_r by lia.
        now rewrite Hlen, Nat.sub_diag. }
      split; [reflexivity |].
      rewrite Htr. f_equal. symmetry. apply firstn_all2.
      cbn [length]. rewrite length_app, Hlen. cbn. lia.
Qed.

Lemma run_aborts_at_first_failure_witness :
  video_ready example_video 1280 720 (1 # 5) 5 [mkGap 2 (5 # 2)] /\
  fst (normalizeVideoTrackToM4V failing_host "cam" (Some example_video)
         "cam.webm" "cam_normalized.m4v" example_world)
  = Throw (FfmpegError "extractseg_0_cam") /\
  exists (k : nat) (c : Command),
    planned_commands failing_host "cam" 1280 720
      (default 30 (frameRate example_video)) (1 # 5)
      (planSegments [mkGap 2 (5 # 2)] 5) "cam.webm" "cam_normalized.m4v"
      !! k = Some c /\
    label c = "extractseg_0_cam" /\
    trace (snd (normalizeVideoTrackToM4V failing_host "cam"
                  (Some example_video) "cam.webm" "cam_normalized.m4v"
                  example_world))
    = trace example_world ++
      take (S k)
        (planned_commands failing_host "cam" 1280 720
           (default 30 (frameRate example_video)) (1 # 5)
           (planSegments [mkGap 2 (5 # 2)] 5) "cam.webm"
           "cam_normalized.m4v").
Proof.
  assert (Hfail :
    fst (normalizeVideoTrackToM4V failing_host "cam" (Some example_video)
           "cam.webm" "cam_normalized.m4v" example_world)
    = Throw (FfmpegError "extractseg_0_cam")) by (vm_compute; reflexivity).
  split; [exact example_video_ready |]. split; [exact Hfail |].
  exact (run_aborts_at_first_failure failing_host "cam" example_video
           "cam.webm" "cam_normalized.m4v" example_world 1280 720 (1 # 5) 5
           [mkGap 2 (5 # 2)] "extractseg_0_cam" example_video_ready Hfail).
Defined.

(** X9.  The concatenation reads a manifest that lists the segment files in the
    order of the plan: when the run returns, the concat command was handed
    to ffmpeg, after the conversion and every segment command, on a disk
    where the manifest holds one line [file '<name>'] per segment, from
    segment 0 on. *)
Theorem concat_reads_manifest_in_plan_order (host : Host)
    (ctxName : string) (a : Analysis) (inputPath outputPath : string)
    (wd : World) (vw vh : Z) (sourceOffset E : Q) (gs : list Gap) :
  video_ready a vw vh sourceOffset E gs ->
  fst (normalizeVideoTrackToM4V host ctxName (Some a) inputPath outputPath
                                wd) = Ok tt ->
  exists w : World,
    trace w
    = trace wd ++
      convert_command host ctxName inputPath vw vh
                      (default 30 (frameRate a))
      :: segment_commands host ctxName vw vh (default 30 (frameRate a))
                          sourceOffset 0 (planSegments gs E) /\
    files w !! concat_path host ctxName
    = Some (manifest_lines ctxName 0 (length (planSegments gs E))) /\
    fst (ffmpeg host (label (concat_command host ctxName outputPath))
                (args (concat_command host ctxName outputPath))
                (recorded (concat_command host ctxName outputPath) w))
    = true.
Proof.
  intros Hready.
  rewrite (normalizeVideoTrackToM4V_ready _ _ _ _ _ _ _ _ _ _ Hready).
  intros Hret.
  destruct (render_video_outcomes host ctxName vw vh
              (default 30 (frameRate a)) sourceOffset E gs inputPath
              outputPath wd)
    as [[He _] | [(k & s & _ & He & _)
                 | (w3 & ok & fs4 & Htr3 & Hman & Hff & _ & Hko & _)]];
    cbn zeta in *; try (rewrite He in Hret; discriminate Hret).
  exists w3. split; [exact Htr3 |]. split; [exact Hman |].
  rewrite Hff. destruct ok; [reflexivity |].
  destruct (Hko eq_refl) as [He _]. rewrite He in Hret. discriminate Hret.
Qed.

Lemma example_video_returns :
  fst (normalizeVideoTrackToM4V good_host "cam" (Some example_video)
         "cam.webm" "cam_normalized.m4v" example_world) = Ok tt.
Proof. vm_compute. reflexivity. Qed.

Lemma concat_reads_manifest_in_plan_order_witness :
  video_ready example_video 1280 720 (1 # 5) 5 [mkGap 2 (5 # 2)] /\
  fst (normalizeVideoTrackToM4V good_host "cam" (Some example_video)
         "cam.webm" "cam_normalized.m4v" example_world) = Ok tt /\
  exists w : World,
    trace w
    = trace example_world ++
      convert_command good_host "cam" "cam.webm" 1280 720
                      (default 30 (frameRate example_video))
      :: segment_commands good_host "cam" 1280 720
           (default 30 (frameRate example_video)) (1 # 5) 0
           (planSegments [mkGap 2 (5 # 2)] 5) /\
    files w !! concat_path good_host "cam"
    = Some (manifest_lines "cam" 0
              (length (planSegments [mkGap 2 (5 # 2)] 5))) /\
    fst (ffmpeg good_host
           (label (concat_command good_host "cam" "cam_normalized.m4v"))
           (args (concat_command good_host "cam" "cam_normalized.m4v"))
           (recorded (concat_command good_host "cam" "cam_normalized.m4v")
                     w))
    = true.
Proof.
  split; [exact example_video_ready |].
  split; [exact example_video_returns |].
  exact (concat_reads_manifest_in_plan_order good_host "cam" example_video
           "cam.webm" "cam_normalized.m4v" example_world 1280 720 (1 # 5) 5
           [mkGap 2 (5 # 2)] example_video_ready example_video_returns).
Defined.

(** The manifest of the scenario. *)
Example example_manifest :
  manifest_lines "cam" 0 3
  = "file 'rawtracks_cam_seg0.m4v'" +:+ newline +:+
    "file 'rawtracks_cam_seg1.m4v'" +:+ newline +:+
    "file 'rawtracks_cam_seg2.m4v'" +:+ newline.
Proof. vm_compute. reflexivity. Qed.

Lemma all_segments_rendered_on_return_witness :
  video_ready example_video 1280 720 (1 # 5) 5 [mkGap 2 (5 # 2)] /\
  fst (normalizeVideoTrackToM4V good_host "cam" (Some example_video)
         "cam.webm" "cam_normalized.m4v" example_world) = Ok tt /\
  trace (snd (normalizeVideoTrackToM4V good_host "cam" (Some example_video)
                "cam.webm" "cam_normalized.m4v" example_world))
  = trace example_world ++
    planned_commands good_host "cam" 1280 720
      (default 30 (frameRate example_video)) (1 # 5)
      (planSegments [mkGap 2 (5 # 2)] 5) "cam.webm" "cam_normalized.m4v".
Proof.
  split; [exact example_video_ready |].
  split; [exact example_video_returns |].
  exact (all_segments_rendered_on_return good_host "cam" example_video
           "cam.webm" "cam_normalized.m4v" example_world 1280 720 (1 # 5) 5
           [mkGap 2 (5 # 2)] example_video_ready example_video_returns).
Defined.

(** ** The names of the temporary files *)

Lemma string_length_app (s1 s2 : string) :
  String.length (s1 +:+ s2) = (String.length s1 + String.length s2)%nat.
Proof.
  induction s1 as [|c s1 IH]; rewrite ?append_nil, ?append_cons;
    cbn [String.length]; [reflexivity | now rewrite IH].
Qed.

Lemma append_inv_tail (s1 s2 t : string) :
  s1 +:+ t = s2 +:+ t -> s1 = s2.
Proof.
  revert s2. induction s1 as [|c s1 IH]; intros [|c2 s2] H.
  - reflexivity.
  - apply (f_equal String.length) in H.
    rewrite append_nil, string_length_app in H. cbn in H. lia.
  - apply (f_equal String.length) in H.
    rewrite append_nil, string_length_app in H. cbn in H. lia.
  - rewrite !append_cons in H. injection H as -> H. f_equal. now apply IH.
Qed.

(** No two segments of a run share a file name. *)
Lemma seg_file_name_inj (ctxName : string) (i j : nat) :
  seg_file_name ctxName i = seg_file_name ctxName j -> i = j.
Proof.
  unfold seg_file_name. intros H.
  apply String.app_inj, String.app_inj, String.app_inj in H.
  apply append_inv_tail in H. now apply (inj pretty) in H.
Qed.

Lemma seg_names_seq (ctxName : string) (i n : nat) :
  seg_names ctxName i n = map (seg_file_name ctxName) (seq i n).
Proof.
  revert i. induction n as [|n IH]; intros i; cbn; [reflexivity |].
  now rewrite IH.
Qed.

Lemma seg_names_NoDup (ctxName : string) (i n : nat) :
  NoDup (seg_names ctxName i n).
Proof.
  rewrite seg_names_seq. apply NoDup_fmap_2; [| apply NoDup_seq].
  intros x y. apply seg_file_name_inj.
Qed.

Lemma seg_name_not_full (ctxName : string) (i : nat) :
  seg_file_name ctxName i <> g_tempFilePrefix +:+ ctxName +:+ "_full.m4v".
Proof.
  unfold seg_file_name. intros H.
  apply String.app_inj, String.app_inj in H.
  rewrite !append_cons in H. discriminate H.
Qed.

Lemma seg_name_not_concat (ctxName : string) (i : nat) :
  seg_file_name ctxName i <> g_tempFilePrefix +:+ ctxName +:+ "_concat.txt".
Proof.
  unfold seg_file_name. intros H.
  apply String.app_inj, String.app_inj in H.
  rewrite !append_cons in H. discriminate H.
Qed.

Lemma elem_of_seg_names (ctxName : string) (i n : nat) (name : string) :
  name ∈ seg_names ctxName i n -> exists j, name = seg_file_name ctxName j.
Proof.
  rewrite seg_names_seq. intros H. apply list_elem_of_fmap in H as (j & -> & _).
  now exists j.
Qed.

Lemma temp_names_NoDup (ctxName : string) (n : nat) :
  NoDup (temp_names ctxName n).
Proof.
  unfold temp_names. apply NoDup_cons. split.
  - intros H. apply elem_of_app in H as [H | H].
    + apply elem_of_seg_names in H as [j Hj]. symmetry in Hj.
      now apply seg_name_not_full in Hj.
    + apply list_elem_of_singleton in H.
      apply String.app_inj, String.app_inj in H. discriminate H.
  - apply NoDup_app. split; [apply seg_names_NoDup |]. split.
    + intros name H Hc. apply list_elem_of_singleton in Hc. subst name.
      apply elem_of_seg_names in H as [j Hj]. symmetry in Hj.
      now apply seg_name_not_concat in Hj.
    + apply NoDup_singleton.
Qed.

Lemma seg_paths_names (host : Host) (ctxName : string) (i n : nat) :
  seg_paths host ctxName i n
  = map (Path_resolve host tmpDir) (seg_names ctxName i n).
Proof.
  revert i. induction n as [|n IH]; intros i; cbn; [reflexivity |].
  now rewrite IH.
Qed.

Lemma temp_artifacts_names (host : Host) (ctxName : string) (n : nat) :
  temp_artifacts host ctxName n
  = map (Path_resolve host tmpDir) (temp_names ctxName n).
Proof.
  unfold temp_artifacts, temp_names. cbn [map].
  rewrite map_app, seg_paths_names. reflexivity.
Qed.

Lemma temp_artifacts_distinct (host : Host) (ctxName : string) (n : nat) :
  resolve_distinct host (temp_names ctxName n) ->
  NoDup (temp_artifacts host ctxName n).
Proof.
  intros Hinj. rewrite temp_artifacts_names.
  apply NoDup_fmap_2_strong; [exact Hinj | apply temp_names_NoDup].
Qed.

(** ** [Path.resolve] on the names of the temporary files *)

Lemma free_of_app_inv (sep : ascii) (s1 s2 : string) :
  free_of sep (s1 +:+ s2) -> free_of sep s1 /\ free_of sep s2.
Proof.
  induction s1 as [|c s1 IH];
    rewrite ?append_nil, ?append_cons; cbn [free_of]; [tauto |].
  intros [Hc H]. destruct (IH H). tauto.
Qed.

Lemma pretty_N_char_not_slash (d : N) : pretty_N_char d <> "/"%char.
Proof. unfold pretty_N_char. repeat case_match; discriminate. Qed.

Lemma pretty_N_go_no_slash (x : N) :
  forall s, free_of "/" s -> free_of "/" (pretty_N_go x s).
Proof.
  induction (N.lt_wf_0 x) as [x _ IH]. intros s Hs.
  destruct (N.eq_dec x 0%N) as [-> | Hx].
  - now rewrite pretty_N_go_0.
  - assert (0 < x)%N as Hpos by lia.
    rewrite (pretty_N_go_step x s Hpos).
    apply IH; [now apply N.div_lt |].
    split; [apply pretty_N_char_not_slash | exact Hs].
Qed.

Lemma pretty_nat_no_slash (n : nat) : free_of "/" (pretty n).
Proof.
  unfold pretty, pretty_nat, pretty, pretty_N.
  case_decide; [now apply constant_free |].
  now apply pretty_N_go_no_slash.
Qed.

(** The name of a temporary file is a single path segment when the context
    name has no separator in it. *)
Lemma temp_name_plain (ctxName : string) (n : nat) (name : string) :
  free_of "/" ctxName ->
  name ∈ temp_names ctxName n ->
  free_of "/" name /\ name <> "" /\ name <> "." /\ name <> "..".
Proof.
  intros Hctx Hin.
  assert (Hshape : exists tail, name = g_tempFilePrefix +:+ ctxName +:+ tail
                                /\ free_of "/" tail).
  { unfold temp_names in Hin. apply elem_of_cons in Hin as [-> | Hin].
    { eexists. split; [reflexivity | now apply constant_free]. }
    apply elem_of_app in Hin as [Hin | Hin].
    - apply elem_of_seg_names in Hin as [i ->]. unfold seg_file_name.
      eexists. split; [reflexivity |].
      apply (free_of_app _ "_seg"); [now apply constant_free |].
      apply free_of_app; [apply pretty_nat_no_slash |].
      now apply constant_free.
    - apply list_elem_of_singleton in Hin as ->.
      eexists. split; [reflexivity | now apply constant_free]. }
  destruct Hshape as (tail & -> & Htail). split.
  - apply free_of_app; [now apply constant_free |].
    now apply free_of_app.
  - repeat split; discriminate.
Qed.

(** A [Path.resolve] that joins single segments tells the temporary files
    of a run apart, whatever else it does. *)
Lemma resolve_joins_plain_distinct (host : Host) (ctxName : string)
    (n : nat) :
  resolve_joins_plain host ->
  free_of "/" ctxName ->
  resolve_distinct host (temp_names ctxName n).
Proof.
  intros Hjoin Hctx x y Hx Hy Heq.
  destruct (temp_name_plain ctxName n x Hctx Hx) as (Hx1 & Hx2 & Hx3 & Hx4).
  destruct (temp_name_plain ctxName n y Hctx Hy) as (Hy1 & Hy2 & Hy3 & Hy4).
  rewrite (Hjoin x), (Hjoin y) in Heq by assumption.
  now apply String.app_inj, String.app_inj in Heq.
Qed.

Lemma prefix_slash_plain (name : string) :
  free_of "/" name -> String.prefix "/" name = false.
Proof.
  destruct name as [|c name]; [reflexivity |]. cbn [free_of String.prefix].
  intros [Hc _]. destruct (Ascii.ascii_dec "/" c) as [<- | _];
    [now destruct Hc | reflexivity].
Qed.

(** The normalising [Path.resolve] joins single segments, as Node's
    does. *)
Lemma posix_resolve_joins_plain (cwd : string) (name : string) :
  free_of "/" name -> name <> "" -> name <> "." -> name <> ".." ->
  posix_resolve cwd tmpDir name = tmpDir +:+ "/" +:+ name.
Proof.
  intros Hfree H0 H1 H2. unfold posix_resolve.
  rewrite (prefix_slash_plain name Hfree).
  change (String.prefix "/" tmpDir) with true. cbn iota.
  change (tmpDir +:+ "/" +:+ name)
    with ("" +:+ String "/" ("tmp" +:+ String "/" name)).
  rewrite split_on_app_sep by exact I.
  rewrite split_on_app_sep by now apply constant_free.
  rewrite (split_on_free _ _ Hfree).
  apply String.eqb_neq in H0, H1, H2.
  cbn [normalize_segments String.eqb Ascii.eqb Bool.eqb orb].
  rewrite H0, H1, H2. reflexivity.
Qed.

Lemma posix_host_joins_plain : resolve_joins_plain posix_host.
Proof. intros name. apply posix_resolve_joins_plain. Qed.

(** It does not tell all names apart: these two context names give the
    same intermediate clip. *)
Example posix_resolve_collision :
  tmpSource_path posix_host "b"
  = tmpSource_path posix_host "x/../rawtracks_b".
Proof. vm_compute. reflexivity. Qed.

(** X10.  Within one run no two temporary artifacts share a path, as long as
    [Path.resolve] tells the names of the run apart: the intermediate clip,
    the segment files and the manifest are [n + 2] different files. *)
Theorem temp_artifacts_NoDup (host : Host) (ctxName : string) (n : nat) :
  resolve_distinct host (temp_names ctxName n) ->
  NoDup (temp_artifacts host ctxName n) /\
  length (temp_artifacts host ctxName n) = (n + 2)%nat.
Proof.
  intros Hinj. split.
  - now apply temp_artifacts_distinct.
  - unfold temp_artifacts. cbn [length]. rewrite length_app.
    rewrite seg_paths_names, length_map, seg_names_seq, length_map,
      length_seq.
    cbn. lia.
Qed.

Lemma posix_cam_distinct (n : nat) :
  resolve_distinct posix_host (temp_names "cam" n).
Proof.
  apply resolve_joins_plain_distinct; [exact posix_host_joins_plain |].
  now apply constant_free.
Qed.

Lemma temp_artifacts_NoDup_witness :
  resolve_distinct posix_host (temp_names "cam" 3) /\
  NoDup (temp_artifacts posix_host "cam" 3) /\
  length (temp_artifacts posix_host "cam" 3) = (3 + 2)%nat.
Proof.
  split; [apply posix_cam_distinct |].
  exact (temp_artifacts_NoDup posix_host "cam" 3 (posix_cam_distinct 3)).
Defined.

(** ** A run on a well-behaved ffmpeg *)

Lemma output_path_snoc (argv : list arg) (p : string) :
  output_path (argv ++ [AStr p]) = Some p.
Proof. unfold output_path. now rewrite last_snoc. Qed.

Lemma segment_command_output (host : Host) (ctxName : string) (vw vh : Z)
    (frameRate sourceOffset : Q) (i : nat) (s : Segment) :
  output_path (args (segment_command host ctxName vw vh frameRate
                                     sourceOffset i s))
  = Some (Path_resolve host tmpDir (seg_file_name ctxName i)).
Proof.
  unfold segment_command. destruct (type s); cbn [args].
  - reflexivity.
  - rewrite app_assoc. apply output_path_snoc.
Qed.

Lemma run_command_well_behaved (host : Host) (c : Command) (p : string)
    (wd : World) :
  ffmpeg_well_behaved host ->
  output_path (args c) = Some p ->
  exists data,
    run_command host c wd
    = (Ok tt, mkWorld (<[p := data]> (files wd)) (dirs wd) (trace wd ++ [c])
                      (console wd) (g_audioEncoderArgs wd)).
Proof.
  intros Hwb Hout.
  destruct (run_command_spec host c wd) as (ok & fs' & Hrun & Hff).
  destruct (Hwb (label c) (args c) (recorded c wd) p Hout) as [data Hd].
  unfold recorded in Hd. rewrite Hd in Hff. injection Hff as <- <-.
  now exists data.
Qed.

(** On a well-behaved ffmpeg the segment loop returns, has written every
    segment file, and has touched no other file. *)
Lemma render_loop_well_behaved (host : Host) (ctxName : string) (vw vh : Z)
    (frameRate sourceOffset : Q) (segments : list Segment) :
  ffmpeg_well_behaved host ->
  forall (i : nat) (st : string * list string) (wd : World),
  exists st' wd',
    render_loop host ctxName vw vh frameRate sourceOffset segments i st wd
    = (Ok st', wd') /\
    (forall p, p ∈ seg_paths host ctxName i (length segments) ->
               is_Some (files wd' !! p)) /\
    (forall p, p ∉ seg_paths host ctxName i (length segments) ->
               files wd' !! p = files wd !! p).
Proof.
  intros Hwb. induction segments as [|s rest IH]; intros i [cf tf] wd.
  - do 2 eexists. split; [reflexivity |]. split.
    + intros p Hp. now apply elem_of_nil in Hp.
    + reflexivity.
  - cbn [render_loop length seg_paths].
    destruct (run_command_well_behaved host _ _ wd Hwb
                (segment_command_output host ctxName vw vh frameRate
                                        sourceOffset i s)) as [data Hrun].
    rewrite (bind_Ok _ _ _ _ _ Hrun).
    match goal with
    | |- context [render_loop _ _ _ _ _ _ rest (S i) ?st1 ?wd1] =>
        destruct (IH (S i) st1 wd1) as (st' & wd' & -> & Hin & Hout)
    end.
    cbn [files] in Hout.
    exists st', wd'. split; [reflexivity |]. split.
    + intros p Hp.
      destruct (decide (p ∈ seg_paths host ctxName (S i) (length rest)))
        as [Hr | Hr]; [now apply Hin |].
      apply elem_of_cons in Hp as [-> | Hp]; [| contradiction].
      rewrite (Hout _ Hr), lookup_insert_eq. eauto.
    + intros p Hp. apply not_elem_of_cons in Hp as [Hne Hp].
      rewrite (Hout _ Hp). now apply lookup_insert_ne.
Qed.

(** The cleanup loop on a list without repetition whose files are all
    there: it returns and has deleted these files and no other. *)
Lemma for_of_rmSync_all_present (paths : list string) :
  NoDup paths ->
  forall wd : World,
    (forall p, p ∈ paths -> is_Some (files wd !! p)) ->
    fst (for_of paths rmSync wd) = Ok tt /\
    (forall p, p ∉ paths ->
               files (snd (for_of paths rmSync wd)) !! p = files wd !! p).
Proof.
  induction 1 as [|p rest Hnotin _ IH]; intros wd Hall.
  - split; reflexivity.
  - cbn [for_of].
    destruct (Hall p) as [content Hp]; [apply elem_of_cons; now left |].
    rewrite (bind_Ok _ _ _ _ _ (rmSync_present _ _ _ Hp)).
    match goal with
    | |- context [for_of rest rmSync ?wd1] =>
        destruct (IH wd1) as [Hok Hframe]
    end.
    { intros q Hq. cbn [files]. rewrite lookup_delete_ne.
      - apply Hall, elem_of_cons. now right.
      - intros ->. contradiction. }
    split; [exact Hok |].
    intros q Hq. apply not_elem_of_cons in Hq as [Hne Hq].
    rewrite (Hframe _ Hq). cbn [files]. now apply lookup_delete_ne.
Qed.

(** X12.  On an ffmpeg that always succeeds and only writes its output file,
    with a [Path.resolve] that tells the temporary files of the run apart,
    a run on an analysis that passes the checks returns, leaves the output
    file on disk, leaves none of its temporary artifacts, and changes no
    other file. *)
Theorem run_on_well_behaved_ffmpeg (host : Host) (ctxName : string)
    (a : Analysis) (inputPath outputPath : string) (wd : World)
    (vw vh : Z) (sourceOffset E : Q) (gs : list Gap) :
  ffmpeg_well_behaved host ->
  resolve_distinct host (temp_names ctxName (length (planSegments gs E))) ->
  video_ready a vw vh sourceOffset E gs ->
  outputPath ∉ temp_artifacts host ctxName (length (planSegments gs E)) ->
  let r := normalizeVideoTrackToM4V host ctxName (Some a) inputPath
                                    outputPath wd in
  fst r = Ok tt /\
  is_Some (files (snd r) !! outputPath) /\
  artifacts_released host ctxName (length (planSegments gs E)) (snd r) /\
  (forall p,
      p <> outputPath ->
      p ∉ temp_artifacts host ctxName (length (planSegments gs E)) ->
      files (snd r) !! p = files wd !! p).
Proof.
  intros Hwb Hinj Hready Hout. cbn zeta.
  rewrite (normalizeVideoTrackToM4V_ready _ _ _ _ _ _ _ _ _ _ Hready).
  set (fr := default 30 (frameRate a)).
  set (n := length (planSegments gs E)) in *.
  assert (Hrel : fst (render_video host ctxName vw vh fr sourceOffset E gs
                                   inputPath outputPath wd) = Ok tt ->
                 artifacts_released host ctxName n
                   (snd (render_video host ctxName vw vh fr sourceOffset E
                                      gs inputPath outputPath wd))).
  { intros Hok.
    destruct (render_video_spec host ctxName vw vh fr sourceOffset E gs
                inputPath outputPath wd) as (k & _ & _ & Hres).
    rewrite Hok in Hres. exact (proj2 Hres). }
  remember (render_video host ctxName vw vh fr sourceOffset E gs inputPath
                         outputPath wd) as r eqn:Hr.
  unfold render_video in Hr.
  unfold bind at 1, console_write at 1 in Hr. cbn iota in Hr.
  match type of Hr with
  | _ = bind (run_command host ?conv) _ ?wd0 =>
      destruct (run_command_well_behaved host conv
                  (tmpSource_path host ctxName) wd0 Hwb) as [d1 Hconv]
  end.
  { unfold convert_command. cbn [args]. rewrite app_assoc.
    apply output_path_snoc. }
  rewrite (bind_Ok _ _ _ _ _ Hconv) in Hr. cbn [files] in Hr.
  match type of Hr with
  | _ = bind (render_loop host ctxName vw vh fr sourceOffset ?segs 0 ?st)
             _ ?wd1 =>
      destruct (render_loop_well_behaved host ctxName vw vh fr sourceOffset
                  segs Hwb 0 st wd1)
        as ([cf tf] & w2 & Hloop & Hin & Hframe);
      pose proof (render_loop_returns _ _ _ _ _ _ _ _ _ _ _ _ _ _ Hloop)
        as (_ & Htf & _)
  end.
  fold n in Hin, Hframe, Htf. cbn [files] in Hframe.
  rewrite (bind_Ok _ _ _ _ _ Hloop) in Hr.
  unfold bind at 1, writeFileSync at 1 in Hr. cbn iota in Hr.
  match type of Hr with
  | _ = bind (run_command host ?conc) _ ?wd3 =>
      destruct (run_command_well_behaved host conc outputPath wd3 Hwb)
        as [d4 Hconc]
  end.
  { reflexivity. }
  rewrite (bind_Ok _ _ _ _ _ Hconc) in Hr. cbn [files] in Hr.
  assert (Htemps : tf ++ [concat_path host ctxName]
                   = temp_artifacts host ctxName n).
  { rewrite Htf. reflexivity. }
  rewrite Htemps in Hr.
  pose proof (temp_artifacts_distinct host ctxName n Hinj) as Hnodup.
  match type of Hr with
  | _ = for_of _ rmSync ?wd5 =>
      destruct (for_of_rmSync_all_present _ Hnodup wd5) as [Hok Hkeep]
  end.
  { intros p Hp. cbn [files].
    destruct (decide (p = outputPath)) as [-> | Hne];
      [rewrite lookup_insert_eq; eauto |].
    rewrite lookup_insert_ne by congruence.
    destruct (decide (p = concat_path host ctxName)) as [-> | Hnc];
      [rewrite lookup_insert_eq; eauto |].
    rewrite lookup_insert_ne by congruence.
    destruct (decide (p ∈ seg_paths host ctxName 0 n)) as [Hs | Hs];
      [now apply Hin |].
    rewrite (Hframe _ Hs).
    unfold temp_artifacts in Hp.
    apply elem_of_cons in Hp as [-> | Hp];
      [rewrite lookup_insert_eq; eauto |].
    apply elem_of_app in Hp as [Hp | Hp]; [contradiction |].
    apply list_elem_of_singleton in Hp. contradiction. }
  rewrite <- Hr in Hok, Hkeep. cbn [files] in Hkeep.
  split; [exact Hok |]. split; [| split; [exact (Hrel Hok) |]].
  - rewrite (Hkeep _ Hout), lookup_insert_eq. eauto.
  - intros p Hne Hp. rewrite (Hkeep _ Hp).
    rewrite lookup_insert_ne by congruence.
    unfold temp_artifacts in Hp.
    apply not_elem_of_cons in Hp as [Hsrc Hp].
    apply not_elem_of_app in Hp as [Hseg Hconcat].
    rewrite lookup_insert_ne
      by (intros Heq; apply Hconcat, list_elem_of_singleton; congruence).
    rewrite (Hframe _ Hseg). now apply lookup_insert_ne.
Qed.

Lemma posix_host_well_behaved : ffmpeg_well_behaved posix_host.
Proof.
  intros lbl argv wd p Hout. exists "media". cbn. unfold ffmpeg_writes.
  now rewrite Hout.
Qed.

Lemma example_output_not_temporary :
  "/work/cam_normalized.m4v"
    ∉ temp_artifacts posix_host "cam"
        (length (planSegments [mkGap 2 (5 # 2)] 5)).
Proof.
  intros H. vm_compute in H.
  repeat (apply elem_of_cons in H as [H | H]; [discriminate H |]).
  now apply elem_of_nil in H.
Qed.

Lemma run_on_well_behaved_ffmpeg_witness :
  ffmpeg_well_behaved posix_host /\
  resolve_distinct posix_host
    (temp_names "cam" (length (planSegments [mkGap 2 (5 # 2)] 5))) /\
  video_ready example_video 1280 720 (1 # 5) 5 [mkGap 2 (5 # 2)] /\
  ("/work/cam_normalized.m4v"
     ∉ temp_artifacts posix_host "cam"
         (length (planSegments [mkGap 2 (5 # 2)] 5))) /\
  (let r := normalizeVideoTrackToM4V posix_host "cam" (Some example_video)
              "cam.webm" "/work/cam_normalized.m4v" example_world in
   fst r = Ok tt /\
   is_Some (files (snd r) !! "/work/cam_normalized.m4v") /\
   artifacts_released posix_host "cam"
     (length (planSegments [mkGap 2 (5 # 2)] 5)) (snd r) /\
   (forall p,
       p <> "/work/cam_normalized.m4v" ->
       p ∉ temp_artifacts posix_host "cam"
             (length (planSegments [mkGap 2 (5 # 2)] 5)) ->
       files (snd r) !! p = files example_world !! p)).
Proof.
  split; [exact posix_host_well_behaved |].
  split; [apply posix_cam_distinct |].
  split; [exact example_video_ready |].
  split; [exact example_output_not_temporary |].
  exact (run_on_well_behaved_ffmpeg posix_host "cam" example_video
           "cam.webm" "/work/cam_normalized.m4v" example_world 1280 720
           (1 # 5) 5 [mkGap 2 (5 # 2)] posix_host_well_behaved
           (posix_cam_distinct _) example_video_ready
           example_output_not_temporary).
Defined.

(** ** The encoder resolver on every input *)

Lemma prefix_spec (needle hay : string) :
  String.prefix needle hay = true <-> exists post, hay = needle +:+ post.
Proof.
  revert hay. induction needle as [|c needle IH]; intros hay.
  - split; [intros _; now exists hay | intros _; now destruct hay].
  - destruct hay as [|c' hay]; cbn [String.prefix].
    + split; [discriminate | intros [post H]; discriminate H].
    + destruct (Ascii.ascii_dec c c') as [-> | Hne].
      * rewrite IH. split; intros [post H]; exists post.
        -- now rewrite append_cons, H.
        -- rewrite append_cons in H. now injection H.
      * split; [discriminate |]. intros [post H].
        rewrite append_cons in H. injection H as H _. congruence.
Qed.

(** [includes] finds exactly the substrings. *)
Lemma includes_spec (needle hay : string) :
  includes needle hay = true <->
  exists pre post, hay = pre +:+ needle +:+ post.
Proof.
  induction hay as [|c hay IH]; cbn [includes]; rewrite orb_true_iff.
  - rewrite prefix_spec. split.
    + intros [[post H] | H]; [| discriminate]. now exists "", post.
    + intros (pre & post & H). left. destruct pre as [|c pre].
      * now exists post.
      * rewrite append_cons in H. discriminate H.
  - rewrite prefix_spec, IH. split.
    + intros [[post H] | (pre & post & H)].
      * now exists "", post.
      * exists (String c pre), post. now rewrite append_cons, H.
    + intros (pre & post & H). destruct pre as [|c' pre].
      * left. now exists post.
      * right. rewrite append_cons in H. injection H as _ H.
        now exists pre, post.
Qed.


(** X14.  When the cache is empty and the probe ends with status 0 and lists
    [libfdk_aac] anywhere in its output, the preferred configuration is
    returned and cached, and no warning is written. *)
Theorem encoder_preferred_when_listed (host : Host) (wd : World)
    (pre post : string) :
  g_audioEncoderArgs wd = None ->
  spawnSync_encoders host wd
  = SpawnReturns (Some 0%Z) (Some (pre +:+ "libfdk_aac" +:+ post)) ->
  getAudioEncoderArgs host wd
  = (Ok preferred_encoder_args,
     mkWorld (files wd) (dirs wd) (trace wd) (console wd)
             (Some preferred_encoder_args)).
Proof.
  intros Hg Hprobe. unfold getAudioEncoderArgs.
  unfold bind at 1, get_g_audioEncoderArgs. rewrite Hg.
  unfold bind at 1, try_catch, probe_libfdk, bind, spawnSync.
  rewrite Hprobe. cbn [bool_decide decide_rel].
  rewrite bool_decide_eq_true_2 by reflexivity.
  assert (Hinc : includes "libfdk_aac" (pre +:+ "libfdk_aac" +:+ post) = true)
    by (apply includes_spec; now exists pre, post).
  unfold ret. now rewrite Hinc.
Qed.

Lemma encoder_preferred_when_listed_witness :
  g_audioEncoderArgs example_world = None /\
  spawnSync_encoders libfdk_host example_world
  = SpawnReturns (Some 0%Z)
                 (Some (" A....D " +:+ "libfdk_aac" +:+ " Fraunhofer AAC")) /\
  getAudioEncoderArgs libfdk_host example_world
  = (Ok preferred_encoder_args,
     mkWorld (files example_world) (dirs example_world)
             (trace example_world) (console example_world)
             (Some preferred_encoder_args)).
Proof.
  split; [reflexivity |]. split; [reflexivity |].
  exact (encoder_preferred_when_listed libfdk_host example_world " A....D "
           " Fraunhofer AAC" eq_refl eq_refl).
Defined.

(** ** [normalizeAudioTrack] on every input *)

(** X15.  Every call of [normalizeAudioTrack] goes one of two ways.  Either it
    throws an error of its own before doing anything, and the world is
    untouched; or it issues exactly one ffmpeg command, whose last argument
    is the output path, and returns or throws the failure of that command.
    It deletes nothing itself: the files are what ffmpeg has left. *)
Theorem normalizeAudioTrack_outcomes (host : Host) (ctxName : string)
    (analysis : option Analysis) (inputPath outputPath : string)
    (codec : option string) (wd : World) :
  let r := normalizeAudioTrack host ctxName analysis inputPath outputPath
                               codec wd in
  (exists msg, (fst r = Throw (JsError msg) \/ fst r = Throw (TypeError msg))
               /\ snd r = wd) \/
  (exists (c : Command) (w1 : World) (ok : bool) (fs' : gmap string string),
      trace (snd r) = trace wd ++ [c] /\
      output_path (args c) = Some outputPath /\
      files w1 = files wd /\
      ffmpeg host (label c) (args c) w1 = (ok, fs') /\
      files (snd r) = fs' /\
      fst r = if ok then Ok tt else Throw (FfmpegError (label c))).
Proof.
  cbn zeta. unfold normalizeAudioTrack.
  destruct (truthy_bool (analysis ≫= isVideo)).
  { left. eexists. split; [left; reflexivity | reflexivity]. }
  destruct analysis as [a|].
  2:{ left. eexists. split; [right; reflexivity | reflexivity]. }
  destruct (is_null (startTime a)).
  { left. eexists. split; [left; reflexivity | reflexivity]. }
  destruct (String.eqb (default "aac" codec) "wav").
  - right. unfold normalizeAudioTrackToWav.
    match goal with
    | |- context [runFfmpegCommandAsync host ?l ?argv wd] =>
        destruct (run_command_spec host (mkCommand l argv) wd)
          as (ok & fs' & Hrun & Hff);
        change (run_command host (mkCommand l argv) wd)
          with (runFfmpegCommandAsync host l argv wd) in Hrun;
        rewrite Hrun;
        exists (mkCommand l argv), (recorded (mkCommand l argv) wd), ok, fs'
    end.
    cbn [fst snd trace files args label recorded].
    repeat split; try reflexivity. exact Hff.
  - destruct (negb (String.eqb (default "aac" codec) "aac")).
    { left. eexists. split; [left; reflexivity | reflexivity]. }
    right. unfold normalizeAudioTrackToAAC.
    destruct (getAudioEncoderArgs_total host wd)
      as (cfg & wd' & Henc & Htr & Hfs & _).
    rewrite (bind_Ok _ _ _ _ _ Henc).
    match goal with
    | |- context [runFfmpegCommandAsync host ?l ?argv wd'] =>
        destruct (run_command_spec host (mkCommand l argv) wd')
          as (ok & fs' & Hrun & Hff);
        change (run_command host (mkCommand l argv) wd')
          with (runFfmpegCommandAsync host l argv wd') in Hrun;
        rewrite Hrun;
        exists (mkCommand l argv), (recorded (mkCommand l argv) wd'), ok, fs'
    end.
    cbn [fst snd trace files args label recorded]. rewrite Htr.
    split; [reflexivity |].
    split; [rewrite app_assoc; apply output_path_snoc |].
    split; [exact Hfs |]. split; [exact Hff |]. split; reflexivity.
Qed.

(** X16.  On the AAC path the command carries the configuration that
    [getAudioEncoderArgs] resolves in the world of the call, between the
    filter and the output path, and that configuration is the cached one
    afterwards. *)
Theorem aac_command_uses_resolved_encoder (host : Host) (ctxName : string)
    (a : Analysis) (inputPath outputPath : string) (codec : option string)
    (wd : World) :
  truthy_bool (isVideo a) = false ->
  is_Some (startTime a) ->
  default "aac" codec = "aac" ->
  let r := normalizeAudioTrack host ctxName (Some a) inputPath outputPath
                               codec wd in
  exists cfg,
    fst (getAudioEncoderArgs host wd) = Ok cfg /\
    trace (snd r)
    = trace wd ++
      [mkCommand ("audio_" +:+ ctxName)
         ([AStr "-i"; AStr inputPath; AStr "-af"; AStr (audio_filter a)]
            ++ map AStr cfg ++ [AStr outputPath])] /\
    g_audioEncoderArgs (snd r) = Some cfg.
Proof.
  intros Hv [st Hs] Hcodec. cbn zeta. unfold normalizeAudioTrack.
  cbn [mbind option_bind]. rewrite Hv, Hs, Hcodec.
  cbn [is_null String.eqb Ascii.eqb Bool.eqb negb].
  unfold normalizeAudioTrackToAAC.
  destruct (getAudioEncoderArgs_total host wd)
    as (cfg & wd' & Henc & Htr & _ & Hg & _).
  rewrite (bind_Ok _ _ _ _ _ Henc), Henc. exists cfg.
  match goal with
  | |- context [runFfmpegCommandAsync host ?l ?argv wd'] =>
      destruct (runFfmpegCommandAsync_spec host l argv wd')
        as (ok & fs' & ->)
  end.
  cbn [fst snd trace g_audioEncoderArgs]. rewrite Htr.
  repeat split. exact Hg.
Qed.

Lemma aac_command_uses_resolved_encoder_witness :
  truthy_bool (isVideo example_audio) = false /\
  is_Some (startTime example_audio) /\
  default "aac" None = "aac" /\
  exists cfg,
    fst (getAudioEncoderArgs good_host example_world) = Ok cfg /\
    trace (snd (normalizeAudioTrack good_host "mic" (Some example_audio)
                  "mic.webm" "mic_normalized.aac" None example_world))
    = trace example_world ++
      [mkCommand ("audio_" +:+ "mic")
         ([AStr "-i"; AStr "mic.webm"; AStr "-af";
           AStr (audio_filter example_audio)]
            ++ map AStr cfg ++ [AStr "mic_normalized.aac"])] /\
    g_audioEncoderArgs
      (snd (normalizeAudioTrack good_host "mic" (Some example_audio)
              "mic.webm" "mic_normalized.aac" None example_world))
    = Some cfg.
Proof.
  assert (Hs : is_Some (startTime example_audio)) by (cbn; eauto).
  split; [reflexivity |]. split; [exact Hs |]. split; [reflexivity |].
  exact (aac_command_uses_resolved_encoder good_host "mic" example_audio
           "mic.webm" "mic_normalized.aac" None example_world eq_refl Hs
           eq_refl).
Defined.

(** ** The script, input by input *)

Lemma bind_assoc {A B C} (m : M A) (k : A -> M B) (k' : B -> M C)
    (wd : World) :
  bind (bind m k) k' wd = bind m (fun x => bind (k x) k') wd.
Proof. unfold bind. now destruct (m wd) as [[a|e] wd']. Qed.

(** The loop over a list of inputs in two parts is the loop over the first
    part followed by the loop over the second. *)
Lemma process_inputs_app (host : Host) (outputDir audioCodec : string)
    (l1 l2 : list string) :
  forall (st : Paths) (wd : World),
    process_inputs host outputDir audioCodec (l1 ++ l2) st wd
    = bind (process_inputs host outputDir audioCodec l1 st)
           (process_inputs host outputDir audioCodec l2) wd.
Proof.
  induction l1 as [|x l1 IH]; intros st wd.
  - reflexivity.
  - cbn [app process_inputs]. rewrite bind_assoc.
    destruct (process_input host outputDir audioCodec st x wd)
      as [[st1|e] wd1] eqn:Hone.
    + rewrite !(bind_Ok _ _ _ _ _ Hone). apply IH.
    + now rewrite !(bind_Throw _ _ _ _ _ Hone).
Qed.

(** X17.  The script stops at the first input that does not exist: the inputs
    before it have been processed, with all their effects, the line naming
    the missing input is written, and the process exits with code 1
    without analysing that input or any later one. *)
Theorem script_stops_at_missing_input (host : Host)
    (outputDir audioCodec : string) (done rest : list string)
    (missing : string) (st st1 : Paths) (wd wd1 : World) :
  process_inputs host outputDir audioCodec done st wd = (Ok st1, wd1) ->
  files wd1 !! missing = None ->
  missing ∉ dirs wd1 ->
  process_inputs host outputDir audioCodec (done ++ missing :: rest) st wd
  = (Throw (ProcessExit 1),
     mkWorld (files wd1) (dirs wd1) (trace wd1)
             (console wd1 ++ [missing_input_line missing])
             (g_audioEncoderArgs wd1)).
Proof.
  intros Hdone Hfile Hdir.
  rewrite process_inputs_app, (bind_Ok _ _ _ _ _ Hdone).
  cbn [process_inputs]. unfold bind at 1.
  unfold process_input, bind at 1, existsSync.
  rewrite Hfile.
  rewrite bool_decide_eq_false_2 by (intros [? H]; discriminate H).
  rewrite bool_decide_eq_false_2 by exact Hdir.
  reflexivity.
Qed.

Lemma script_stops_at_missing_input_witness :
  process_inputs script_host "." "wav" ["mic.webm"] (mkPaths None None None)
                 example_world
  = (Ok (mkPaths None None None),
     snd (process_inputs script_host "." "wav" ["mic.webm"]
                         (mkPaths None None None) example_world)) /\
  files (snd (process_inputs script_host "." "wav" ["mic.webm"]
                (mkPaths None None None) example_world))
    !! "nope.webm" = None /\
  ("nope.webm" ∉ dirs (snd (process_inputs script_host "." "wav"
                              ["mic.webm"] (mkPaths None None None)
                              example_world))) /\
  fst (process_inputs script_host "." "wav"
         (["mic.webm"] ++ "nope.webm" :: ["cam.webm"])
         (mkPaths None None None) example_world)
  = Throw (ProcessExit 1).
Proof.
  assert (H1 : process_inputs script_host "." "wav" ["mic.webm"]
                 (mkPaths None None None) example_world
               = (Ok (mkPaths None None None),
                  snd (process_inputs script_host "." "wav" ["mic.webm"]
                         (mkPaths None None None) example_world)))
    by (vm_compute; reflexivity).
  assert (H2 : files (snd (process_inputs script_host "." "wav" ["mic.webm"]
                             (mkPaths None None None) example_world))
                 !! "nope.webm" = None)
    by (vm_compute; reflexivity).
  assert (H3 : "nope.webm"
                 ∉ dirs (snd (process_inputs script_host "." "wav"
                                ["mic.webm"] (mkPaths None None None)
                                example_world)))
    by (replace (dirs (snd (process_inputs script_host "." "wav"
                                ["mic.webm"] (mkPaths None None None)
                                example_world)))
          with (∅ : gset string) by (vm_compute; reflexivity);
        apply not_elem_of_empty).
  split; [exact H1 |]. split; [exact H2 |]. split; [exact H3 |].
  rewrite (script_stops_at_missing_input script_host "." "wav" ["mic.webm"]
             ["cam.webm"] "nope.webm" _ _ _ _ H1 H2 H3).
  reflexivity.
Defined.

(** X18.  An invocation with an unsupported codec exits with code 1 before any
    input is looked at: no command is issued and no file changes.  The
    output directory, when one is given, has been created by then. *)
Theorem script_rejects_unsupported_codec (host : Host) (values : CliValues)
    (first : string) (rest : list string) (wd : World) :
  input values = Some (first :: rest) ->
  toLowerCase host (or_else (audio_codec values) "aac") <> "aac" ->
  toLowerCase host (or_else (audio_codec values) "aac") <> "wav" ->
  let r := normalize_track host values wd in
  fst r = Throw (ProcessExit 1) /\
  trace (snd r) = trace wd /\
  files (snd r) = files wd /\
  dirs (snd r)
  = (if truthy_str (output_dir values)
     then {[ or_else (output_dir values) (Path_dirname host first) ]}
          ∪ dirs wd
     else dirs wd).
Proof.
  intros Hin Haac Hwav. cbn zeta. unfold normalize_track. rewrite Hin.
  apply String.eqb_neq in Haac, Hwav.
  unfold bind at 1.
  destruct (truthy_str (output_dir values)); cbn [mkdirSync ret];
    cbn iota; rewrite Haac, Hwav; cbn; repeat split.
Qed.

Lemma script_rejects_unsupported_codec_witness :
  input (mkCliValues (Some ["mic.webm"]) (Some "out") (Some "mp3"))
  = Some ("mic.webm" :: []) /\
  toLowerCase script_host
    (or_else (audio_codec (mkCliValues (Some ["mic.webm"]) (Some "out")
                                       (Some "mp3"))) "aac") <> "aac" /\
  toLowerCase script_host
    (or_else (audio_codec (mkCliValues (Some ["mic.webm"]) (Some "out")
                                       (Some "mp3"))) "aac") <> "wav" /\
  fst (normalize_track script_host
         (mkCliValues (Some ["mic.webm"]) (Some "out") (Some "mp3"))
         example_world) = Throw (ProcessExit 1) /\
  dirs (snd (normalize_track script_host
               (mkCliValues (Some ["mic.webm"]) (Some "out") (Some "mp3"))
               example_world))
  = {[ "out" ]} ∪ dirs example_world.
Proof.
  assert (H1 : toLowerCase script_host
                 (or_else (audio_codec (mkCliValues (Some ["mic.webm"])
                                          (Some "out") (Some "mp3"))) "aac")
               <> "aac") by discriminate.
  assert (H2 : toLowerCase script_host
                 (or_else (audio_codec (mkCliValues (Some ["mic.webm"])
                                          (Some "out") (Some "mp3"))) "aac")
               <> "wav") by discriminate.
  split; [reflexivity |]. split; [exact H1 |]. split; [exact H2 |].
  destruct (script_rejects_unsupported_codec script_host
              (mkCliValues (Some ["mic.webm"]) (Some "out") (Some "mp3"))
              "mic.webm" [] example_world eq_refl H1 H2)
    as (Hexit & _ & _ & Hdirs).
  split; [exact Hexit | exact Hdirs].
Defined.

Lemma paths_named_after_mono (host : Host) (outputDir audioCodec : string)
    (l1 l2 : list string) (st : Paths) :
  (forall x, x ∈ l1 -> x ∈ l2) ->
  paths_named_after host outputDir audioCodec l1 st ->
  paths_named_after host outputDir audioCodec l2 st.
Proof.
  intros Hsub [Hv Ha]. split.
  - destruct (videoPath st), (combinedOutputPath st); try exact Hv.
    destruct Hv as (x & Hx & H). exists x. split; [now apply Hsub | exact H].
  - intros a Hsome. destruct (Ha a Hsome) as (Hc & x & Hx & H).
    split; [exact Hc |]. exists x. split; [now apply Hsub | exact H].
Qed.

(** One input that is processed keeps the path variables consistent. *)
Lemma process_input_names (host : Host) (outputDir audioCodec : string)
    (seen : list string) (inputPath : string) (st st' : Paths)
    (wd wd' : World) :
  paths_named_after host outputDir audioCodec seen st ->
  process_input host outputDir audioCodec st inputPath wd = (Ok st', wd') ->
  paths_named_after host outputDir audioCodec (seen ++ [inputPath]) st'.
Proof.
  intros Hinv Hrun.
  assert (Hold : paths_named_after host outputDir audioCodec
                   (seen ++ [inputPath]) st).
  { eapply paths_named_after_mono; [| exact Hinv].
    intros x Hx. apply elem_of_app. now left. }
  assert (Hnew : inputPath ∈ seen ++ [inputPath]).
  { apply elem_of_app. right. now apply list_elem_of_singleton. }
  unfold process_input, bind, existsSync in Hrun.
  destruct (negb _); [discriminate |].
  destruct (await_analyzeTrack _ _ _ _) as [[analysis|?] w2];
    [| discriminate].
  destruct (truthy_bool (isVideo analysis)).
  - destruct (normalizeVideoTrackToM4V _ _ _ _ _ _) as [[[]|?] w3];
      [| discriminate].
    injection Hrun as <- _. destruct Hold as [_ Ha]. split; [| exact Ha].
    cbn. exists inputPath. repeat split. exact Hnew.
  - destruct (normalizeAudioTrack _ _ _ _ _ _ _) as [[[]|?] w3];
      [| discriminate].
    destruct (String.eqb audioCodec "aac") eqn:Hcodec.
    + injection Hrun as <- _. destruct Hold as [Hv _]. split; [exact Hv |].
      cbn. intros a [= <-]. apply String.eqb_eq in Hcodec. subst audioCodec.
      split; [reflexivity |]. exists inputPath. split; [exact Hnew |].
      reflexivity.
    + injection Hrun as <- _. exact Hold.
Qed.

Lemma process_inputs_names (host : Host) (outputDir audioCodec : string)
    (inputs : list string) :
  forall (seen : list string) (st st' : Paths) (wd wd' : World),
    paths_named_after host outputDir audioCodec seen st ->
    process_inputs host outputDir audioCodec inputs st wd = (Ok st', wd') ->
    paths_named_after host outputDir audioCodec (seen ++ inputs) st'.
Proof.
  induction inputs as [|x rest IH]; intros seen st st' wd wd' Hinv Hrun.
  - cbn in Hrun. injection Hrun as <- _. now rewrite app_nil_r.
  - cbn [process_inputs] in Hrun. unfold bind at 1 in Hrun.
    destruct (process_input host outputDir audioCodec st x wd)
      as [[st1|e] wd1] eqn:Hone; [| discriminate].
    pose proof (process_input_names _ _ _ _ _ _ _ _ _ Hinv Hone) as Hinv1.
    specialize (IH _ _ _ _ _ Hinv1 Hrun).
    now rewrite <- app_assoc in IH.
Qed.

(** X19.  When the loop of the script is through, the files it hands to the mux
    block belong together: [videoPath] and [combinedOutputPath] are set or
    unset together, and when set they are [<basename>_normalized.m4v] and
    [<basename>_combined.mp4] of one and the same input; [audioPath] is
    only set under the codec ['aac'], to [<basename>_normalized.aac] of an
    input. *)
Theorem loop_names_outputs_after_inputs (host : Host)
    (outputDir audioCodec : string) (inputs : list string)
    (st' : Paths) (wd wd' : World) :
  process_inputs host outputDir audioCodec inputs (mkPaths None None None) wd
  = (Ok st', wd') ->
  paths_named_after host outputDir audioCodec inputs st'.
Proof.
  intros Hrun.
  apply (process_inputs_names host outputDir audioCodec inputs []
           (mkPaths None None None) st' wd wd'); [| exact Hrun].
  split; [exact I | discriminate].
Qed.

Lemma loop_names_outputs_after_inputs_witness :
  process_inputs script_host "." "aac" ["cam.webm"; "mic.webm"]
                 (mkPaths None None None) example_world
  = (Ok (mkPaths (Some "./cam.webm_normalized.m4v")
                 (Some "./mic.webm_normalized.aac")
                 (Some "./cam.webm_combined.mp4")),
     snd (process_inputs script_host "." "aac" ["cam.webm"; "mic.webm"]
                         (mkPaths None None None) example_world)) /\
  paths_named_after script_host "." "aac" ["cam.webm"; "mic.webm"]
    (mkPaths (Some "./cam.webm_normalized.m4v")
             (Some "./mic.webm_normalized.aac")
             (Some "./cam.webm_combined.mp4")).
Proof.
  assert (H : process_inputs script_host "." "aac" ["cam.webm"; "mic.webm"]
                (mkPaths None None None) example_world
              = (Ok (mkPaths (Some "./cam.webm_normalized.m4v")
                             (Some "./mic.webm_normalized.aac")
                             (Some "./cam.webm_combined.mp4")),
                 snd (process_inputs script_host "." "aac"
                        ["cam.webm"; "mic.webm"] (mkPaths None None None)
                        example_world)))
    by (vm_compute; reflexivity).
  split; [exact H |].
  exact (loop_names_outputs_after_inputs script_host "." "aac"
           ["cam.webm"; "mic.webm"] _ example_world _ H).
Defined.

(** ** The batch script: timestamps, groups and batches *)

Lemma span_digits_app (d rest : string) :
  all_digits d ->
  span_digits (d +:+ rest)
  = (d +:+ fst (span_digits rest), snd (span_digits rest)).
Proof.
  induction d as [|c d IH]; rewrite ?append_nil, ?append_cons.
  - intros _. now destruct (span_digits rest).
  - intros [Hc Hd]. cbn [span_digits]. rewrite Hc, (IH Hd). reflexivity.
Qed.

Lemma span_digits_spec (s : string) :
  s = fst (span_digits s) +:+ snd (span_digits s) /\
  all_digits (fst (span_digits s)) /\
  (forall c r, snd (span_digits s) = String c r -> is_digit c = false).
Proof.
  induction s as [|c s (IH1 & IH2 & IH3)]; cbn [span_digits].
  - repeat split. intros c r H. discriminate H.
  - destruct (is_digit c) eqn:Hc.
    + destruct (span_digits s) as [d r]. cbn [fst snd] in *.
      rewrite append_cons, <- IH1. repeat split; assumption.
    + cbn [fst snd]. repeat split. intros c' r [= <- _]. exact Hc.
Qed.

(** X21.  A file name has the timestamp [ts] exactly when it is [ts], a
    non-empty run of digits, followed by a hyphen and anything else: the
    digits before the first hyphen, and only when nothing but digits comes
    before it. *)
Theorem match_timestamp_spec (filename ts : string) :
  match_timestamp filename = Some ts <->
  ts <> "" /\ all_digits ts /\
  exists rest, filename = ts +:+ "-" +:+ rest.
Proof.
  unfold match_timestamp. split.
  - destruct (span_digits_spec filename) as (Heq & Hd & _).
    destruct (span_digits filename) as [[|c d] r]; [discriminate |].
    destruct r as [|h r]; [discriminate |].
    destruct (Ascii.ascii_dec h "-") as [-> | Hne].
    + intros [= <-]. cbn [fst snd] in Heq, Hd.
      split; [discriminate |]. split; [exact Hd |]. now exists r.
    + intros H. exfalso. revert H.
      destruct h as [[] [] [] [] [] [] [] []]; try discriminate.
      now destruct Hne.
  - intros (Hne & Hd & rest & ->).
    rewrite (span_digits_app ts _ Hd). rewrite append_cons, append_nil.
    cbn [span_digits]. change (is_digit "-") with false. cbn [fst snd].
    rewrite append_nil_r. destruct ts as [|c d]; [now destruct Hne |].
    reflexivity.
Qed.

Lemma group_loop_spec (basename : string -> string)
    (audioFiles : list string) :
  forall (groups : gmap string (list string)) (wd : World),
  exists lines,
    group_loop basename audioFiles groups wd
    = (Ok (foldl (fun g file =>
                    match match_timestamp (basename file) with
                    | Some ts => push_to_group ts file g
                    | None => g
                    end) groups audioFiles),
       mkWorld (files wd) (dirs wd) (trace wd) (console wd ++ lines)
               (g_audioEncoderArgs wd)).
Proof.
  induction audioFiles as [|file rest IH]; intros groups wd.
  - exists []. cbn. rewrite app_nil_r. now destruct wd.
  - cbn [group_loop foldl].
    destruct (match_timestamp (basename file)) as [ts|].
    + apply IH.
    + unfold bind, console_write.
      match goal with
      | |- context [group_loop basename rest groups ?wd1] =>
          destruct (IH groups wd1) as [lines ->]
      end.
      cbn [files dirs trace console g_audioEncoderArgs].
      eexists (_ :: lines). now rewrite <- app_assoc.
Qed.

Lemma group_fold_lookup (basename : string -> string)
    (audioFiles : list string) (ts : string) :
  forall groups : gmap string (list string),
    default []
      (foldl (fun g file =>
                match match_timestamp (basename file) with
                | Some t => push_to_group t file g
                | None => g
                end) groups audioFiles !! ts)
    = default [] (groups !! ts) ++
      filter (fun file => match_timestamp (basename file) = Some ts)
             audioFiles /\
    (is_Some (groups !! ts) ->
     is_Some (foldl (fun g file =>
                       match match_timestamp (basename file) with
                       | Some t => push_to_group t file g
                       | None => g
                       end) groups audioFiles !! ts)).
Proof.
  induction audioFiles as [|file rest IH]; intros groups.
  - cbn. rewrite app_nil_r. auto.
  - cbn [foldl]. rewrite filter_cons.
    destruct (match_timestamp (basename file)) as [t|] eqn:Ht.
    + destruct (IH (push_to_group t file groups)) as [IH1 IH2].
      unfold push_to_group in IH1, IH2 |- *.
      destruct (decide (t = ts)) as [-> | Hne].
      * rewrite lookup_insert_eq in IH1, IH2. cbn [default from_option id]
          in IH1.
        rewrite decide_True by reflexivity.
        rewrite IH1, <- app_assoc. split; [reflexivity |].
        intros _. apply IH2. eauto.
      * rewrite lookup_insert_ne in IH1, IH2 by exact Hne.
        rewrite decide_False by congruence. split; assumption.
    + rewrite decide_False by discriminate. apply IH.
Qed.

Lemma group_fold_nonempty (basename : string -> string)
    (audioFiles : list string) (ts : string) :
  forall groups : gmap string (list string),
    (forall l, groups !! ts = Some l -> l <> []) ->
    forall l,
      foldl (fun g file =>
               match match_timestamp (basename file) with
               | Some t => push_to_group t file g
               | None => g
               end) groups audioFiles !! ts = Some l ->
      l <> [].
Proof.
  induction audioFiles as [|file rest IH]; intros groups Hne l.
  - cbn. apply Hne.
  - cbn [foldl]. apply IH. clear IH l.
    destruct (match_timestamp (basename file)) as [t|]; [| exact Hne].
    intros l. unfold push_to_group.
    destruct (decide (t = ts)) as [-> | Hts].
    + rewrite lookup_insert_eq. intros [= <-].
      now destruct (default [] (groups !! ts)).
    + rewrite lookup_insert_ne by exact Hts. apply Hne.
Qed.

(** X22.  [groupFilesByTimestamp] always returns, and only writes to the
    console. Under each timestamp it files exactly the inputs whose base name
    starts with that timestamp, in their input order; a timestamp that no
    input carries is not a key, so no group is empty. *)
Theorem groupFilesByTimestamp_groups (basename : string -> string)
    (audioFiles : list string) (wd : World) :
  exists groups wd',
    groupFilesByTimestamp basename audioFiles wd = (Ok groups, wd') /\
    files wd' = files wd /\ trace wd' = trace wd /\
    forall ts,
      groups !! ts
      = match filter (fun file => match_timestamp (basename file) = Some ts)
                     audioFiles with
        | [] => None
        | l => Some l
        end.
Proof.
  unfold groupFilesByTimestamp.
  destruct (group_loop_spec basename audioFiles ∅ wd) as [lines ->].
  do 2 eexists. split; [reflexivity |]. cbn [files trace].
  split; [reflexivity |]. split; [reflexivity |].
  intros ts.
  destruct (group_fold_lookup basename audioFiles ts ∅) as [Hl _].
  pose proof (group_fold_nonempty basename audioFiles ts ∅) as Hne.
  rewrite lookup_empty in Hl. cbn [default from_option app] in Hl.
  match type of Hl with
  | default [] (?m !! ts) = _ => destruct (m !! ts) as [l|] eqn:Hm
  end.
  - cbn in Hl. rewrite <- Hl.
    assert (Hl' : l <> []).
    { apply Hne; [| reflexivity].
      intros l' H. now rewrite lookup_empty in H. }
    now destruct l.
  - cbn in Hl. now rewrite <- Hl.
Qed.

Example groupFilesByTimestamp_example :
  fst (groupFilesByTimestamp (fun p => p)
         ["1763-a.webm"; "notes.txt"; "1764-b.webm"; "1763-c.webm"; "12x-d"]
         example_world)
  = Ok {[ "1763" := ["1763-a.webm"; "1763-c.webm"];
          "1764" := ["1764-b.webm"] ]}.
Proof. vm_compute. reflexivity. Qed.

(** *** Batches *)

Lemma batches_loop_spec {A} (size : nat) (rooms : list A) :
  (0 < size)%nat ->
  forall (fuel i : nat) (acc : list (list A)),
    (length rooms - i < fuel)%nat ->
    exists bs,
      batches_loop fuel size rooms i acc = Some (acc ++ bs) /\
      concat bs = drop i rooms /\
      Forall (fun b => (0 < length b <= size)%nat) bs /\
      full_but_last size bs.
Proof.
  intros Hsize. induction fuel as [|fuel IH]; intros i acc Hfuel; [lia |].
  cbn [batches_loop].
  destruct (i <? length rooms)%nat eqn:Hi.
  - apply Nat.ltb_lt in Hi.
    destruct (IH (i + size)%nat (acc ++ [take size (drop i rooms)]))
      as (bs & Hrun & Hcat & Hall & Hfull); [lia |].
    exists (take size (drop i rooms) :: bs).
    rewrite Hrun, <- app_assoc. split; [reflexivity |].
    split; [| split].
    + cbn [concat]. rewrite Hcat, <- drop_drop. apply take_drop.
    + constructor; [| exact Hall].
      rewrite length_take, length_drop. lia.
    + intros k b Hk Hlast. destruct k as [|k].
      * injection Hk as <-. cbn [length] in Hlast.
        destruct bs as [|b' bs']; [cbn in Hlast; lia |].
        assert (Hmore : (i + size < length rooms)%nat).
        { destruct (Nat.lt_ge_cases (i + size) (length rooms)) as [H | H];
            [exact H |].
          rewrite drop_ge in Hcat by exact H.
          inversion Hall as [|? ? Hb' _]; subst.
          apply (f_equal length) in Hcat. cbn [concat] in Hcat.
          rewrite length_app in Hcat. cbn [length] in Hcat. lia. }
        rewrite length_take, length_drop. lia.
      * cbn in Hk. apply (Hfull k b Hk). cbn [length] in Hlast. lia.
  - apply Nat.ltb_ge in Hi. exists []. rewrite app_nil_r.
    split; [reflexivity |]. split; [now rewrite drop_ge |].
    split; [constructor |]. intros k b Hk. discriminate Hk.
Qed.

(** X23.  The batches of [main] cut the room list into consecutive pieces: put
    end to end they are the room list again, no batch is empty or longer
    than [BATCH_SIZE], and every batch but the last holds exactly
    [BATCH_SIZE] rooms.  The loop ends within one step per room. *)
Theorem split_batches_partition {A} (targetRooms : list A) :
  exists batches,
    split_batches BATCH_SIZE targetRooms = Some batches /\
    concat batches = targetRooms /\
    Forall (fun b => (0 < length b <= BATCH_SIZE)%nat) batches /\
    full_but_last BATCH_SIZE batches.
Proof.
  unfold split_batches.
  destruct (batches_loop_spec BATCH_SIZE targetRooms) with
    (fuel := S (length targetRooms)) (i := 0%nat) (acc := @nil (list A))
    as (bs & Hrun & Hcat & Hall & Hfull);
    [unfold BATCH_SIZE; lia | lia |].
  exists bs. split; [exact Hrun |]. split; [exact Hcat |].
  split; assumption.
Qed.

Example split_batches_23 :
  split_batches BATCH_SIZE (seq 0 23)
  = Some [seq 0 10; seq 10 10; seq 20 3].
Proof. reflexivity. Qed.

(** With a batch size of 0 the loop of [main] would never end: no amount
    of fuel lets it return on a non-empty room list. *)
Lemma batches_loop_zero_size {A} (rooms : list A) (fuel : nat)
    (acc : list (list A)) :
  rooms <> [] -> batches_loop fuel 0 rooms 0 acc = None.
Proof.
  intros Hne. revert acc. induction fuel as [|fuel IH]; intros acc;
    [reflexivity |].
  cbn [batches_loop]. destruct rooms as [|r rooms]; [now destruct Hne |].
  cbn [length Nat.ltb Nat.leb Nat.add]. apply IH.
Qed.

(** ** Temporary files of different runs *)

Lemma all_digits_app (s1 s2 : string) :
  all_digits (s1 +:+ s2) <-> all_digits s1 /\ all_digits s2.
Proof.
  induction s1 as [|c s1 IH]; rewrite ?append_nil, ?append_cons;
    cbn [all_digits]; [tauto | rewrite IH; tauto].
Qed.

(** A string ends in at most one way with a character that is not a digit
    followed by digits only. *)
Lemma digit_tail_unique (u v : string) (g1 g2 : ascii) (d1 d2 : string) :
  is_digit g1 = false -> is_digit g2 = false ->
  all_digits d1 -> all_digits d2 ->
  u +:+ String g1 d1 = v +:+ String g2 d2 ->
  u = v /\ g1 = g2 /\ d1 = d2.
Proof.
  intros Hg1 Hg2 Hd1 Hd2. revert v.
  induction u as [|c u IH]; intros [|c' v];
    rewrite ?append_nil, ?append_cons; intros H.
  - now injection H as -> ->.
  - injection H as -> ->. apply all_digits_app in Hd1 as [_ [Hg _]].
    congruence.
  - injection H as <- <-. apply all_digits_app in Hd2 as [_ [Hg _]].
    congruence.
  - injection H as -> H. destruct (IH _ H) as (-> & -> & ->). auto.
Qed.

Lemma pretty_N_char_digit (d : N) : is_digit (pretty_N_char d) = true.
Proof. unfold pretty_N_char. repeat case_match; reflexivity. Qed.

Lemma pretty_N_go_digits (x : N) :
  forall s, all_digits s -> all_digits (pretty_N_go x s).
Proof.
  induction (N.lt_wf_0 x) as [x _ IH]. intros s Hs.
  destruct (N.eq_dec x 0%N) as [-> | Hx].
  - now rewrite pretty_N_go_0.
  - assert (0 < x)%N as Hpos by lia.
    rewrite (pretty_N_go_step x s Hpos).
    apply IH; [now apply N.div_lt |].
    split; [apply pretty_N_char_digit | exact Hs].
Qed.

Lemma pretty_nat_digits (n : nat) : all_digits (pretty n).
Proof.
  unfold pretty, pretty_nat, pretty, pretty_N.
  case_decide; [cbn; auto |]. now apply pretty_N_go_digits.
Qed.

(** A name without its [.m4v]: the stem of the intermediate clip, or the
    stem of a segment file followed by its number. *)
Lemma temp_name_shape (ctxName : string) (n : nat) (name : string) :
  name ∈ temp_names ctxName n ->
  (exists body,
      name = body +:+ ".m4v" /\
      (body = (g_tempFilePrefix +:+ ctxName +:+ "_ful") +:+ String "l" "" \/
       exists i : nat,
         body = (g_tempFilePrefix +:+ ctxName +:+ "_se")
                  +:+ String "g" (pretty i))) \/
  name = (g_tempFilePrefix +:+ ctxName +:+ "_concat.tx") +:+ String "t" "".
Proof.
  unfold temp_names. intros H. apply elem_of_cons in H as [-> | H].
  { left. eexists. split; [| left; reflexivity].
    rewrite !append_assoc. reflexivity. }
  apply elem_of_app in H as [H | H].
  - left. apply elem_of_seg_names in H as [i ->].
    eexists. split; [| right; exists i; reflexivity].
    unfold seg_file_name. rewrite !append_assoc. reflexivity.
  - right. apply list_elem_of_singleton in H as ->.
    rewrite !append_assoc. reflexivity.
Qed.

Lemma m4v_split (body : string) :
  body +:+ ".m4v" = (body +:+ ".m4") +:+ String "v" "".
Proof. rewrite append_assoc. reflexivity. Qed.

Lemma stem_inj (c1 c2 tail : string) :
  g_tempFilePrefix +:+ c1 +:+ tail = g_tempFilePrefix +:+ c2 +:+ tail ->
  c1 = c2.
Proof.
  intros H. apply String.app_inj in H. now apply append_inv_tail in H.
Qed.

(** A temporary file name belongs to one context only. *)
Lemma temp_names_same_run (c1 c2 : string) (n1 n2 : nat) (name : string) :
  name ∈ temp_names c1 n1 -> name ∈ temp_names c2 n2 -> c1 = c2.
Proof.
  intros H1 H2.
  apply temp_name_shape in H1 as [(b1 & H1 & Hb1) | H1];
    apply temp_name_shape in H2 as [(b2 & H2 & Hb2) | H2];
    rewrite H1 in H2; clear H1.
  - apply append_inv_tail in H2. subst b2.
    destruct Hb1 as [-> | [i ->]]; destruct Hb2 as [H | [j H]];
      apply digit_tail_unique in H as (Hstem & Hg & _);
      try reflexivity; try exact I; try apply pretty_nat_digits;
      try discriminate Hg; now apply stem_inj in Hstem.
  - rewrite m4v_split in H2.
    apply digit_tail_unique in H2 as (_ & Hg & _);
      try reflexivity; try exact I. discriminate Hg.
  - rewrite m4v_split in H2.
    apply digit_tail_unique in H2 as (_ & Hg & _);
      try reflexivity; try exact I. discriminate Hg.
  - apply digit_tail_unique in H2 as (Hstem & _);
      try reflexivity; try exact I. now apply stem_inj in Hstem.
Qed.

(** X11.  Runs whose context names differ and have no path separator in
    them never share a temporary file, on a [Path.resolve] that joins
    [tmpDir] and a single path segment as Node's does: this is what lets
    several tracks be normalised at the same time in one temporary
    directory.  (With a separator in a context name two runs can collide,
    see [posix_resolve_collision].) *)
Theorem temp_artifacts_of_other_run_disjoint (host : Host)
    (c1 c2 : string) (n1 n2 : nat) (p : string) :
  resolve_joins_plain host ->
  free_of "/" c1 ->
  free_of "/" c2 ->
  c1 <> c2 ->
  p ∈ temp_artifacts host c1 n1 ->
  p ∉ temp_artifacts host c2 n2.
Proof.
  intros Hjoin Hc1 Hc2 Hne H1 H2. apply Hne.
  rewrite temp_artifacts_names in H1, H2.
  apply list_elem_of_fmap in H1 as (x1 & -> & H1).
  apply list_elem_of_fmap in H2 as (x2 & Heq & H2).
  destruct (temp_name_plain c1 n1 x1 Hc1 H1) as (Hx1 & Hx2 & Hx3 & Hx4).
  destruct (temp_name_plain c2 n2 x2 Hc2 H2) as (Hy1 & Hy2 & Hy3 & Hy4).
  rewrite (Hjoin x1), (Hjoin x2) in Heq by assumption.
  apply String.app_inj, String.app_inj in Heq. subst x2.
  exact (temp_names_same_run c1 c2 n1 n2 x1 H1 H2).
Qed.

Lemma temp_artifacts_of_other_run_disjoint_witness :
  resolve_joins_plain posix_host /\
  free_of "/" "cam" /\
  free_of "/" "cam_seg1" /\
  "cam" <> "cam_seg1" /\
  "/tmp/rawtracks_cam_seg1.m4v" ∈ temp_artifacts posix_host "cam" 3 /\
  ("/tmp/rawtracks_cam_seg1.m4v" ∉ temp_artifacts posix_host "cam_seg1" 3).
Proof.
  assert (Hin : "/tmp/rawtracks_cam_seg1.m4v"
                  ∈ temp_artifacts posix_host "cam" 3).
  { replace (temp_artifacts posix_host "cam" 3)
      with ["/tmp/rawtracks_cam_full.m4v"; "/tmp/rawtracks_cam_seg0.m4v";
            "/tmp/rawtracks_cam_seg1.m4v"; "/tmp/rawtracks_cam_seg2.m4v";
            "/tmp/rawtracks_cam_concat.txt"]
      by (vm_compute; reflexivity).
    do 2 (apply elem_of_cons; right). apply elem_of_cons. now left. }
  assert (Hne : "cam" <> "cam_seg1") by discriminate.
  assert (Hc1 : free_of "/" "cam") by now apply constant_free.
  assert (Hc2 : free_of "/" "cam_seg1") by now apply constant_free.
  split; [exact posix_host_joins_plain |]. split; [exact Hc1 |].
  split; [exact Hc2 |]. split; [exact Hne |]. split; [exact Hin |].
  exact (temp_artifacts_of_other_run_disjoint posix_host "cam" "cam_seg1"
           3 3 _ posix_host_joins_plain Hc1 Hc2 Hne Hin).
Defined.

(** ** A failing mux *)

(** X20.  When the mux command fails, the block throws that failure and deletes
    neither intermediate file: the disk is as ffmpeg has left it.  And when
    the mux succeeds but the video file is not there to delete, the block
    throws before it gets to the audio file. *)
Theorem combine_failure_deletes_nothing (host : Host) (st : Paths)
    (wd : World) (v a c : string) (ok : bool) (fs' : gmap string string) :
  videoPath st = Some v -> audioPath st = Some a ->
  combinedOutputPath st = Some c ->
  v <> "" -> a <> "" -> c <> "" ->
  ffmpeg host (label (combine_command host v a c))
         (args (combine_command host v a c))
         (recorded (combine_command host v a c) wd) = (ok, fs') ->
  (ok = false \/ fs' !! v = None) ->
  combine host "aac" st wd
  = (Throw (if ok then ENOENT v
            else FfmpegError (label (combine_command host v a c))),
     mkWorld fs' (dirs wd) (trace wd ++ [combine_command host v a c])
             (console wd) (g_audioEncoderArgs wd)).
Proof.
  intros Hv Ha Hc Hv0 Ha0 Hc0 Hff Hcase.
  unfold combine. rewrite Hv, Ha, Hc.
  rewrite !truthy_str_Some by assumption.
  cbn [String.eqb Ascii.eqb Bool.eqb andb].
  destruct (run_command_spec host (combine_command host v a c) wd)
    as (ok' & fs'' & Hrun & Hff').
  unfold recorded in Hff. rewrite Hff in Hff'. injection Hff' as <- <-.
  destruct ok.
  - destruct Hcase as [Hcase | Hmiss]; [discriminate Hcase |].
    rewrite (bind_Ok _ _ _ _ _ Hrun). step_rmSync Hmiss. reflexivity.
  - now rewrite (bind_Throw _ _ _ _ _ Hrun).
Qed.

Lemma combine_failure_deletes_nothing_witness :
  let st := mkPaths (Some "cam_normalized.m4v") (Some "mic_normalized.aac")
                    (Some "cam_combined.mp4") in
  let wd := mkWorld {[ "cam_normalized.m4v" := "media";
                       "mic_normalized.aac" := "media" ]} ∅ [] [] None in
  let cmd := combine_command mux_failing_host "cam_normalized.m4v"
               "mic_normalized.aac" "cam_combined.mp4" in
  ffmpeg mux_failing_host (label cmd) (args cmd) (recorded cmd wd)
  = (false, files wd) /\
  combine mux_failing_host "aac" st wd
  = (Throw (FfmpegError (label cmd)),
     mkWorld (files wd) (dirs wd) (trace wd ++ [cmd]) (console wd)
             (g_audioEncoderArgs wd)).
Proof.
  cbn zeta.
  assert (Hff :
    ffmpeg mux_failing_host
      (label (combine_command mux_failing_host "cam_normalized.m4v"
                "mic_normalized.aac" "cam_combined.mp4"))
      (args (combine_command mux_failing_host "cam_normalized.m4v"
               "mic_normalized.aac" "cam_combined.mp4"))
      (recorded (combine_command mux_failing_host "cam_normalized.m4v"
                   "mic_normalized.aac" "cam_combined.mp4")
         (mkWorld {[ "cam_normalized.m4v" := "media";
                     "mic_normalized.aac" := "media" ]} ∅ [] [] None))
    = (false, {[ "cam_normalized.m4v" := "media";
                 "mic_normalized.aac" := "media" ]}))
    by reflexivity.
  split; [exact Hff |].
  apply (combine_failure_deletes_nothing mux_failing_host
           (mkPaths (Some "cam_normalized.m4v") (Some "mic_normalized.aac")
                    (Some "cam_combined.mp4"))
           _ "cam_normalized.m4v" "mic_normalized.aac" "cam_combined.mp4"
           false _ eq_refl eq_refl eq_refl);
    try discriminate; [exact Hff | now left].
Defined.

(** ** The downloader: local paths *)

Lemma string_drop_app (s rest : string) :
  string_drop (String.length s) (s +:+ rest) = rest.
Proof.
  induction s as [|c s IH]; rewrite ?append_nil, ?append_cons.
  - now destruct rest.
  - exact IH.
Qed.

Lemma remove_first_prefix (folder rest : string) :
  remove_first folder (folder +:+ rest) = rest.
Proof.
  assert (Hp : String.prefix folder (folder +:+ rest) = true)
    by (apply prefix_spec; now exists rest).
  destruct (folder +:+ rest) eqn:E; cbn [remove_first]; rewrite Hp;
    rewrite <- E; apply string_drop_app.
Qed.

(** X24.  For an object key below the folder, the local path is the rest of the
    key after the folder prefix, with [.webm] added when that rest has no
    dot; and whatever the key, the local path has a dot in it, so every
    downloaded file has an extension. *)
Theorem relative_path_under_folder (s3FolderPath rest objectKey : string) :
  relative_path s3FolderPath (s3FolderPath +:+ rest)
  = (if includes "." rest then rest else rest +:+ ".webm") /\
  includes "." (relative_path s3FolderPath objectKey) = true.
Proof.
  split.
  - unfold relative_path. rewrite remove_first_prefix.
    now destruct (includes "." rest).
  - unfold relative_path.
    destruct (includes "." (remove_first s3FolderPath objectKey)) eqn:E;
      cbn [negb]; [exact E |].
    apply includes_spec.
    exists (remove_first s3FolderPath objectKey), "webm". reflexivity.
Qed.

Example relative_path_examples :
  relative_path "neonmobile/A60/" "neonmobile/A60/1763-cam-audio" 
  = "1763-cam-audio.webm" /\
  relative_path "neonmobile/A60/" "neonmobile/A60/manifest.json"
  = "manifest.json".
Proof. split; reflexivity. Qed.
(** ** The fate of the temporary artifacts *)




(** ** A zero [startTime]: the video run *)

Lemma sub_zero (x : number) : Number.sub x (S754_zero false) = x.
Proof. destruct x as [[] | | |]; reflexivity. Qed.

(** C9.  An analysis whose [startTime] is exactly 0 passes the presence
    check of both functions.  [normalizeAudioTrack] issues its command with
    a delay of 0 ms, and ends in success or in the failure of that command.
    [normalizeVideoTrackToM4V] throws no validation error and issues the
    conversion; the command of a source segment, whenever it is issued,
    seeks at the start of the segment itself, which is what a source offset
    of 0 means; and a run that returns has issued the command of every
    segment. *)
Theorem zero_startTime_is_accepted (a : Analysis) (q : Q) :
  startTime a = Some q ->
  q == 0 ->
  (forall host ctxName inputPath outputPath codec wd,
      truthy_bool (isVideo a) = false ->
      default "aac" codec = "aac" \/ default "aac" codec = "wav" ->
      let r := normalizeAudioTrack host ctxName (Some a) inputPath
                                   outputPath codec wd in
      exists c,
        trace (snd r) = trace wd ++ [c] /\
        take 4 (args c)
        = [AStr "-i"; AStr inputPath; AStr "-af";
           AStr "aresample=async=1,adelay=0:all=true"] /\
        (fst r = Ok tt \/ fst r = Throw (FfmpegError (label c)))) /\
  (forall host ctxName inputPath outputPath wd vw vh E gs,
      video_ready a vw vh q E gs ->
      let r := normalizeVideoTrackToM4V host ctxName (Some a) inputPath
                                        outputPath wd in
      (forall e, fst r = Throw e -> ~ is_validation_error e) /\
      trace (snd r) !! length (trace wd)
      = Some (convert_command host ctxName inputPath vw vh
                              (default 30 (frameRate a))) /\
      (forall i s c,
          planSegments gs E !! i = Some s ->
          type s = src ->
          trace (snd r) !! (length (trace wd) + S i)%nat = Some c ->
          arg_after "-ss" (args c)
          = Some (ANum (Number.of_Q (seg_start s)))) /\
      (fst r = Ok tt ->
       forall i s,
         planSegments gs E !! i = Some s ->
         is_Some (trace (snd r) !! (length (trace wd) + S i)%nat))).
Proof.
  intros Hs Hq. split.
  - intros host ctxName inputPath outputPath codec wd Hv Hcodec.
    destruct (normalizeAudioTrack_accepts host ctxName a inputPath
                outputPath codec wd Hv) as (c & Htr & Hhead & Hres);
      [rewrite Hs; eauto | exact Hcodec |].
    exists c. rewrite (audio_filter_zero a q Hs Hq) in Hhead.
    split; [exact Htr |]. split; [exact Hhead | exact Hres].
  - intros host ctxName inputPath outputPath wd vw vh E gs Hready.
    cbn zeta.
    pose proof (issued_segment_command host ctxName a inputPath outputPath
                  wd vw vh q E gs) as Hseek.
    rewrite (normalizeVideoTrackToM4V_ready _ _ _ _ _ _ _ _ _ _ Hready)
      in Hseek |- *.
    split; [intros e; apply render_video_no_validation_error |].
    destruct (render_video_outcomes host ctxName vw vh
                (default 30 (frameRate a)) q E gs inputPath outputPath wd)
      as [[_ Htr] | [(k & s & _ & _ & Htr)
                    | (w3 & ok & fs4 & _ & _ & _ & Htr & _)]];
      cbn zeta in Htr.
    all: split;
      [rewrite Htr, lookup_app_r, Nat.sub_diag by lia; reflexivity |].
    all: split;
      [intros i s' c Hi Hsrc Hc;
       rewrite (Hseek i s' c Hready Hi Hc);
       destruct (segment_command_options host ctxName vw vh
                   (default 30 (frameRate a)) q i s') as [_ Hss];
       destruct (Hss Hsrc) as [-> _];
       now rewrite (of_Q_zero q Hq), sub_zero |].
    all: intros Hok i s' Hi;
      destruct (render_video_spec host ctxName vw vh
                  (default 30 (frameRate a)) q E gs inputPath outputPath wd)
        as (k' & _ & _ & Hres);
      rewrite Hok in Hres; destruct Hres as [Hall _];
      rewrite Hall, lookup_app_r by lia;
      replace (length (trace wd) + S i - length (trace wd))%nat with (S i)
        by lia;
      unfold planned_commands; rewrite lookup_cons;
      rewrite lookup_app_l
        by (rewrite segment_commands_length; eapply lookup_lt_Some, Hi);
      rewrite segment_commands_lookup, Hi; cbn; eauto.
Qed.

Lemma zero_video_ready :
  video_ready zero_video 1280 720 0 5 [mkGap 2 (5 # 2)].
Proof.
  split; try reflexivity; try lia. intros H. discriminate H.
Qed.

(** An audio track and a video track that start at 0: the audio command
    carries a delay of 0 ms; the video run returns, and the command of its
    third segment, [2.5, 5), seeks at 2.5. *)
Lemma zero_startTime_is_accepted_witness :
  (startTime (mkAnalysis None (Some 0) None None None None) = Some 0 /\
   0 == 0 /\
   (exists c,
       trace (snd (normalizeAudioTrack good_host "mic"
                     (Some (mkAnalysis None (Some 0) None None None None))
                     "mic.webm" "mic_normalized.aac" None example_world))
       = trace example_world ++ [c] /\
       take 4 (args c)
       = [AStr "-i"; AStr "mic.webm"; AStr "-af";
          AStr "aresample=async=1,adelay=0:all=true"]) /\
   fst (normalizeAudioTrack good_host "mic"
          (Some (mkAnalysis None (Some 0) None None None None))
          "mic.webm" "mic_normalized.aac" None example_world) = Ok tt) /\
  (startTime zero_video = Some 0 /\
   video_ready zero_video 1280 720 0 5 [mkGap 2 (5 # 2)] /\
   planSegments [mkGap 2 (5 # 2)] 5 !! 2%nat
   = Some (mkSegment (5 # 2) 5 src) /\
   fst (normalizeVideoTrackToM4V good_host "cam" (Some zero_video)
          "cam.webm" "cam_normalized.m4v" example_world) = Ok tt /\
   exists c,
     trace (snd (normalizeVideoTrackToM4V good_host "cam" (Some zero_video)
                   "cam.webm" "cam_normalized.m4v" example_world))
       !! (length (trace example_world) + 3)%nat = Some c /\
     arg_after "-ss" (args c) = Some (ANum (Number.of_Q (5 # 2)))).
Proof.
  split.
  - split; [reflexivity |]. split; [reflexivity |].
    destruct (zero_startTime_is_accepted
                (mkAnalysis None (Some 0) None None None None) 0
                eq_refl (Qeq_refl 0)) as [Haudio _].
    destruct (Haudio good_host "mic" "mic.webm" "mic_normalized.aac" None
                example_world eq_refl (or_introl eq_refl))
      as (c & Htr & Hhead & _).
    split; [exists c; split; [exact Htr | exact Hhead] |].
    vm_compute. reflexivity.
  - assert (Hok : fst (normalizeVideoTrackToM4V good_host "cam"
                         (Some zero_video) "cam.webm" "cam_normalized.m4v"
                         example_world) = Ok tt)
      by (vm_compute; reflexivity).
    assert (Hseg : planSegments [mkGap 2 (5 # 2)] 5 !! 2%nat
                   = Some (mkSegment (5 # 2) 5 src)) by reflexivity.
    split; [reflexivity |]. split; [exact zero_video_ready |].
    split; [exact Hseg |]. split; [exact Hok |].
    destruct (zero_startTime_is_accepted zero_video 0 eq_refl (Qeq_refl 0))
      as [_ Hvideo].
    destruct (Hvideo good_host "cam" "cam.webm" "cam_normalized.m4v"
                example_world 1280%Z 720%Z 5 [mkGap 2 (5 # 2)]
                zero_video_ready) as (_ & _ & Hss & Hall).
    destruct (Hall Hok 2%nat _ Hseg) as [c Hc].
    exists c. split; [exact Hc |].
    exact (Hss 2%nat _ c Hseg eq_refl Hc).
Defined.

(** The commands of a video that starts at 0: the source segments are
    sought at 0 and at 2.5. *)
Example zero_startTime_video :
  map (fun c => (label c, arg_after "-ss" (args c)))
      (trace (snd (normalizeVideoTrackToM4V good_host "cam"
                     (Some zero_video) "cam.webm" "cam_normalized.m4v"
                     example_world)))
  = [("convert_cam", None);
     ("extractseg_0_cam", Some (ANum (S754_zero false)));
     ("rendergap_1_cam", None);
     ("extractseg_2_cam", Some (ANum (Number.of_Q (5 # 2))));
     ("concat_cam", None)].
Proof. vm_compute. reflexivity. Qed.
